(** * Storefront theme components: a shallow embedding and its properties

    The custom elements of the theme (disclosure, quantity selector,
    paginated list, variant picker, quick add, drag-zoom wrapper) are
    embedded as functions on records that hold exactly the fields and the
    DOM attributes the methods read and write.  Asynchronous methods are
    split where the source suspends: the part that runs up to the first
    [await] and the continuation that runs when the awaited promise
    settles, and one task of the event loop is one step of a component.
    A string holds the UTF-8 encoding of the text, so that the ASCII
    characters the code searches for are found byte by byte; the length
    of a string and the white space [parseInt] skips are read through
    that encoding.  Browser built-ins and parts of the theme outside
    these files
    ([Number], the value setter of an input, [stepUp], the DOM parser,
    [clamp], the callbacks of [Component]) are section variables or fields
    of a class. *)

From Stdlib Require Import ZArith String Ascii List Bool Lia.
From Stdlib Require Import Floats.
From stdpp Require Import base option list gmap strings pretty.

Import ListNotations.

(** ** ECMAScript helpers *)

Module Js.

Open Scope Z_scope.

(** A JavaScript number that is either an integer or [NaN].  Of the two
    infinities, [Infinity] is held as 2^1024 and [-Infinity] as its
    opposite: the values round-to-nearest overflows towards, above every
    finite double, so that [<] and [>] are the comparisons of doubles. *)
Definition num : Type := option Z.

Definition NaN : num := None.

Definition INFINITY : Z := Z.shiftl 1 1024.

(** The double nearest to an integer, ties to the even significand: the
    integers below 2^53 are doubles themselves, a larger one keeps its 53
    leading bits, and from 2^1024 - 2^970 on the result is an infinity. *)
Definition to_double (z : Z) : Z :=
  let a := Z.abs z in
  if a <? 9007199254740992 then z
  else
    let e := Z.log2 a - 52 in
    let q := Z.shiftr a e in
    let r := Z.land a (Z.ones e) in
    let half := Z.shiftl 1 (e - 1) in
    let q' := if (half <? r) || ((r =? half) && Z.odd q) then q + 1 else q in
    let v := Z.shiftl q' e in
    Z.sgn z * (if INFINITY <=? v then INFINITY else v).

(** [a < b] and [a > b]: false as soon as one side is [NaN]. *)
Definition lt (a b : num) : bool :=
  match a, b with
  | Some x, Some y => x <? y
  | _, _ => false
  end.

Definition gt (a b : num) : bool := lt b a.

(** [a + k] for a small integer [k]; the sum is exact, as it is on doubles
    below 2^53. *)
Definition plus (a : num) (k : Z) : num :=
  match a with
  | Some x => Some (x + k)
  | None => None
  end.

(** Truthiness of a string: every string but the empty one. *)
Definition truthy (s : string) : bool :=
  match s with
  | EmptyString => false
  | String _ _ => true
  end.

(** Truthiness of an optional string ([undefined] is falsy). *)
Definition truthy_opt (o : option string) : bool :=
  match o with
  | Some s => truthy s
  | None => false
  end.

(** [x || ''] on a possibly undefined string. *)
Definition or_empty (o : option string) : string :=
  match o with
  | Some s => s
  | None => EmptyString
  end.

(** A template literal [`${x}`] prints [undefined] for a missing value. *)
Definition template (o : option string) : string :=
  match o with
  | Some s => s
  | None => "undefined"%string
  end.

Definition String_of_bool (b : bool) : string :=
  if b then "true"%string else "false"%string.

(** The ASCII white space and line terminators: tab, line feed, vertical
    tab, form feed, carriage return and space. *)
Definition is_space (c : ascii) : bool :=
  let n := nat_of_ascii c in
  ((9 <=? n) && (n <=? 13))%nat || (n =? 32)%nat.

(** The other white space and line terminators, by the two or three
    bytes of their encoding: U+00A0; U+1680; U+2000 to U+200A, U+2028,
    U+2029 and U+202F; U+205F; U+3000; U+FEFF. *)
Definition is_space2 (a b : ascii) : bool :=
  ((nat_of_ascii a =? 194) && (nat_of_ascii b =? 160))%nat.

Definition is_space3 (a b c : ascii) : bool :=
  let '(x, y, z) := (nat_of_ascii a, nat_of_ascii b, nat_of_ascii c) in
  ((x =? 225) && (y =? 154) && (z =? 128)
   || (x =? 226) && (y =? 128)
      && (((128 <=? z) && (z <=? 138)) || (z =? 168) || (z =? 169)
          || (z =? 175))
   || (x =? 226) && (y =? 129) && (z =? 159)
   || (x =? 227) && (y =? 128) && (z =? 128)
   || (x =? 239) && (y =? 187) && (z =? 191))%nat.

(** The string without its leading white space. *)
Fixpoint skip_space (s : string) : string :=
  match s with
  | String a r =>
      if is_space a then skip_space r
      else
        match r with
        | String b r2 =>
            if is_space2 a b then skip_space r2
            else
              match r2 with
              | String c r3 => if is_space3 a b c then skip_space r3 else s
              | EmptyString => s
              end
        | EmptyString => s
        end
  | EmptyString => EmptyString
  end.

(** [s.length]: the number of UTF-16 code units of the text.  A character
    of one, two or three bytes is one code unit, a character of four
    bytes is a surrogate pair; the bytes that continue a character count
    for nothing. *)
Fixpoint length (s : string) : nat :=
  match s with
  | String c r =>
      let n := nat_of_ascii c in
      (if (n <? 128)%nat then 1
       else if (n <? 192)%nat then 0
       else if (n <? 240)%nat then 1
       else 2)%nat + length r
  | EmptyString => 0%nat
  end.

(** Value of a digit character in radix 36. *)
Definition digit_value (c : ascii) : option Z :=
  let n := Z.of_nat (nat_of_ascii c) in
  if (48 <=? n) && (n <=? 57) then Some (n - 48)
  else if (97 <=? n) && (n <=? 122) then Some (n - 87)
  else if (65 <=? n) && (n <=? 90) then Some (n - 55)
  else None.

(** The longest prefix of digits below [radix], read as a number; [acc] is
    [None] until a first digit has been read. *)
Fixpoint digits (radix : Z) (s : string) (acc : option Z) : option Z :=
  match s with
  | String c r =>
      match digit_value c with
      | Some d =>
          if d <? radix
          then digits radix r (Some (radix * default 0 acc + d))
          else acc
      | None => acc
      end
  | EmptyString => acc
  end.

(** [parseInt(s)] without a radix: leading white space, an optional sign,
    an optional [0x] prefix, then digits; [NaN] when no digit follows.
    The number is the double nearest to the integer the digits denote
    (the engines round the exact integer, although the standard lets an
    implementation drop decimal digits after the twentieth). *)
Definition parseInt (s : string) : num :=
  let s1 := skip_space s in
  let '(neg, s2) :=
    match s1 with
    | String "-"%char r => (true, r)
    | String "+"%char r => (false, r)
    | _ => (false, s1)
    end in
  let '(radix, s3) :=
    match s2 with
    | String "0"%char (String "x"%char r) => (16, r)
    | String "0"%char (String "X"%char r) => (16, r)
    | _ => (10, s2)
    end in
  match digits radix s3 None with
  | Some n => Some (to_double (if neg then - n else n))
  | None => None
  end.

(** Indexing a JavaScript array with a number: [undefined] outside it. *)
Definition at_index {A : Type} (l : list A) (i : Z) : option A :=
  if i <? 0 then None else l !! Z.to_nat i.

End Js.

(** ** disclosure-custom.js *)

Module Disclosure.

(** The trigger's attributes and data set, and the content's [inert]. *)
Record t : Type := mk {
  aria_expanded : option string;
  aria_label : option string;
  disclosureOpen : option string;
  disclosureClose : option string;
  inert : bool
}.

(** [trigger.matches('[aria-expanded="true"]')]. *)
Definition expanded (d : t) : bool :=
  bool_decide (aria_expanded d = Some "true"%string).

Definition toggleDisclosure (d : t) : t :=
  let e := expanded d in
  {| aria_expanded := Some (Js.String_of_bool (negb e));
     aria_label :=
       Some (Js.template (if e then disclosureOpen d else disclosureClose d));
     disclosureOpen := disclosureOpen d;
     disclosureClose := disclosureClose d;
     inert := e |}.

(** Toggling twice gives back both the attribute and the inert flag. *)
Definition restored_by_two_toggles (d : t) : Prop :=
  let d2 := toggleDisclosure (toggleDisclosure d) in
  aria_expanded d2 = aria_expanded d /\ inert d2 = inert d.

(** A collapsed trigger whose content was rendered without [inert]. *)
Definition collapsed_not_inert : t :=
  {| aria_expanded := Some "false"%string;
     aria_label := Some "Open"%string;
     disclosureOpen := Some "Open"%string;
     disclosureClose := Some "Close"%string;
     inert := false |}.

End Disclosure.

(** ** component-quantity-selector.js *)

Module Quantity.

Open Scope Z_scope.

(** The quantity input: its value, its [min] and [max] properties (empty
    when the attribute is absent) and its [data-cart-line]. *)
Record Input : Type := mkInput {
  value : string;
  min : string;
  max : string;
  cartLine : option string
}.

(** What [event.target] is: no [HTMLElement] at all, an element that is no
    input, or an [HTMLInputElement] with its current value. *)
Inductive Target : Type :=
  | NotElement
  | OtherElement
  | InputElement (v : string).

Definition is_element (t : Target) : bool :=
  match t with
  | NotElement => false
  | _ => true
  end.

(** [QuantitySelectorUpdateEvent(quantity, cartLine)]. *)
Record UpdateEvent : Type := mkEvent {
  quantity : Js.num;
  line : Js.num
}.

(** How a public method ends: it returns, with the input as it left it and
    the events it dispatched, or a DOM call inside it throws. *)
Inductive Outcome : Type :=
  | Done (i : Input) (evs : list UpdateEvent)
  | Threw.

Inductive Op : Type := Increase | Decrease | SetTo.

Section Browser.

(** Assigning to [input.value] stores the string the input type's value
    sanitization leaves. *)
Variable sanitize : string -> string.

(** [stepUp()] and [stepDown()]: the value the browser leaves, or [None]
    when the call throws. *)
Variable stepUp stepDown : Input -> option string.

Variable Number : option string -> Js.num.

Definition with_value (i : Input) (v : string) : Input :=
  {| value := v; min := min i; max := max i; cartLine := cartLine i |}.

Definition assign_value (i : Input) (s : string) : Input :=
  with_value i (sanitize s).

(** [#checkQuantityRules]: the three integers are read once, before either
    assignment. *)
Definition checkQuantityRules (i : Input) : Input :=
  let minInt := Js.parseInt (min i) in
  let maxInt := Js.parseInt (max i) in
  let newValueInt := Js.parseInt (value i) in
  let i1 :=
    if Js.lt newValueInt minInt && Js.truthy (min i)
    then assign_value i (min i) else i in
  if Js.gt newValueInt maxInt && Js.truthy (max i)
  then assign_value i1 (max i) else i1.

(** [#onQuantityChange]. *)
Definition onQuantityChange (i : Input) : Input * list UpdateEvent :=
  let i' := checkQuantityRules i in
  let newValue := Js.parseInt (value i') in
  (i', [mkEvent newValue (Number (cartLine i'))]).

(** The input as the method leaves it just before [#onQuantityChange];
    [None] when stepping throws. *)
Definition staged (op : Op) (t : Target) (i : Input) : option Input :=
  match op with
  | Increase => with_value i <$> stepUp i
  | Decrease => with_value i <$> stepDown i
  | SetTo =>
      match t with
      | InputElement v => Some (assign_value i v)
      | _ => Some i
      end
  end.

Definition perform (op : Op) (t : Target) (i : Input) : Outcome :=
  if is_element t then
    match staged op t i with
    | Some i1 => let '(i', evs) := onQuantityChange i1 in Done i' evs
    | None => Threw
    end
  else Done i [].

Definition increaseQuantity : Target -> Input -> Outcome := perform Increase.
Definition decreaseQuantity : Target -> Input -> Outcome := perform Decrease.
Definition setQuantity : Target -> Input -> Outcome := perform SetTo.

(** The value the method leaves parses to [n], and the one event it
    dispatched carries [n]. *)
Definition leaves (o : Outcome) (n : Z) : Prop :=
  match o with
  | Done i evs =>
      Js.parseInt (value i) = Some n /\
      exists c, evs = [mkEvent (Some n) c]
  | Threw => False
  end.

(** The input's minimum, when the attribute is not empty and parses. *)
Definition lower_bound (i : Input) (m : Z) : Prop :=
  min i <> EmptyString /\ Js.parseInt (min i) = Some m.

Definition upper_bound (i : Input) (M : Z) : Prop :=
  max i <> EmptyString /\ Js.parseInt (max i) = Some M.

(** The method completes with a value within the bounds the input has. *)
Definition within_bounds (i : Input) (o : Outcome) : Prop :=
  exists n, leaves o n /\
    (forall m, lower_bound i m -> m <= n) /\
    (forall M, upper_bound i M -> n <= M).

End Browser.

(** The identity setter of a text-like input, and a stepper by one. *)
Definition plain (s : string) : string := s.

Definition no_step (i : Input) : option string := Some (value i).

Definition Number_int (o : option string) : Js.num :=
  match o with
  | Some s => Js.parseInt s
  | None => None
  end.

(** An input with [min="1"] whose field the user has emptied. *)
Definition emptied : Input :=
  {| value := EmptyString; min := "1"; max := EmptyString;
     cartLine := Some "1"%string |}.

End Quantity.

(** ** paginated-list.js *)

Module PaginatedList.

Open Scope Z_scope.

Inductive Direction : Type := Previous | Next.

#[export] Instance Direction_eq_dec : EqDecision Direction.
Proof. solve_decision. Defined.

(** A product card of the grid, with its [data-page]. *)
Record Card : Type := mkCard { card_page : option string }.

(** The grid element, with its [data-last-page]. *)
Record Grid : Type := mkGrid { lastPage : option string }.

(** [this.refs]: the grid, the cards when they form an array, and whether
    the two view-more markers are there. *)
Record Refs : Type := mkRefs {
  grid : option Grid;
  cards : option (list Card);
  viewMorePrevious : bool;
  viewMoreNext : bool
}.

Record PageInfo : Type := mkPageInfo { page : Js.num; url : string }.

(** A call of [sectionRenderer.getSectionHTML] that has not settled: which
    page it fetches, from where, and for which [#fetchPage] call. *)
Record Request : Type := mkRequest {
  req_id : nat;
  req_page : Js.num;
  req_url : string;
  req_type : Direction
}.

(** A render suspended on the promise it created. *)
Record Waiting : Type := mkWaiting {
  promise : nat;
  wait_type : Direction;
  wait_page : PageInfo
}.

(** The mutation observer a filter update creates: the [data-last-page] it
    captured, whether it watches a grid, and whether it is still
    connected. *)
Record FilterObserver : Type := mkFilterObserver {
  seenLastPage : option string;
  watching : bool;
  active : bool
}.

Record t : Type := mk {
  pages : gmap Js.num string;
  refs : Refs;
  (* targets of the intersection observer, once it is created *)
  infinityScrollObserver : option (list Direction);
  resolveNextPagePromise : option nat;
  resolvePreviousPagePromise : option nat;
  aspectRatioHelper : bool;
  (* outstanding page fetches and suspended renders *)
  requests : list Request;
  next_request : nat;
  waiting : list Waiting;
  resolved : list nat;
  next_promise : nat;
  (* queued idle callbacks, oldest first *)
  idle : list Direction;
  filterListener : bool;
  filterObservers : list FilterObserver;
  isConnected : bool;
  (* URLs pushed on the history *)
  pushed : list string
}.

(** The browser and the parts of the theme outside this file. *)
Class Dom : Type := {
  (* [Number(x)] on a data attribute *)
  Number : option string -> Js.num;
  (* the current location with the page parameter set and no hash *)
  urlOfPage : Js.num -> string;
  (* the cards of the grid found in a fetched fragment, if it has a grid *)
  parseCards : string -> option (list Card);
  (* whether the element holds a card gallery template *)
  templateCard : Refs -> bool;
  (* [Component]'s own callbacks, which maintain the refs *)
  superConnected : Refs -> Refs;
  superDisconnected : Refs -> Refs;
  (* the [section-id] attribute of the element, when the markup has it *)
  sectionIdAttribute : option string
}.

Section Methods.

Context {dom : Dom}.

Definition with_pages (st : t) (p : gmap Js.num string) : t :=
  mk p (refs st) (infinityScrollObserver st) (resolveNextPagePromise st)
     (resolvePreviousPagePromise st) (aspectRatioHelper st) (requests st)
     (next_request st) (waiting st) (resolved st) (next_promise st) (idle st)
     (filterListener st) (filterObservers st) (isConnected st) (pushed st).

Definition with_refs (st : t) (r : Refs) : t :=
  mk (pages st) r (infinityScrollObserver st) (resolveNextPagePromise st)
     (resolvePreviousPagePromise st) (aspectRatioHelper st) (requests st)
     (next_request st) (waiting st) (resolved st) (next_promise st) (idle st)
     (filterListener st) (filterObservers st) (isConnected st) (pushed st).

Definition with_observer (st : t) (o : option (list Direction)) : t :=
  mk (pages st) (refs st) o (resolveNextPagePromise st)
     (resolvePreviousPagePromise st) (aspectRatioHelper st) (requests st)
     (next_request st) (waiting st) (resolved st) (next_promise st) (idle st)
     (filterListener st) (filterObservers st) (isConnected st) (pushed st).

Definition with_resolvers (st : t) (n p : option nat) (done : list nat) : t :=
  mk (pages st) (refs st) (infinityScrollObserver st) n p
     (aspectRatioHelper st) (requests st) (next_request st) (waiting st)
     done (next_promise st) (idle st) (filterListener st)
     (filterObservers st) (isConnected st) (pushed st).

Definition with_requests (st : t) (rs : list Request) (n : nat) : t :=
  mk (pages st) (refs st) (infinityScrollObserver st)
     (resolveNextPagePromise st) (resolvePreviousPagePromise st)
     (aspectRatioHelper st) rs n (waiting st) (resolved st)
     (next_promise st) (idle st) (filterListener st) (filterObservers st)
     (isConnected st) (pushed st).

Definition with_waiting (st : t) (w : list Waiting) (n : nat) : t :=
  mk (pages st) (refs st) (infinityScrollObserver st)
     (resolveNextPagePromise st) (resolvePreviousPagePromise st)
     (aspectRatioHelper st) (requests st) (next_request st) w (resolved st)
     n (idle st) (filterListener st) (filterObservers st) (isConnected st)
     (pushed st).

Definition with_idle (st : t) (q : list Direction) (h : list string) : t :=
  mk (pages st) (refs st) (infinityScrollObserver st)
     (resolveNextPagePromise st) (resolvePreviousPagePromise st)
     (aspectRatioHelper st) (requests st) (next_request st) (waiting st)
     (resolved st) (next_promise st) q (filterListener st)
     (filterObservers st) (isConnected st) h.

Definition with_connection (st : t) (helper listener connected : bool) : t :=
  mk (pages st) (refs st) (infinityScrollObserver st)
     (resolveNextPagePromise st) (resolvePreviousPagePromise st) helper
     (requests st) (next_request st) (waiting st) (resolved st)
     (next_promise st) (idle st) listener (filterObservers st) connected
     (pushed st).

Definition with_filterObservers (st : t) (os : list FilterObserver) : t :=
  mk (pages st) (refs st) (infinityScrollObserver st)
     (resolveNextPagePromise st) (resolvePreviousPagePromise st)
     (aspectRatioHelper st) (requests st) (next_request st) (waiting st)
     (resolved st) (next_promise st) (idle st) (filterListener st) os
     (isConnected st) (pushed st).

(** [grid?.dataset.lastPage]. *)
Definition gridLastPage (r : Refs) : option string :=
  g ← grid r; lastPage g.

(** The test of [#shouldUsePage] on a page number: [data-last-page] is
    there and not empty, and the page is neither below 1 nor above it. *)
Definition usable (r : Refs) (p : Js.num) : bool :=
  match gridLastPage r with
  | Some l =>
      negb (negb (Js.truthy l) || Js.lt p (Some 1)
            || Js.gt p (Number (Some l)))
  | None => false
  end.

Definition shouldUsePage (st : t) (pageInfo : option PageInfo) : bool :=
  match pageInfo with
  | Some pi => usable (refs st) (page pi)
  | None => false
  end.

(** [#getPage]: the page before the first card or after the last one. *)
Definition getPage (st : t) (type : Direction) : option PageInfo :=
  match cards (refs st) with
  | Some cs =>
      let isPrevious := bool_decide (type = Previous) in
      match Js.at_index cs (if isPrevious then 0
                            else Z.of_nat (length cs) - 1) with
      | Some targetCard =>
          let currentCardPage := Number (card_page targetCard) in
          let p := if isPrevious then Js.plus currentCardPage (-1)
                   else Js.plus currentCardPage 1 in
          Some (mkPageInfo p (urlOfPage p))
      | None => None
      end
  | None => None
  end.

(** The closure [resolvePromise] of [#fetchPage]: the resolver of the
    direction is called, if there is one, and forgotten. *)
Definition resolvePromise (st : t) (type : Direction) : t :=
  match type with
  | Next =>
      with_resolvers st None (resolvePreviousPagePromise st)
        (option_list (resolveNextPagePromise st) ++ resolved st)
  | Previous =>
      with_resolvers st (resolveNextPagePromise st) None
        (option_list (resolvePreviousPagePromise st) ++ resolved st)
  end.

(** The getter [sectionId]: [None] when it throws, for an element without
    the attribute or with an empty one. *)
Definition sectionId : option string :=
  match sectionIdAttribute with
  | Some id => if Js.truthy id then Some id else None
  | None => None
  end.

(** [#fetchSpecificPage] up to its [await]: the request is issued only for
    a page that passes [#shouldUsePage], and only when the getter
    [sectionId], evaluated for the call, does not throw.  The flag tells
    whether the method has not returned: it awaits the fetch, or it has
    thrown, and then the [await] of [#fetchPage] throws in turn. *)
Definition fetchSpecificPage (st : t) (type : Direction) (pageNumber : Js.num)
    (u : option string) : t * bool :=
  let pageInfo :=
    mkPageInfo pageNumber
      (match u with Some x => x | None => urlOfPage pageNumber end) in
  if shouldUsePage st (Some pageInfo) then
    match sectionId with
    | Some _ =>
        (with_requests st
           (requests st ++
              [mkRequest (next_request st) pageNumber (url pageInfo) type])
           (S (next_request st)), true)
    | None => (st, true)
    end
  else (st, false).

(** [#fetchPage] up to its [await]: without a page to fetch the promise of
    the direction is resolved at once; when [#fetchSpecificPage] throws,
    the method ends there and resolves nothing. *)
Definition fetchPage (st : t) (type : Direction) : t :=
  match getPage st type with
  | Some pg =>
      if shouldUsePage st (Some pg) then
        let '(st1, awaiting) :=
          fetchSpecificPage st type (page pg) (Some (url pg)) in
        if awaiting then st1 else resolvePromise st1 type
      else resolvePromise st type
  | None => resolvePromise st type
  end.

(** [#getGridForPage]: nothing for a page that is not cached, whose cached
    text is empty, or whose fragment has no grid. *)
Definition getGridForPage (st : t) (p : Js.num) : option (list Card) :=
  match pages st !! p with
  | Some pageHTML => if Js.truthy pageHTML then parseCards pageHTML else None
  | None => None
  end.

(** The end of a render: the cards join the grid, the aspect ratio helper
    runs (a missing helper throws and ends the render there), the URL is
    pushed and the next fetch is left to an idle callback.  The scroll
    position a previous page restores is not part of the state. *)
Definition finishRender (st : t) (type : Direction) (pg : PageInfo)
    (elements : list Card) : t :=
  let r := refs st in
  let cs := default [] (cards r) in
  let joined := match type with
                | Next => cs ++ elements
                | Previous => elements ++ cs
                end in
  let st1 :=
    with_refs st
      (mkRefs (grid r) (Some joined) (viewMorePrevious r) (viewMoreNext r)) in
  if aspectRatioHelper st1
  then with_idle st1 (idle st1 ++ [type]) (pushed st1 ++ [url pg])
  else st1.

(** [#renderNextPage] and [#renderPreviousPage] up to their [await]. *)
Definition renderPage (st : t) (type : Direction) : t :=
  match grid (refs st) with
  | None => st
  | Some _ =>
      match getPage st type with
      | Some pg =>
          if shouldUsePage st (Some pg) then
            match getGridForPage st (page pg) with
            | Some elements => finishRender st type pg elements
            | None =>
                let p := next_promise st in
                let st1 :=
                  match type with
                  | Next =>
                      with_resolvers st (Some p)
                        (resolvePreviousPagePromise st) (resolved st)
                  | Previous =>
                      with_resolvers st (resolveNextPagePromise st) (Some p)
                        (resolved st)
                  end in
                let st2 := fetchPage st1 type in
                with_waiting st2 (waiting st2 ++ [mkWaiting p type pg]) (S p)
            end
          else st
      | None => st
      end
  end.

Definition renderNextPage (st : t) : t := renderPage st Next.
Definition renderPreviousPage (st : t) : t := renderPage st Previous.

(** A render after its [await]: it looks the page up again. *)
Definition resumeRender (st : t) (w : Waiting) : t :=
  match getGridForPage st (page (wait_page w)) with
  | Some elements => finishRender st (wait_type w) (wait_page w) elements
  | None => st
  end.

(** The renders whose promise has been resolved continue, in the order
    they were suspended. *)
Definition runResolved (st : t) : t :=
  let ready :=
    filter (fun w => promise w ∈ resolved st) (waiting st) in
  let rest :=
    filter (fun w => promise w ∉ resolved st) (waiting st) in
  let st1 :=
    with_resolvers (with_waiting st rest (next_promise st))
      (resolveNextPagePromise st) (resolvePreviousPagePromise st) [] in
  foldl resumeRender st1 ready.

(** [#observeViewMore]. *)
Definition observeViewMore (st : t) : t :=
  let r := refs st in
  if negb (viewMorePrevious r) && negb (viewMoreNext r) then st
  else
    let targets := default [] (infinityScrollObserver st) in
    let t1 := if viewMorePrevious r then targets ++ [Previous] else targets in
    let t2 := if viewMoreNext r then t1 ++ [Next] else t1 in
    with_observer st (Some t2).

Definition connectedCallback (st : t) : t :=
  let st0 := with_refs st (superConnected (refs st)) in
  let st1 :=
    with_connection st0
      (if templateCard (refs st0) then true else aspectRatioHelper st0)
      (filterListener st0) true in
  let st2 := fetchPage st1 Next in
  let st3 := fetchPage st2 Previous in
  let st4 := observeViewMore st3 in
  with_connection st4 (aspectRatioHelper st4) true (isConnected st4).

Definition disconnectedCallback (st : t) : t :=
  let st0 := with_refs st (superDisconnected (refs st)) in
  let st1 :=
    match infinityScrollObserver st0 with
    | Some _ => with_observer st0 (Some [])
    | None => st0
    end in
  with_connection st1 (aspectRatioHelper st1) false false.

(** [#handleFilterUpdate]. *)
Definition handleFilterUpdate (st : t) : t :=
  let st1 := with_pages st ∅ in
  let st2 :=
    with_resolvers st1 None None
      (option_list (resolveNextPagePromise st1) ++
       option_list (resolvePreviousPagePromise st1) ++ resolved st1) in
  let currentLastPage := gridLastPage (refs st2) in
  with_filterObservers st2
    (filterObservers st2 ++
       [mkFilterObserver currentLastPage
          (bool_decide (is_Some (grid (refs st2)))) true]).

Definition disconnectFilterObserver (st : t) (k : nat) : t :=
  with_filterObservers st
    (alter (fun o => mkFilterObserver (seenLastPage o) (watching o) false)
       k (filterObservers st)).

(** The callback of the [k]-th filter observer. *)
Definition filterMutation (st : t) (k : nat) : t :=
  match filterObservers st !! k with
  | Some o =>
      if watching o && active o then
        let newLastPage := gridLastPage (refs st) in
        if bool_decide (newLastPage = seenLastPage o) then st
        else
          let st1 := disconnectFilterObserver st k in
          if isConnected st1 then fetchPage (observeViewMore st1) Next
          else st1
      else st
  | None => st
  end.

(** A fetched page arrives: [#fetchSpecificPage] stores it and
    [#fetchPage] resolves the promise of its direction. *)
Definition pageArrived (st : t) (id : nat) (pageContent : string) : t :=
  match list_find (fun r => req_id r = id) (requests st) with
  | Some (_, r) =>
      let st1 :=
        with_requests st
          (filter (fun r' => req_id r' ≠ id) (requests st))
          (next_request st) in
      let st2 := with_pages st1 (<[req_page r := pageContent]> (pages st1)) in
      resolvePromise st2 (req_type r)
  | None => st
  end.

(** The fetch fails: both methods end with the error, nothing is stored
    and no promise is resolved. *)
Definition pageFailed (st : t) (id : nat) : t :=
  with_requests st (filter (fun r' => req_id r' ≠ id) (requests st))
    (next_request st).

(** What can happen to the element, one task at a time. *)
Inductive Event : Type :=
  | Connected
  | Disconnected
  | Intersect (d : Direction)
  | IdleCallback
  | Arrived (id : nat) (html : string)
  | Failed (id : nat)
  | FilterUpdate
  | GridMutation (k : nat)
  | ObserverTimeout (k : nat)
  | DomChange (r : Refs).

(** One task, then the renders it has woken up. *)
Definition step (st : t) (e : Event) : t :=
  runResolved
    match e with
    | Connected => connectedCallback st
    | Disconnected => disconnectedCallback st
    | Intersect d =>
        match infinityScrollObserver st with
        | Some targets =>
            if bool_decide (d ∈ targets) then renderPage st d else st
        | None => st
        end
    | IdleCallback =>
        match idle st with
        | d :: q => fetchPage (with_idle st q (pushed st)) d
        | [] => st
        end
    | Arrived id html => pageArrived st id html
    | Failed id => pageFailed st id
    | FilterUpdate => if filterListener st then handleFilterUpdate st else st
    | GridMutation k => filterMutation st k
    | ObserverTimeout k => disconnectFilterObserver st k
    | DomChange r => with_refs st r
    end.

Definition run (st : t) (evs : list Event) : t := foldl step st evs.

(** A freshly created element with the refs of its markup. *)
Definition init (r : Refs) : t :=
  mk ∅ r None None None false [] 0%nat [] [] 0%nat [] false [] false [].

(** The number of page fetches that have not settled. *)
Definition outstanding (st : t) : nat := length (requests st).

(** The page lies within 1 and the [data-last-page] of these refs. *)
Definition within_lastPage (r : Refs) (p : Js.num) : Prop :=
  exists l n m, gridLastPage r = Some l /\ p = Some n /\
    Number (Some l) = Some m /\ 1 <= n <= m.

(** What [#shouldUsePage] guarantees of a page it accepts. *)
Definition accepted (r : Refs) (p : Js.num) : Prop :=
  exists l, gridLastPage r = Some l /\ l <> EmptyString /\
    forall n, p = Some n ->
      1 <= n /\ forall m, Number (Some l) = Some m -> n <= m.

(** Every page the task [e] adds to the cache lies within the
    [data-last-page] the grid has when the task runs. *)
Definition stores_within_lastPage (st : t) (e : Event) : Prop :=
  forall p, pages st !! p = None -> is_Some (pages (step st e) !! p) ->
    within_lastPage (refs st) p.

(** A method that leaves the cache, the outstanding fetches and the
    grid's [data-last-page] as they are. *)
Definition silent (st st' : t) : Prop :=
  pages st' = pages st /\ requests st' = requests st /\
  gridLastPage (refs st') = gridLastPage (refs st).

(** A method that leaves the cache and the grid alone and issues fetches
    only for pages the grid makes usable. *)
Definition fetches_usable (st st' : t) : Prop :=
  pages st' = pages st /\
  gridLastPage (refs st') = gridLastPage (refs st) /\
  forall q, q ∈ requests st' ->
    q ∈ requests st \/ usable (refs st) (req_page q) = true.

(** A method that withdraws no outstanding fetch. *)
Definition grows (st st' : t) : Prop :=
  forall q, q ∈ requests st -> q ∈ requests st'.

(** At some point of the run so far, the grid accepted the page. *)
Definition accepted_before (r0 : Refs) (evs : list Event) (p : Js.num) : Prop :=
  exists evs1 evs2, evs = evs1 ++ evs2 /\
    accepted (refs (run (init r0) evs1)) p.

End Methods.

(** A browser for the examples: decimal data attributes, fragments whose
    text is the page number of their single card. *)
#[export] Instance plain_dom : Dom := {|
  Number := fun o => match o with Some s => Js.parseInt s | None => None end;
  urlOfPage := fun p => match p with
                        | Some _ => "/collections/all?page=n"%string
                        | None => "/collections/all?page=NaN"%string
                        end;
  parseCards := fun s => Some [mkCard (Some s)];
  templateCard := fun _ => true;
  superConnected := fun r => r;
  superDisconnected := fun r => r;
  sectionIdAttribute := Some "template--1__main"%string
|}.

(** A grid showing page [p] of [l] pages, with both view-more markers. *)
Definition showing (p l : string) : Refs :=
  mkRefs (Some (mkGrid (Some l))) (Some [mkCard (Some p)]) true true.

(** The list once connected while it shows page 2 of 3. *)
Definition connected_on_page_2 : t := run (init (showing "2" "3")) [Connected].

End PaginatedList.

(** ** What [fetch] hands back *)

Module Fetch.

(** An error object, by its [name] and [message]. *)
Record Error : Type := mkError { name : string; message : string }.

#[export] Instance Error_eq_dec : EqDecision Error.
Proof. solve_decision. Defined.

(** The rejection of a fetch whose signal was aborted. *)
Definition AbortError : Error :=
  mkError "AbortError" "The operation was aborted.".

Definition is_abort (e : Error) : bool :=
  bool_decide (name e = "AbortError"%string).

(** Reading the body with [response.text()] gives the text or rejects. *)
Inductive Body : Type :=
  | Text (s : string)
  | BodyError (e : Error).

Record Response : Type := mkResponse {
  ok : bool;
  status : Z;
  body : Body
}.

(** How the promise of a fetch settles. *)
Inductive Outcome : Type :=
  | Fulfilled (r : Response)
  | Rejected (e : Error).

(** The error a fetch ends with when its response is read with
    [response.text()]: the rejection of the fetch itself, or of the
    reading of the body. *)
Definition failure (o : Outcome) : option Error :=
  match o with
  | Rejected e => Some e
  | Fulfilled r =>
      match body r with
      | BodyError e => Some e
      | Text _ => None
      end
  end.

(** A fetch handed to the network and not settled: its number (also the
    number of the abort controller made for it), its URL, and the flag its
    caller captured. *)
Record Pending : Type := mkPending {
  id : nat;
  target : string;
  flag : bool
}.

(** [controller?.abort()]: the fetch of that controller, if it is still
    pending, is withdrawn; the function gives the fetches left and the
    ones whose promise now rejects with [AbortError]. *)
Definition abort (controller : option nat) (pending : list Pending) :
    list Pending * list Pending :=
  match controller with
  | Some c =>
      (filter (fun f => id f ≠ c) pending,
       filter (fun f => id f = c) pending)
  | None => (pending, [])
  end.

(** How a call ends. *)
Inductive Result (A : Type) : Type :=
  | Return (a : A)
  | Throw (e : Error).

Arguments Return {A} a.
Arguments Throw {A} e.

End Fetch.

(** ** variant-picker.js *)

Module VariantPicker.

Open Scope Z_scope.

(** An input of the picker: the data attributes the picker reads and
    writes, its [checked] state, the [offsetWidth] of its parent when it
    has one, and its radio button group: the group the browser puts a
    radio button with a name in (by form owner and name), none for any
    other input. *)
Record Radio : Type := mkRadio {
  fieldsetIndex : option string;
  inputIndex : option string;
  optionValueId : option string;
  currentChecked : option string;
  previousChecked : option string;
  checked : bool;
  parentWidth : option Z;
  radioGroup : option string
}.

(** A fieldset: its inputs, as numbers in the store of inputs, and the two
    custom properties of its style (in pixels). *)
Record Fieldset : Type := mkFieldset {
  inputs : list nat;
  pillWidthCurrent : option Z;
  pillWidthPrevious : option Z
}.

(** A select: its value and its options, each with its value and whether
    it carries the [selected] attribute. *)
Record Select : Type := mkSelect {
  select_value : string;
  options : list (string * bool)
}.

(** The part of the document the picker works on. *)
Record Document : Type := mkDocument {
  store : list Radio;
  fieldsets : list Fieldset;
  selects : list Select
}.

Inductive Target : Type :=
  | ById (optionValue : string)
  | Input (n : nat)
  | SelectElement (k : nat)
  | OtherElement.

Inductive LogEntry : Type :=
  | Warn (msg : string)
  | Error (e : Fetch.Error).

Record t : Type := mk {
  pendingRequestUrl : option string;
  abortController : option nat;
  checkedIndices : list (list Z);
  radios : list (list nat);
  doc : Document;
  (* fetches not settled, the number of the next one, the console *)
  inflight : list Fetch.Pending;
  next_fetch : nat;
  console : list LogEntry
}.

Class Dom : Type := {
  (* [this.querySelector] for [data-option-value-id] *)
  queryOption : Document -> string -> option Target;
  (* the second [then] callback after it has parsed the text: the document
     as the morph leaves it, and the error when something in it throws *)
  morphed : string -> bool -> Document -> Document * option Fetch.Error;
  (* [Component]'s own [connectedCallback] *)
  superConnected : Document -> Document
}.

Section Methods.

Context {dom : Dom}.

Definition with_doc (st : t) (d : Document) : t :=
  mk (pendingRequestUrl st) (abortController st) (checkedIndices st)
     (radios st) d (inflight st) (next_fetch st) (console st).

Definition with_tracking (st : t) (ci : list (list Z)) (rs : list (list nat))
    : t :=
  mk (pendingRequestUrl st) (abortController st) ci rs (doc st)
     (inflight st) (next_fetch st) (console st).

Definition with_pending (st : t) (u : option string) : t :=
  mk u (abortController st) (checkedIndices st) (radios st) (doc st)
     (inflight st) (next_fetch st) (console st).

Definition with_fetches (st : t) (c : option nat) (fs : list Fetch.Pending)
    (n : nat) : t :=
  mk (pendingRequestUrl st) c (checkedIndices st) (radios st) (doc st) fs n
     (console st).

Definition log (st : t) (l : LogEntry) : t :=
  mk (pendingRequestUrl st) (abortController st) (checkedIndices st)
     (radios st) (doc st) (inflight st) (next_fetch st) (console st ++ [l]).

(** Writing data attributes of the input numbered [n]. *)
Definition update_radio (d : Document) (n : nat) (f : Radio -> Radio)
    : Document :=
  mkDocument (alter f n (store d)) (fieldsets d) (selects d).

Definition set_previousChecked (v : string) (r : Radio) : Radio :=
  mkRadio (fieldsetIndex r) (inputIndex r) (optionValueId r)
          (currentChecked r) (Some v) (checked r) (parentWidth r)
          (radioGroup r).

Definition set_currentChecked (v : string) (r : Radio) : Radio :=
  mkRadio (fieldsetIndex r) (inputIndex r) (optionValueId r) (Some v)
          (previousChecked r) (checked r) (parentWidth r) (radioGroup r).

Definition set_checked (b : bool) (r : Radio) : Radio :=
  mkRadio (fieldsetIndex r) (inputIndex r) (optionValueId r)
          (currentChecked r) (previousChecked r) b (parentWidth r)
          (radioGroup r).

(** Two inputs of one radio button group. *)
Definition same_group (a b : Radio) : bool :=
  match radioGroup a, radioGroup b with
  | Some x, Some y => bool_decide (x = y)
  | _, _ => false
  end.

(** [target.checked = true] on the input numbered [n]: the browser checks
    it and unchecks the other inputs of its radio button group. *)
Definition check (d : Document) (n : nat) : Document :=
  match store d !! n with
  | Some target =>
      mkDocument
        (imap (fun k r =>
                 if bool_decide (k = n) then set_checked true r
                 else if same_group target r then set_checked false r
                 else r)
           (store d))
        (fieldsets d) (selects d)
  | None => d
  end.

Definition update_fieldset (d : Document) (i : Z) (f : Fieldset -> Fieldset)
    : Document :=
  if i <? 0 then d
  else mkDocument (store d) (alter f (Z.to_nat i) (fieldsets d)) (selects d).

(** [radios[i]] for one of the recorded index values. *)
Definition radio_at (rs : list nat) (i : option Z) : option nat :=
  i ≫= Js.at_index rs.

(** [parentElement?.offsetWidth || 0] of an input. *)
Definition widthOf (d : Document) (n : nat) : Z :=
  default 0 (store d !! n ≫= parentWidth).

(** The data attribute of an input that is written only when
    [radios[i]] is there. *)
Definition mark (rs : list nat) (i : option Z) (f : Radio -> Radio)
    (d : Document) : Document :=
  match radio_at rs i with
  | Some n => update_radio d n f
  | None => d
  end.

(** [checkedIndices.unshift(inputIndex)] followed by the truncation to at
    most two entries. *)
Definition remember (checked : list Z) (inputIndex : Z) : list Z :=
  take (Nat.min (length (inputIndex :: checked)) 2) (inputIndex :: checked).

(** The body of the guarded block of [updateSelectedOption], for the
    fieldset [fi], its recorded inputs [rs] and its recorded indices
    [checked]. *)
Definition recordChecked (st : t) (fi ii : Z) (rs : list nat)
    (checked : list Z) : t :=
  let currentIndex := checked !! 0%nat in
  let previousIndex := checked !! 1%nat in
  let d1 := mark rs currentIndex (set_previousChecked "false") (doc st) in
  let d2 := mark rs previousIndex (set_previousChecked "false") d1 in
  let checked' := remember checked ii in
  let newCurrentIndex := checked' !! 0%nat in
  let newPreviousIndex := checked' !! 1%nat in
  let d3 :=
    match radio_at rs newCurrentIndex with
    | Some n =>
        update_fieldset (update_radio d2 n (set_currentChecked "true")) fi
          (fun f => mkFieldset (inputs f) (Some (widthOf d2 n))
                               (pillWidthPrevious f))
    | None => d2
    end in
  let d4 :=
    match radio_at rs newPreviousIndex with
    | Some n =>
        update_fieldset
          (update_radio
             (update_radio d3 n (set_previousChecked "true")) n
             (set_currentChecked "false")) fi
          (fun f => mkFieldset (inputs f) (pillWidthCurrent f)
                               (Some (widthOf d3 n)))
    | None => d3
    end in
  with_doc
    (with_tracking st (<[Z.to_nat fi := checked']> (checkedIndices st))
       (radios st)) d4.

(** [updateSelectedOption] on an input. *)
Definition updateInput (st : t) (n : nat) : t :=
  let data := store (doc st) !! n in
  let fieldsetIndex := Js.parseInt (Js.or_empty (data ≫= fieldsetIndex)) in
  let inputIndex := Js.parseInt (Js.or_empty (data ≫= inputIndex)) in
  let st1 :=
    match fieldsetIndex, inputIndex with
    | Some fi, Some ii =>
        match Js.at_index (radios st) fi,
              Js.at_index (checkedIndices st) fi,
              Js.at_index (fieldsets (doc st)) fi with
        | Some rs, Some checked, Some _ => recordChecked st fi ii rs checked
        | _, _, _ => st
        end
    | _, _ => st
    end in
  with_doc st1 (check (doc st1) n).

(** [updateSelectedOption] on a select. *)
Definition updateSelect (st : t) (k : nat) : Fetch.Result t :=
  match selects (doc st) !! k with
  | Some s =>
      match list_find (fun o => o.1 = select_value s) (options s) with
      | Some (j, _) =>
          let cleared :=
            (fun o : string * bool => (o.1, false)) <$> options s in
          let chosen := alter (fun o => (o.1, true)) j cleared in
          Fetch.Return
            (with_doc st
               (mkDocument (store (doc st)) (fieldsets (doc st))
                  (<[k := mkSelect (select_value s) chosen]>
                     (selects (doc st)))))
      | None => Fetch.Throw (Fetch.mkError "Error" "Option not found")
      end
  | None => Fetch.Return st
  end.

Definition updateElement (st : t) (target : Target) : Fetch.Result t :=
  match target with
  | Input n => Fetch.Return (updateInput st n)
  | SelectElement k => updateSelect st k
  | _ => Fetch.Return st
  end.

Definition updateSelectedOption (st : t) (target : Target)
    : Fetch.Result t :=
  match target with
  | ById v =>
      match queryOption (doc st) v with
      | Some targetElement => updateElement st targetElement
      | None => Fetch.Throw (Fetch.mkError "Error" "Target element not found")
      end
  | _ => updateElement st target
  end.

(** [findIndex] for the input whose [data-current-checked] is ["true"];
    [-1] when there is none. *)
Definition initialCheckedIndex (d : Document) (rs : list nat) : Z :=
  match
    list_find
      (fun n => (store d !! n ≫= currentChecked) = Some "true"%string) rs
  with
  | Some (i, _) => Z.of_nat i
  | None => -1
  end.

(** One round of the [forEach] of [connectedCallback]. *)
Definition recordFieldset (d : Document) (acc : list (list Z) * list (list nat))
    (f : Fieldset) : list (list Z) * list (list nat) :=
  let rs := inputs f in
  let i := initialCheckedIndex d rs in
  (if bool_decide (i ≠ -1) then acc.1 ++ [[i]] else acc.1, acc.2 ++ [rs]).

Definition connectedCallback (st : t) : t :=
  let st0 := with_doc st (superConnected (doc st)) in
  let '(ci, rs) :=
    foldl (recordFieldset (doc st0)) (checkedIndices st0, radios st0)
      (fieldsets (doc st0)) in
  with_tracking st0 ci rs.

(** The [catch] callback of [fetchUpdatedSection]. *)
Definition catchCallback (st : t) (error : Fetch.Error) : t :=
  if Fetch.is_abort error
  then log st (Warn "Fetch aborted by user")
  else log st (Error error).

(** [fetchUpdatedSection]: the fetch in flight is aborted through the
    controller the picker holds, a new controller is made and the fetch
    starts; the [catch] callback of an aborted fetch runs once the method
    has returned. *)
Definition fetchUpdatedSection (st : t) (requestUrl : string)
    (shouldMorphMain : bool) : t :=
  let '(kept, aborted) := Fetch.abort (abortController st) (inflight st) in
  let c := next_fetch st in
  let st1 :=
    with_fetches st (Some c)
      (kept ++ [Fetch.mkPending c requestUrl shouldMorphMain]) (S c) in
  foldl (fun s _ => catchCallback s Fetch.AbortError) st1 aborted.

(** The two [then] callbacks and the [catch] callback once the fetch has
    settled. *)
Definition settle (st : t) (f : Fetch.Pending) (o : Fetch.Outcome) : t :=
  match o with
  | Fetch.Rejected e => catchCallback st e
  | Fetch.Fulfilled r =>
      match Fetch.body r with
      | Fetch.BodyError e => catchCallback st e
      | Fetch.Text responseText =>
          let st1 := with_pending st None in
          let '(d, thrown) := morphed responseText (Fetch.flag f) (doc st1) in
          let st2 := with_doc st1 d in
          match thrown with
          | Some e => catchCallback st2 e
          | None => st2
          end
      end
  end.

(** The network settles the fetch numbered [n], if it is in flight. *)
Definition settled (st : t) (n : nat) (o : Fetch.Outcome) : t :=
  match list_find (fun f => Fetch.id f = n) (inflight st) with
  | Some (_, f) =>
      settle
        (with_fetches st (abortController st)
           (filter (fun f' => Fetch.id f' ≠ n) (inflight st)) (next_fetch st))
        f o
  | None => st
  end.

(** [variantChanged], with what [buildRequestUrl] reads from the document
    given: the product URL it remembers and the request URL it builds.
    The event it dispatches and the history entry it replaces are not part
    of the picker's state. *)
Definition variantChanged (st : t) (target : Target)
    (productUrl : option string) (requestUrl : string) (loadsNewProduct : bool)
    : Fetch.Result t :=
  match updateSelectedOption st target with
  | Fetch.Return st1 =>
      Fetch.Return
        (fetchUpdatedSection (with_pending st1 productUrl) requestUrl
           loadsNewProduct)
  | Fetch.Throw e => Fetch.Throw e
  end.

Inductive Event : Type :=
  | Connected
  | Selected (target : Target)
  | Changed (target : Target) (productUrl : option string)
      (requestUrl : string) (loadsNewProduct : bool)
  | FetchUpdated (requestUrl : string) (shouldMorphMain : bool)
  | Settled (n : nat) (o : Fetch.Outcome).

(** A call that throws leaves the picker as it was. *)
Definition keep (st : t) (r : Fetch.Result t) : t :=
  match r with
  | Fetch.Return st' => st'
  | Fetch.Throw _ => st
  end.

Definition step (st : t) (e : Event) : t :=
  match e with
  | Connected => connectedCallback st
  | Selected target => keep st (updateSelectedOption st target)
  | Changed target productUrl requestUrl loadsNewProduct =>
      keep st (variantChanged st target productUrl requestUrl loadsNewProduct)
  | FetchUpdated requestUrl shouldMorphMain =>
      fetchUpdatedSection st requestUrl shouldMorphMain
  | Settled n o => settled st n o
  end.

Definition run (st : t) (evs : list Event) : t := foldl step st evs.

(** A picker just created over the document [d]. *)
Definition init (d : Document) : t := mk None None [] [] d [] 0%nat [].

Definition outstanding (st : t) : nat := length (inflight st).

(** The recorded indices of group [g] start with the index [i]. *)
Definition tracks_latest (st : t) (g : nat) (i : Z) : Prop :=
  exists rest, checkedIndices st !! g = Some (i :: rest).

(** The part of the state [fetchUpdatedSection] and the network own. *)
Definition fetches (st : t) : option nat * list Fetch.Pending :=
  (abortController st, inflight st).

(** The fetch in flight, if there is one, is the one whose controller the
    picker holds. *)
Definition supervised (st : t) : Prop :=
  inflight st = [] \/
  exists f, inflight st = [f] /\ abortController st = Some (Fetch.id f).

(** One or two recorded indices. *)
Definition short (l : list Z) : Prop := (1 <= length l <= 2)%nat.

(** Inputs that differ at most in their checked flags. *)
Definition same_input (r r' : Radio) : Prop :=
  fieldsetIndex r = fieldsetIndex r' /\ inputIndex r = inputIndex r' /\
  optionValueId r = optionValueId r' /\ parentWidth r = parentWidth r' /\
  radioGroup r = radioGroup r'.

(** Documents that differ at most in the checked flags of their inputs
    and in the pill widths of their fieldsets. *)
Definition flags_only (d d' : Document) : Prop :=
  Forall2 same_input (store d) (store d') /\
  Forall2 (fun f f' => inputs f = inputs f') (fieldsets d) (fieldsets d') /\
  selects d = selects d'.

(** Documents that differ at most in the [checked] state of their
    inputs. *)
Definition checked_only (d d' : Document) : Prop :=
  Forall2 (fun r r' => r' = set_checked (checked r') r) (store d) (store d')
  /\ fieldsets d' = fieldsets d /\ selects d' = selects d.

(** The recorded arrays line up: [#checkedIndices] has an array for every
    entry of [#radios], as it is when every fieldset had a checked input
    each time the picker was connected. *)
Definition lined_up (st : t) : Prop :=
  length (checkedIndices st) = length (radios st).

(** The group the input numbered [n] names and its index in the group:
    both data indices parse, and the picker has recorded the inputs of
    the group and has its fieldset. *)
Definition names_group (st : t) (n : nat) : option (nat * Z) :=
  let data := store (doc st) !! n in
  match Js.parseInt (Js.or_empty (data ≫= fieldsetIndex)),
        Js.parseInt (Js.or_empty (data ≫= inputIndex)) with
  | Some fi, Some ii =>
      match Js.at_index (radios st) fi,
            Js.at_index (fieldsets (doc st)) fi with
      | Some _, Some _ => Some (Z.to_nat fi, ii)
      | _, _ => None
      end
  | _, _ => None
  end.

End Methods.

(** A document for the examples and a browser that finds options by
    their place in the store. *)
#[export] Instance plain_dom : Dom := {|
  queryOption := fun d v =>
    match list_find (fun r => optionValueId r = Some v) (store d) with
    | Some (n, _) => Some (Input n)
    | None => None
    end;
  morphed := fun _ _ d => (d, None);
  superConnected := fun d => d
|}.

Definition radio (fi ii : string) (current : bool) : Radio :=
  mkRadio (Some fi) (Some ii) None (Some (Js.String_of_bool current)) None
          current (Some 40) (Some ("option-" +:+ fi)).

(** One fieldset of three inputs, the first of them checked. *)
Definition sizes : Document :=
  mkDocument [radio "0" "0" true; radio "0" "1" false; radio "0" "2" false]
    [mkFieldset [0; 1; 2]%nat None None] [].

(** One fieldset of two inputs, none of them checked. *)
Definition unselected : Document :=
  mkDocument [radio "0" "0" false; radio "0" "1" false]
    [mkFieldset [0; 1]%nat None None] [].

(** Two fieldsets: no input of the first is checked, the third input of
    the second is. *)
Definition second_group_chosen : Document :=
  mkDocument
    [radio "0" "0" false; radio "0" "1" false;
     radio "1" "0" false; radio "1" "1" false; radio "1" "2" true]
    [mkFieldset [0; 1]%nat None None; mkFieldset [2; 3; 4]%nat None None] [].

End VariantPicker.

(** ** quick-add.js *)

Module QuickAdd.

(** The component together with the two elements of the page it drives:
    the modal content (absent, or its markup) and the quick-add dialog
    (absent, or whether it is open). *)
Record t : Type := mk {
  abortController : option nat;
  cachedContent : gmap string string;
  (* fetches not settled and the number of the next one *)
  inflight : list Fetch.Pending;
  next_fetch : nat;
  (* calls of [handleClick] suspended on [fetchProductPage]: the fetch
     they wait for and the URL they asked for *)
  clicks : list (nat * string);
  modalContent : option string;
  dialog : option bool;
  stayVisible : bool;
  mediaListener : bool;
  (* rejections of [handleClick], which nothing handles *)
  unhandled : list Fetch.Error
}.

Class Dom : Type := {
  (* the [data-product-grid-content] element of a parsed page *)
  productGridOf : string -> option string;
  (* the modal content as the morph leaves it for a product grid *)
  arranged : string -> string
}.

Section Methods.

Context {dom : Dom}.

Definition with_fetches (st : t) (c : option nat) (fs : list Fetch.Pending)
    (n : nat) (cs : list (nat * string)) : t :=
  mk c (cachedContent st) fs n cs (modalContent st) (dialog st)
     (stayVisible st) (mediaListener st) (unhandled st).

Definition with_controller (st : t) (c : option nat) : t :=
  with_fetches st c (inflight st) (next_fetch st) (clicks st).

Definition with_content (st : t) (cache : gmap string string)
    (content : option string) : t :=
  mk (abortController st) cache (inflight st) (next_fetch st) (clicks st)
     content (dialog st) (stayVisible st) (mediaListener st) (unhandled st).

Definition with_dialog (st : t) (d : option bool) (visible listener : bool)
    : t :=
  mk (abortController st) (cachedContent st) (inflight st) (next_fetch st)
     (clicks st) (modalContent st) d visible listener (unhandled st).

Definition reject (st : t) (e : Fetch.Error) : t :=
  mk (abortController st) (cachedContent st) (inflight st) (next_fetch st)
     (clicks st) (modalContent st) (dialog st) (stayVisible st)
     (mediaListener st) (unhandled st ++ [e]).

(** [#openQuickAddModal], with [#stayVisibleUntilDialogCloses]. *)
Definition openQuickAddModal (st : t) : t :=
  match dialog st with
  | Some _ => with_dialog st (Some true) true (mediaListener st)
  | None => st
  end.

(** [#closeQuickAddModal]; the dialog announces that it closes. *)
Definition closeQuickAddModal (st : t) : t :=
  match dialog st with
  | Some _ => with_dialog st (Some false) false (mediaListener st)
  | None => st
  end.

(** [updateQuickAddModal]. *)
Definition updateQuickAddModal (st : t) (productGrid : string) : t :=
  match modalContent st with
  | Some _ => with_content st (cachedContent st) (Some (arranged productGrid))
  | None => st
  end.

(** [fetchProductPage] up to its [await]: nothing is fetched for an empty
    URL; otherwise the fetch of the controller the component holds is
    aborted, a new controller is stored and the fetch starts.  The result
    names the fetch now awaited and the fetches that were aborted. *)
Definition fetchProductPage (st : t) (productPageUrl : string)
    : t * option nat * list Fetch.Pending :=
  if negb (Js.truthy productPageUrl) then (st, None, [])
  else
    let '(kept, aborted) := Fetch.abort (abortController st) (inflight st) in
    let c := next_fetch st in
    (with_fetches st (Some c)
       (kept ++ [Fetch.mkPending c productPageUrl false]) (S c) (clicks st),
     Some c, aborted).

Definition httpError (status : Z) : Fetch.Error :=
  Fetch.mkError "Error"
    ("Failed to fetch product page: HTTP error " +:+ pretty status).

(** The [catch] block of [fetchProductPage]. *)
Definition catchBlock (error : Fetch.Error) : Fetch.Result (option string) :=
  if Fetch.is_abort error then Fetch.Return None else Fetch.Throw error.

(** [fetchProductPage] from its [await] on: the [try] block, the [catch]
    block and the [finally] block, which forgets the controller the
    component holds at that moment. *)
Definition fetchProductPageSettled (st : t) (o : Fetch.Outcome)
    : t * Fetch.Result (option string) :=
  let result :=
    match o with
    | Fetch.Rejected e => catchBlock e
    | Fetch.Fulfilled response =>
        if negb (Fetch.ok response)
        then catchBlock (httpError (Fetch.status response))
        else
          match Fetch.body response with
          | Fetch.Text responseText => Fetch.Return (Some responseText)
          | Fetch.BodyError e => catchBlock e
          end
    end in
  (with_controller st None, result).

(** [handleClick] after [fetchProductPage] has given its result. *)
Definition handleClickResumed (st : t) (currentUrl : string)
    (r : Fetch.Result (option string)) : t :=
  match r with
  | Fetch.Throw e => reject st e
  | Fetch.Return html =>
      let '(st1, productGrid) :=
        match html ≫= productGridOf with
        | Some gridElement =>
            (with_content st (<[currentUrl := gridElement]> (cachedContent st))
               (modalContent st), Some gridElement)
        | None => (st, None)
        end in
      let st2 :=
        match productGrid with
        | Some g => updateQuickAddModal st1 g
        | None => st1
        end in
      openQuickAddModal st2
  end.

(** A fetch settles: [fetchProductPage] finishes and the click that was
    waiting for it continues. *)
Definition finish (st : t) (f : Fetch.Pending) (o : Fetch.Outcome) : t :=
  let '(st1, r) := fetchProductPageSettled st o in
  let waiting := filter (fun c => c.1 = Fetch.id f) (clicks st1) in
  let st2 :=
    with_fetches st1 (abortController st1) (inflight st1) (next_fetch st1)
      (filter (fun c => c.1 ≠ Fetch.id f) (clicks st1)) in
  foldl (fun s c => handleClickResumed s c.2 r) st2 waiting.

(** [handleClick] as one task: the part before the [await], then the
    continuations of the fetches it has aborted. *)
Definition handleClick (st : t) (currentUrl : string) : t :=
  match cachedContent st !! currentUrl with
  | Some productGrid =>
      openQuickAddModal (updateQuickAddModal st productGrid)
  | None =>
      let '(st1, awaited, aborted) := fetchProductPage st currentUrl in
      match awaited with
      | Some c =>
          let st2 :=
            with_fetches st1 (abortController st1) (inflight st1)
              (next_fetch st1) (clicks st1 ++ [(c, currentUrl)]) in
          foldl (fun s f => finish s f (Fetch.Rejected Fetch.AbortError))
            st2 aborted
      | None => handleClickResumed st1 currentUrl (Fetch.Return None)
      end
  end.

Definition connectedCallback (st : t) : t :=
  with_dialog st (dialog st) (stayVisible st) true.

(** [disconnectedCallback] aborts the fetch of the controller it holds. *)
Definition disconnectedCallback (st : t) : t :=
  let st1 := with_dialog st (dialog st) (stayVisible st) false in
  let '(kept, aborted) := Fetch.abort (abortController st1) (inflight st1) in
  let st2 :=
    with_fetches st1 (abortController st1) kept (next_fetch st1) (clicks st1) in
  foldl (fun s f => finish s f (Fetch.Rejected Fetch.AbortError)) st2 aborted.

Definition settled (st : t) (n : nat) (o : Fetch.Outcome) : t :=
  match list_find (fun f => Fetch.id f = n) (inflight st) with
  | Some (_, f) =>
      finish
        (with_fetches st (abortController st)
           (filter (fun f' => Fetch.id f' ≠ n) (inflight st)) (next_fetch st)
           (clicks st))
        f o
  | None => st
  end.

Inductive Event : Type :=
  | Connected
  | Disconnected
  | Click (currentUrl : string)
  | Settled (n : nat) (o : Fetch.Outcome)
  | MediaChange
  | DialogClosed.

Definition step (st : t) (e : Event) : t :=
  match e with
  | Connected => connectedCallback st
  | Disconnected => disconnectedCallback st
  | Click currentUrl => handleClick st currentUrl
  | Settled n o => settled st n o
  | MediaChange => if mediaListener st then closeQuickAddModal st else st
  | DialogClosed =>
      match dialog st with
      | Some _ => with_dialog st (Some false) false (mediaListener st)
      | None => st
      end
  end.

Definition run (st : t) (evs : list Event) : t := foldl step st evs.

(** A component just created, on a page with the modal and its dialog. *)
Definition init : t :=
  mk None ∅ [] 0 [] (Some EmptyString) (Some false) false false [].

Definition outstanding (st : t) : nat := length (inflight st).

(** An aborted fetch changes nothing and gives [null]. *)
Definition abort_changes_nothing (st : t) : Prop :=
  fetchProductPageSettled st (Fetch.Rejected Fetch.AbortError)
  = (st, Fetch.Return None).

(** The fetch in flight, if there is one, is the one whose controller the
    component holds. *)
Definition supervised (st : t) : Prop :=
  inflight st = [] \/
  exists f, inflight st = [f] /\ abortController st = Some (Fetch.id f).

End Methods.

#[export] Instance plain_dom : Dom := {|
  productGridOf := fun html => Some html;
  arranged := fun g => g
|}.

(** The component while the fetch of a first click is in flight. *)
Definition first_click : t := run init [Connected; Click "/products/a"].

(** The component when [disconnectedCallback] has just aborted the fetch
    of the first click, and that fetch has not yet resumed. *)
Definition aborted_on_disconnect : t :=
  let st1 :=
    with_dialog first_click (dialog first_click) (stayVisible first_click)
      false in
  with_fetches st1 (abortController st1)
    (Fetch.abort (abortController st1) (inflight st1)).1 (next_fetch st1)
    (clicks st1).

End QuickAdd.

(** ** The drag-zoom wrapper (src/unnamed/part_004) *)

#[local] Set Warnings "-inexact-float".

Module DragZoom.

Open Scope float_scope.

Definition MIN_ZOOM : float := 1.
Definition MAX_ZOOM : float := 5.
Definition DEFAULT_ZOOM : float := 1.5.
Definition DOUBLE_TAP_DELAY : float := 300.
Definition DOUBLE_TAP_DISTANCE : float := 50.
Definition DRAG_THRESHOLD : float := 10.

Record Point : Type := mkPoint { x : float; y : float }.

Definition origin : Point := mkPoint 0 0.

Record Touch : Type := mkTouch { clientX : float; clientY : float }.

Definition pointOf (t : Touch) : Point := mkPoint (clientX t) (clientY t).

(** What the wrapper reads from the page when a handler runs: its client
    box, its bounding rectangle, the natural size of its image when it has
    one, the breakpoint, and whether a zoom dialog with a [close] method
    encloses it. *)
Record Layout : Type := mkLayout {
  clientWidth : float;
  clientHeight : float;
  rectWidth : float;
  rectHeight : float;
  image : option (float * float);
  isMobileBreakpoint : bool;
  zoomDialog : bool
}.

(** The three custom properties the wrapper sets on its style. *)
Record Style : Type := mkStyle {
  zoomScale : float;
  translateX : float;
  translateY : float
}.

Record t : Type := mk {
  scale : float;
  initialDistance : float;
  startScale : float;
  translate : Point;
  startPosition : Point;
  startTranslate : Point;
  isDragging : bool;
  initialized : bool;
  (* whether an animation frame is requested *)
  animationFrame : bool;
  lastTapTime : float;
  lastTapPosition : option Point;
  hasDraggedBeyondThreshold : bool;
  hasManualZoom : bool;
  style : option Style;
  (* the abort signal of the listeners, the listeners themselves, the
     resize observer, and the override of the dialog's [close] *)
  aborted : bool;
  listening : bool;
  observing : bool;
  closeOverridden : bool
}.

(** [Math.min] and [Math.max]: [NaN] when an argument is, and the negative
    zero ranked below the positive one. *)
Definition Math_min (a b : float) : float :=
  if is_nan a || is_nan b then nan
  else if a <? b then a
  else if b <? a then b
  else if get_sign a then a else b.

Definition Math_max (a b : float) : float :=
  if is_nan a || is_nan b then nan
  else if a <? b then b
  else if b <? a then a
  else if get_sign a then b else a.

(** [!n] for a number: zero and [NaN] are falsy. *)
Definition falsy (n : float) : bool := (n =? 0) || is_nan n.

(** [getDistance]. *)
Definition getDistance (point1 point2 : Point) : float :=
  let dx := x point1 - x point2 in
  let dy := y point1 - y point2 in
  sqrt (dx * dx + dy * dy).

Section Methods.

(** [clamp] of the theme's utilities. *)
Variable clamp : float -> float -> float -> float.

Definition with_zoom (st : t) (s : float) (tr : Point) : t :=
  mk s (initialDistance st) (startScale st) tr (startPosition st)
     (startTranslate st) (isDragging st) (initialized st) (animationFrame st)
     (lastTapTime st) (lastTapPosition st) (hasDraggedBeyondThreshold st)
     (hasManualZoom st) (style st) (aborted st) (listening st) (observing st)
     (closeOverridden st).

Definition with_pinch (st : t) (d s : float) : t :=
  mk (scale st) d s (translate st) (startPosition st) (startTranslate st)
     (isDragging st) (initialized st) (animationFrame st) (lastTapTime st)
     (lastTapPosition st) (hasDraggedBeyondThreshold st) (hasManualZoom st)
     (style st) (aborted st) (listening st) (observing st)
     (closeOverridden st).

Definition with_drag (st : t) (p tr : Point) (dragging beyond : bool) : t :=
  mk (scale st) (initialDistance st) (startScale st) (translate st) p tr
     dragging (initialized st) (animationFrame st) (lastTapTime st)
     (lastTapPosition st) beyond (hasManualZoom st) (style st) (aborted st)
     (listening st) (observing st) (closeOverridden st).

Definition with_dragging (st : t) (dragging beyond : bool) : t :=
  with_drag st (startPosition st) (startTranslate st) dragging beyond.

Definition with_tap (st : t) (time : float) (p : option Point) : t :=
  mk (scale st) (initialDistance st) (startScale st) (translate st)
     (startPosition st) (startTranslate st) (isDragging st) (initialized st)
     (animationFrame st) time p (hasDraggedBeyondThreshold st)
     (hasManualZoom st) (style st) (aborted st) (listening st) (observing st)
     (closeOverridden st).

Definition with_manualZoom (st : t) (b : bool) : t :=
  mk (scale st) (initialDistance st) (startScale st) (translate st)
     (startPosition st) (startTranslate st) (isDragging st) (initialized st)
     (animationFrame st) (lastTapTime st) (lastTapPosition st)
     (hasDraggedBeyondThreshold st) b (style st) (aborted st) (listening st)
     (observing st) (closeOverridden st).

Definition with_frame (st : t) (requested : bool) : t :=
  mk (scale st) (initialDistance st) (startScale st) (translate st)
     (startPosition st) (startTranslate st) (isDragging st) (initialized st)
     requested (lastTapTime st) (lastTapPosition st)
     (hasDraggedBeyondThreshold st) (hasManualZoom st) (style st)
     (aborted st) (listening st) (observing st) (closeOverridden st).

Definition with_style (st : t) (s : Style) : t :=
  mk (scale st) (initialDistance st) (startScale st) (translate st)
     (startPosition st) (startTranslate st) (isDragging st) (initialized st)
     (animationFrame st) (lastTapTime st) (lastTapPosition st)
     (hasDraggedBeyondThreshold st) (hasManualZoom st) (Some s) (aborted st)
     (listening st) (observing st) (closeOverridden st).

Definition with_wiring (st : t) (init stop listen observe override : bool)
    : t :=
  mk (scale st) (initialDistance st) (startScale st) (translate st)
     (startPosition st) (startTranslate st) (isDragging st) init
     (animationFrame st) (lastTapTime st) (lastTapPosition st)
     (hasDraggedBeyondThreshold st) (hasManualZoom st) (style st) stop listen
     observe override.

(** Writing the current transform to the three custom properties. *)
Definition applyStyle (st : t) : t :=
  with_style st
    (mkStyle (scale st) (x (translate st)) (y (translate st))).

(** [#constrainTranslation]. *)
Definition constrainTranslation (st : t) (l : Layout) : t :=
  match image l with
  | None => st
  | Some (imageNaturalWidth, imageNaturalHeight) =>
      if falsy (clientWidth l) || falsy (clientHeight l) then st
      else
        let s := clamp (scale st) MIN_ZOOM MAX_ZOOM in
        if s <=? MIN_ZOOM then with_zoom st s (mkPoint 0 0)
        else
          let '(naturalWidth, naturalHeight) :=
            if (0 <? imageNaturalWidth) && (0 <? imageNaturalHeight)
            then (imageNaturalWidth, imageNaturalHeight)
            else (rectWidth l, rectWidth l) in
          let imageAspectRatio := naturalWidth / naturalHeight in
          let wrapperAspectRatio := rectWidth l / rectHeight l in
          let '(actualImageWidth, actualImageHeight) :=
            if wrapperAspectRatio <? imageAspectRatio
            then (rectWidth l, rectWidth l / imageAspectRatio)
            else (rectHeight l * imageAspectRatio, rectHeight l) in
          let scaledImageWidth := actualImageWidth * s in
          let scaledImageHeight := actualImageHeight * s in
          let horizontalOverflow :=
            Math_max 0 (scaledImageWidth - rectWidth l) in
          let verticalOverflow :=
            Math_max 0 (scaledImageHeight - rectHeight l) in
          let maxTranslateX := horizontalOverflow / 2 / s in
          let maxTranslateY := verticalOverflow / 2 / s in
          applyStyle
            (with_zoom st s
               (mkPoint
                  (clamp (x (translate st)) (- maxTranslateX) maxTranslateX)
                  (clamp (y (translate st)) (- maxTranslateY) maxTranslateY)))
  end.

(** [#updateTransform]. *)
Definition updateTransform (st : t) (l : Layout) : t :=
  applyStyle (constrainTranslation (with_frame st false) l).

(** [#requestUpdateTransform] and [#cancelAnimationFrame]. *)
Definition requestUpdateTransform (st : t) : t := with_frame st true.

Definition cancelAnimationFrame (st : t) : t := with_frame st false.

(** [#resetZoom]. *)
Definition resetZoom (st : t) : t :=
  let st1 :=
    with_pinch (with_zoom st DEFAULT_ZOOM (mkPoint 0 0))
      (initialDistance st) DEFAULT_ZOOM in
  let st2 := with_drag st1 (mkPoint 0 0) (mkPoint 0 0) false false in
  let st3 := with_tap st2 0 None in
  with_style st3 (mkStyle DEFAULT_ZOOM 0 0).

(** [#initEventListeners]: a listener given an aborted signal is not
    added. *)
Definition initEventListeners (st : t) (l : Layout) : t :=
  if initialized st then st
  else
    updateTransform
      (with_wiring st true (aborted st) (negb (aborted st)) (observing st)
         (closeOverridden st)) l.

(** [#setupDialogCloseListener]. *)
Definition setupDialogCloseListener (st : t) (l : Layout) : t :=
  if zoomDialog l
  then with_wiring st (initialized st) (aborted st) (listening st)
         (observing st) true
  else st.

Definition connectedCallback (st : t) (l : Layout) : t :=
  match image l with
  | None => st
  | Some _ =>
      let st1 :=
        with_wiring st (initialized st) (aborted st) (listening st) true
          (closeOverridden st) in
      let st2 := setupDialogCloseListener st1 l in
      if isMobileBreakpoint l
      then updateTransform (initEventListeners st2 l) l
      else st2
  end.

Definition disconnectedCallback (st : t) : t :=
  cancelAnimationFrame
    (with_wiring st (initialized st) true false false (closeOverridden st)).

Definition destroy (st : t) : t :=
  cancelAnimationFrame
    (with_wiring st (initialized st) true false (observing st)
       (closeOverridden st)).

(** [#handleResize]. *)
Definition handleResize (st : t) (l : Layout) : t :=
  let st1 :=
    if negb (initialized st) && isMobileBreakpoint l
    then initEventListeners st l else st in
  if initialized st1 then requestUpdateTransform st1 else st1.

Definition startZoomGestureFromTouches (st : t) (touch1 touch2 : Touch) : t :=
  with_dragging
    (with_pinch st (getDistance (pointOf touch1) (pointOf touch2)) (scale st))
    false (hasDraggedBeyondThreshold st).

Definition startDragGestureFromTouch (st : t) (touch : Touch) : t :=
  with_drag st (pointOf touch) (translate st) true false.

Definition storeTapInfo (st : t) (currentTime : float) (touch : Touch) : t :=
  with_tap st currentTime (Some (pointOf touch)).

(** [#handleDoubleTapFromTouch]. *)
Definition handleDoubleTapFromTouch (st : t) (touch : Touch) (l : Layout) : t :=
  let containerCenter := mkPoint (clientWidth l / 2) (clientHeight l / 2) in
  let '(targetZoom, st1) :=
    if hasManualZoom st
    then (MIN_ZOOM,
          with_zoom (with_manualZoom st false) (scale st) (mkPoint 0 0))
    else
      let tolerance := 0.05 in
      if abs (scale st - MIN_ZOOM) <? tolerance
      then (DEFAULT_ZOOM, st)
      else (MIN_ZOOM, st) in
  let st2 :=
    if negb (targetZoom =? MIN_ZOOM) then
      let oldScale := scale st1 in
      let s := Math_min MAX_ZOOM targetZoom in
      let distanceFromCenter :=
        mkPoint (clientX touch - x containerCenter)
                (clientY touch - y containerCenter) in
      let scaleDelta := s / oldScale - 1.0 in
      with_zoom st1 s
        (mkPoint
           (x (translate st1) - (x distanceFromCenter * scaleDelta) / s)
           (y (translate st1) - (y distanceFromCenter * scaleDelta) / s))
    else with_zoom st1 targetZoom (mkPoint 0 0) in
  requestUpdateTransform st2.

(** [#handleTouchStart], at the time [currentTime]. *)
Definition handleTouchStart (st : t) (touches : list Touch)
    (currentTime : float) (l : Layout) : t :=
  match touches with
  | [touch1; touch2] => startZoomGestureFromTouches st touch1 touch2
  | [touch] =>
      let timeSinceLastTap := currentTime - lastTapTime st in
      let fresh :=
        startDragGestureFromTouch (storeTapInfo st currentTime touch) touch in
      if DOUBLE_TAP_DELAY <=? timeSinceLastTap then fresh
      else
        match lastTapPosition st with
        | Some p =>
            let distance := getDistance (pointOf touch) p in
            if distance <? DOUBLE_TAP_DISTANCE
            then with_tap (handleDoubleTapFromTouch st touch l) 0 None
            else fresh
        | None => fresh
        end
  | _ => st
  end.

(** [#processZoomGesture]. *)
Definition processZoomGesture (st : t) (touch1 touch2 : Touch) (l : Layout)
    : t :=
  let midX := (clientX touch1 + clientX touch2) / 2 in
  let midY := (clientY touch1 + clientY touch2) / 2 in
  let currentDistance := getDistance (pointOf touch1) (pointOf touch2) in
  let oldScale := scale st in
  let newScale := (currentDistance / initialDistance st) * startScale st in
  let s := clamp newScale MIN_ZOOM MAX_ZOOM in
  let containerCenterX := clientWidth l / 2 in
  let containerCenterY := clientHeight l / 2 in
  let distanceFromCenterX := midX - containerCenterX in
  let distanceFromCenterY := midY - containerCenterY in
  let scaleDelta := s / oldScale - 1.0 in
  let st1 :=
    with_zoom (with_manualZoom st true) s
      (mkPoint (x (translate st) - (distanceFromCenterX * scaleDelta) / s)
               (y (translate st) - (distanceFromCenterY * scaleDelta) / s)) in
  with_dragging (requestUpdateTransform st1) false
    (hasDraggedBeyondThreshold st1).

(** [#processDragGesture]. *)
Definition processDragGesture (st : t) (touch : Touch) : t :=
  let distance := getDistance (pointOf touch) (startPosition st) in
  if negb (hasDraggedBeyondThreshold st) && (distance <? DRAG_THRESHOLD)
  then st
  else
    let dx := clientX touch - x (startPosition st) in
    let dy := clientY touch - y (startPosition st) in
    requestUpdateTransform
      (with_zoom (with_dragging st (isDragging st) true) (scale st)
         (mkPoint (x (startTranslate st) + dx / scale st)
                  (y (startTranslate st) + dy / scale st))).

(** [#handleTouchMove]. *)
Definition handleTouchMove (st : t) (touches : list Touch) (l : Layout) : t :=
  match touches with
  | [touch1; touch2] => processZoomGesture st touch1 touch2 l
  | [touch] => if isDragging st then processDragGesture st touch else st
  | _ => st
  end.

(** [#handleTouchEnd], with the number of touches that remain. *)
Definition handleTouchEnd (st : t) (remaining : nat) : t :=
  match remaining with
  | O => with_dragging (requestUpdateTransform (with_dragging st false
                          (hasDraggedBeyondThreshold st))) false false
  | S _ => st
  end.

(** The [close] of the zoom dialog once the wrapper has overridden it. *)
Definition dialogClose (st : t) : t :=
  if closeOverridden st then resetZoom st else st.

Inductive Event : Type :=
  | Connected (l : Layout)
  | Disconnected
  | Destroyed
  | Resized (l : Layout)
  | TouchStart (touches : list Touch) (currentTime : float) (l : Layout)
  | TouchMove (touches : list Touch) (l : Layout)
  | TouchEnd (remaining : nat)
  | Frame (l : Layout)
  | DialogClose.

Definition step (st : t) (e : Event) : t :=
  match e with
  | Connected l => connectedCallback st l
  | Disconnected => disconnectedCallback st
  | Destroyed => destroy st
  | Resized l => if observing st then handleResize st l else st
  | TouchStart touches currentTime l =>
      if listening st then handleTouchStart st touches currentTime l else st
  | TouchMove touches l =>
      if listening st then handleTouchMove st touches l else st
  | TouchEnd remaining =>
      if listening st then handleTouchEnd st remaining else st
  | Frame l => if animationFrame st then updateTransform st l else st
  | DialogClose => dialogClose st
  end.

Definition run (st : t) (evs : list Event) : t := foldl step st evs.

End Methods.

(** The wrapper as its field initialisers leave it. *)
Definition init : t :=
  mk DEFAULT_ZOOM 0 DEFAULT_ZOOM (mkPoint 0 0) (mkPoint 0 0) (mkPoint 0 0)
     false false false 0 None false false None false false false false.

(** The scale is a number between the two zoom bounds. *)
Definition zoom_in_range (s : float) : bool :=
  (MIN_ZOOM <=? s) && (s <=? MAX_ZOOM).

(** The wrapper is connected inside a zoom dialog whenever it is
    connected. *)
Definition enclosed (e : Event) : Prop :=
  match e with
  | Connected l => zoomDialog l = true
  | _ => True
  end.

(** The transform the wrapper is meant to show: a scale within the zoom
    bounds and, when the scale is the minimum zoom (within the bounds:
    when it is not above it), no translation. *)
Definition constrained (st : t) : Prop :=
  zoom_in_range (scale st) = true /\
  ((scale st <=? MIN_ZOOM) = true -> translate st = origin).

(** A scale that is a number lies within the zoom bounds. *)
Definition bounded (s : float) : Prop :=
  is_nan s = true \/ zoom_in_range s = true.

(** A wrapper nothing has happened to yet. *)
Definition pristine (st : t) : Prop :=
  scale st = DEFAULT_ZOOM /\ translate st = origin /\
  listening st = false /\ observing st = false /\ animationFrame st = false.

(** A clamp for the examples: on numbers it is
    [Math.min(Math.max(value, min), max)]. *)
Definition clamp_numbers (value lo hi : float) : float :=
  if (lo <=? value) && (value <=? hi) then value
  else if value <? lo then lo
  else if hi <? value then hi
  else nan.

(** A wrapper laid out inline (no client box) around a square image, on a
    phone and inside a zoom dialog. *)
Definition inline_layout : Layout :=
  mkLayout 0 0 300 300 (Some (600, 600)) true true.

(** The same wrapper laid out as a block of 300 by 300 pixels. *)
Definition block_layout : Layout :=
  mkLayout 300 300 300 300 (Some (600, 600)) true true.

(** Two fingers 200 pixels apart that close in to 100 pixels. *)
Definition pinch_in (l : Layout) : list Event :=
  [Connected l;
   TouchStart [mkTouch 100 0; mkTouch 300 0] 1000 l;
   TouchMove [mkTouch 150 0; mkTouch 250 0] l;
   Frame l].

End DragZoom.

(** ** Invariants of the components *)

Module Invariants.

(** The outstanding page fetches of a paginated list have distinct
    numbers, all below the number of the next fetch. *)
Definition ids_fresh (st : PaginatedList.t) : Prop :=
  NoDup (PaginatedList.req_id <$> PaginatedList.requests st) /\
  Forall (fun q => (PaginatedList.req_id q < PaginatedList.next_request st)%nat)
    (PaginatedList.requests st).

(** A method of the paginated list that issues and withdraws no fetch. *)
Definition quiet (st st' : PaginatedList.t) : Prop :=
  PaginatedList.requests st' = PaginatedList.requests st /\
  PaginatedList.next_request st' = PaginatedList.next_request st.

(** The card [#getPage] starts from: the first one for the previous page,
    the last one for the next page. *)
Definition edge_card (cs : list PaginatedList.Card)
    (d : PaginatedList.Direction) : option PaginatedList.Card :=
  match d with
  | PaginatedList.Previous => head cs
  | PaginatedList.Next => last cs
  end.

(** The page of that card is the first page, or the last page of the
    grid, so that the page beyond it does not exist. *)
Definition at_the_end {dom : PaginatedList.Dom} (r : PaginatedList.Refs)
    (d : PaginatedList.Direction) (n : Z) : Prop :=
  match d with
  | PaginatedList.Previous => (n <= 1)%Z
  | PaginatedList.Next =>
      exists l m, PaginatedList.gridLastPage r = Some l /\
        PaginatedList.Number (Some l) = Some m /\ (m <= n)%Z
  end.

(** Every fetch of the variant picker in flight is the one issued last. *)
Definition latest (st : VariantPicker.t) : Prop :=
  Forall (fun f => S (Fetch.id f) = VariantPicker.next_fetch st)
    (VariantPicker.inflight st).

(** The index of the input of a fieldset that is checked in the markup,
    [-1] when there is none. *)
Definition chosen {dom : VariantPicker.Dom} (d : VariantPicker.Document)
    (f : VariantPicker.Fieldset) : Z :=
  VariantPicker.initialCheckedIndex d (VariantPicker.inputs f).

(** The page [html] came as the body of a response with an ok status and
    holds the product grid [g]. *)
Definition answered {dom : QuickAdd.Dom} (evs : list QuickAdd.Event)
    (g : string) : Prop :=
  exists n r html,
    QuickAdd.Settled n (Fetch.Fulfilled r) ∈ evs /\
    Fetch.ok r = true /\ Fetch.body r = Fetch.Text html /\
    QuickAdd.productGridOf html = Some g.

(** The test of [#handleTouchStart] for a double tap: the touch comes
    less than [DOUBLE_TAP_DELAY] after the last tap and less than
    [DOUBLE_TAP_DISTANCE] from it. *)
Definition double_tap (st : DragZoom.t) (touch : DragZoom.Touch)
    (currentTime : float) : bool :=
  negb (DragZoom.DOUBLE_TAP_DELAY <=? currentTime - DragZoom.lastTapTime st)%float
  && match DragZoom.lastTapPosition st with
     | Some p =>
         (DragZoom.getDistance (DragZoom.pointOf touch) p
          <? DragZoom.DOUBLE_TAP_DISTANCE)%float
     | None => false
     end.

End Invariants.

(** ** Strings of the request URLs *)

Module JsString.

(** [s.includes(c)] for a one-character string [c]. *)
Fixpoint includes (c : ascii) (s : string) : bool :=
  match s with
  | String a r => if Ascii.eqb a c then true else includes c r
  | EmptyString => false
  end.

(** [s.split(c)[0]]: the part of [s] before the first [c]. *)
Fixpoint before (c : ascii) (s : string) : string :=
  match s with
  | String a r => if Ascii.eqb a c then EmptyString else String a (before c r)
  | EmptyString => EmptyString
  end.

(** [l.join(sep)] on an array of strings. *)
Fixpoint join (sep : string) (l : list string) : string :=
  match l with
  | [] => EmptyString
  | [x] => x
  | x :: rest => x +:+ sep +:+ join sep rest
  end.

(** [s.slice(n)]. *)
Fixpoint drop (n : nat) (s : string) : string :=
  match n, s with
  | S k, String _ r => drop k r
  | _, _ => s
  end.

(** [s.replace(pattern, replacement)] for a string pattern and a
    replacement without [$]: the first occurrence is replaced. *)
Fixpoint replace (pattern replacement s : string) : string :=
  if String.prefix pattern s
  then replacement +:+ drop (String.length pattern) s
  else
    match s with
    | String a r => String a (replace pattern replacement r)
    | EmptyString => EmptyString
    end.

End JsString.

(** ** variant-picker.js: the request URL *)

Module VariantRequests.

(** The data attributes of the selected option. *)
Record OptionData : Type := mkOptionData {
  connectedProductUrl : option string;
  optionValueId : option string;
  variantId : option string
}.

(** What [buildRequestUrl] reads of the picker element: its
    [data-product-url], the [data-option-value-id] of every element that
    matches [select option[selected], fieldset input:checked], in
    document order, and whether the picker lies in a quick-add component
    or a swatches picker. *)
Record Host : Type := mkHost {
  productUrl : option string;
  selectedIds : list (option string);
  inCard : bool
}.

Definition noOptionValueId : Fetch.Error :=
  Fetch.mkError "Error" "No option value ID found".

(** The getter [selectedOptionsValues]: the [map] callback throws at the
    first element without an option value id. *)
Fixpoint selectedOptionsValues (ids : list (option string))
    : Fetch.Result (list string) :=
  match ids with
  | [] => Fetch.Return []
  | o :: rest =>
      if Js.truthy_opt o then
        match selectedOptionsValues rest with
        | Fetch.Return l => Fetch.Return (Js.or_empty o :: l)
        | Fetch.Throw e => Fetch.Throw e
        end
      else Fetch.Throw noOptionValueId
  end.

(** [a || b || c] on possibly undefined strings. *)
Definition first_truthy (a b c : option string) : option string :=
  if Js.truthy_opt a then a else if Js.truthy_opt b then b else c.

Definition is_empty {A : Type} (l : list A) : bool :=
  match l with
  | [] => true
  | _ :: _ => false
  end.

(** [buildRequestUrl]: the product URL it stores in [#pendingRequestUrl],
    which it does before anything can throw, and the URL it returns. *)
Definition buildRequestUrl (pendingRequestUrl : option string) (h : Host)
    (selectedOption : OptionData) (source : option string)
    (sourceSelectedOptionsValues : list string)
    : option string * Fetch.Result string :=
  let productUrl :=
    first_truthy (connectedProductUrl selectedOption) pendingRequestUrl
      (productUrl h) in
  (productUrl,
   match selectedOptionsValues (selectedIds h) with
   | Fetch.Throw e => Fetch.Throw e
   | Fetch.Return values =>
       let params :=
         if negb (is_empty values) && negb (Js.truthy_opt source)
         then ["option_values=" +:+ JsString.join "," values]
         else if bool_decide (source = Some "product-card"%string)
         then
           if negb (is_empty values)
           then ["option_values=" +:+
                 JsString.join "," sourceSelectedOptionsValues]
           else ["option_values=" +:+
                 Js.template (optionValueId selectedOption)]
         else [] in
       if inCard h then
         let productUrl' :=
           match productUrl with
           | Some u =>
               if JsString.includes "?" u
               then Some (JsString.before "?" u) else Some u
           | None => None
           end in
         Fetch.Return
           (Js.template productUrl' +:+
            "?section_id=section-rendering-product-card&" +:+
            JsString.join "&" params)
       else
         Fetch.Return
           (Js.template productUrl +:+ "?" +:+ JsString.join "&" params)
   end).

(** The part of [variantChanged] from [buildRequestUrl] on: the product
    URL is remembered also when the getter throws, in which case no
    fetch starts. *)
Definition requestUpdate {dom : VariantPicker.Dom} (st : VariantPicker.t)
    (h : Host) (selectedOption : OptionData) (loadsNewProduct : bool)
    : VariantPicker.t * option Fetch.Error :=
  let '(productUrl, r) :=
    buildRequestUrl (VariantPicker.pendingRequestUrl st) h selectedOption
      None [] in
  let st1 := VariantPicker.with_pending st productUrl in
  match r with
  | Fetch.Return requestUrl =>
      (VariantPicker.fetchUpdatedSection st1 requestUrl loadsNewProduct, None)
  | Fetch.Throw e => (st1, Some e)
  end.

(** A picker inside a product card, one option selected. *)
Definition card_host : Host :=
  mkHost (Some "/products/shirt?variant=41"%string) [Some "101"%string] true.

Definition plain_option : OptionData :=
  mkOptionData None (Some "101"%string) (Some "41"%string).

End VariantRequests.

(** ** product-card.js *)

Module ProductCard.

(** The card with the quick-add component of its refs, the [href] of its
    link, the [disabled] state of its add-to-cart button when it has one,
    whether the prefetch listeners are added, the fetches it has asked
    the quick-add component for, and their rejections, which nothing
    handles. *)
Record t : Type := mk {
  quickAdd : option QuickAdd.t;
  productPageUrl : string;
  addToCartDisabled : option bool;
  prefetching : bool;
  prefetches : list nat;
  unhandled : list Fetch.Error
}.

Section Methods.

Context {dom : QuickAdd.Dom}.

Definition with_quickAdd (c : t) (q : option QuickAdd.t) (ps : list nat)
    (errors : list Fetch.Error) : t :=
  mk q (productPageUrl c) (addToCartDisabled c) (prefetching c) ps errors.

(** [this.refs.quickAdd?.fetchProductPage(this.productPageUrl)], as
    [#fetchProductPageHandler] and [#handleVariantUpdate] call it: the
    promise is dropped; the fetches the call aborts resume once the
    handler has returned. *)
Definition fetchProductPage (c : t) : t :=
  match quickAdd c with
  | Some q =>
      let '(q1, awaited, aborted) :=
        QuickAdd.fetchProductPage q (productPageUrl c) in
      let q2 :=
        foldl (fun s f => QuickAdd.finish s f (Fetch.Rejected Fetch.AbortError))
          q1 aborted in
      with_quickAdd c (Some q2)
        (filter (fun n => n ∉ (Fetch.id <$> aborted)) (prefetches c)
         ++ option_list awaited)
        (unhandled c)
  | None => c
  end.

Definition fetchProductPageHandler (c : t) : t := fetchProductPage c.

(** [#handleQuickAdd]: the listeners are removed, and added again on a
    desktop. *)
Definition handleQuickAdd (c : t) (isDesktopBreakpoint : bool) : t :=
  mk (quickAdd c) (productPageUrl c) (addToCartDisabled c) isDesktopBreakpoint
     (prefetches c) (unhandled c).

(** [#toggleAddToCartButton]. *)
Definition toggleAddToCartButton (c : t) (enable : bool) : t :=
  match addToCartDisabled c with
  | Some _ =>
      mk (quickAdd c) (productPageUrl c) (Some (negb enable)) (prefetching c)
         (prefetches c) (unhandled c)
  | None => c
  end.

(** [#isUnavailableVariantSelected], given [data-option-available] of
    the checked inputs of the new markup, in document order. *)
Definition isUnavailableVariantSelected (c : t)
    (allVariants : list (option string)) : t :=
  foldl
    (fun s optionAvailable =>
       toggleAddToCartButton s
         (bool_decide (optionAvailable = Some "true"%string)))
    c allVariants.

(** A fetch settles: the quick-add component finishes it; when the card
    had asked for it and [fetchProductPage] throws, the rejection stays
    unhandled. *)
Definition settled (c : t) (n : nat) (o : Fetch.Outcome) : t :=
  match quickAdd c with
  | Some q =>
      match list_find (fun f => Fetch.id f = n) (QuickAdd.inflight q) with
      | Some _ =>
          let q1 := QuickAdd.settled q n o in
          if bool_decide (n ∈ prefetches c) then
            with_quickAdd c (Some q1)
              (filter (fun k => k ≠ n) (prefetches c))
              (match (QuickAdd.fetchProductPageSettled q o).2 with
               | Fetch.Throw e => unhandled c ++ [e]
               | Fetch.Return _ => unhandled c
               end)
          else with_quickAdd c (Some q1) (prefetches c) (unhandled c)
      | None => c
      end
  | None => c
  end.

(** A click on the quick-add button of the card. *)
Definition clicked (c : t) (currentUrl : string) : t :=
  match quickAdd c with
  | Some q =>
      let q1 := QuickAdd.handleClick q currentUrl in
      with_quickAdd c (Some q1)
        (filter (fun n => n ∈ (Fetch.id <$> QuickAdd.inflight q1))
           (prefetches c))
        (unhandled c)
  | None => c
  end.

(** [#handleVariantUpdate], as far as the button, the link and the
    quick-add component go; [href] is what the link of the card gives
    once [#updateProductUrl] has run. *)
Definition handleVariantUpdate (c : t) (allVariants : list (option string))
    (href : string) : t :=
  let c1 := isUnavailableVariantSelected c allVariants in
  fetchProductPage
    (mk (quickAdd c1) href (addToCartDisabled c1) (prefetching c1)
        (prefetches c1) (unhandled c1)).

Inductive Event : Type :=
  | MediaChange (isDesktopBreakpoint : bool)
  | PointerEnter
  | FocusIn
  | VariantUpdate (allVariants : list (option string)) (href : string)
  | Click (currentUrl : string)
  | Settled (n : nat) (o : Fetch.Outcome).

Definition step (c : t) (e : Event) : t :=
  match e with
  | MediaChange isDesktopBreakpoint => handleQuickAdd c isDesktopBreakpoint
  | PointerEnter | FocusIn =>
      if prefetching c then fetchProductPageHandler c else c
  | VariantUpdate allVariants href => handleVariantUpdate c allVariants href
  | Click currentUrl => clicked c currentUrl
  | Settled n o => settled c n o
  end.

Definition run (c : t) (evs : list Event) : t := foldl step c evs.

(** The quick-add component of the card is idle: no fetch in flight, no
    click waiting. *)
Definition idle (c : t) : Prop :=
  exists q, quickAdd c = Some q /\ QuickAdd.inflight q = [] /\
            QuickAdd.clicks q = [].

End Methods.

(** A card on a desktop, with an enabled button and an idle quick-add
    component. *)
Definition shirt : t :=
  mk (Some QuickAdd.init) "/products/shirt" (Some false) true [] [].

End ProductCard.

(** ** quick-add.js: the dialog *)

Module QuickAddDialog.

Open Scope Z_scope.

(** What [getIOSVersion] gives on an iOS device. *)
Record IOSVersion : Type := mkVersion { major : Js.num; minor : Js.num }.

(** [a >= b] and [a === b] on numbers; both false on [NaN]. *)
Definition ge (a : Js.num) (b : Z) : bool :=
  match a with
  | Some x => b <=? x
  | None => false
  end.

Definition strictly_equal (a : Js.num) (b : Z) : bool :=
  match a with
  | Some x => x =? b
  | None => false
  end.

(** The [width] of the inline style of the results grid: as the markup
    left it, the measured width less one pixel, or empty. *)
Inductive InlineWidth : Type := AsRendered | OnePixelLess | Cleared.

Inductive Task : Type := Narrow | Restore.

(** The dialog's view of the page: the inline width of the grid when
    there is one, and the animation frame callbacks requested, oldest
    first. *)
Record t : Type := mk {
  grid : option InlineWidth;
  frames : list Task
}.

(** The guard of [#handleDialogClose]: the patch is skipped off iOS and
    from iOS 16.4 on. *)
Definition skipsPatch (iosVersion : option IOSVersion) : bool :=
  match iosVersion with
  | None => true
  | Some v =>
      ge (major v) 17 || (strictly_equal (major v) 16 && ge (minor v) 4)
  end.

(** [#handleDialogClose]. *)
Definition handleDialogClose (st : t) (iosVersion : option IOSVersion) : t :=
  if skipsPatch iosVersion then st
  else mk (grid st) (frames st ++ [Narrow]).

(** The next animation frame. *)
Definition frame (st : t) : t :=
  match frames st with
  | [] => st
  | Narrow :: rest =>
      match grid st with
      | Some _ => mk (Some OnePixelLess) (rest ++ [Restore])
      | None => mk None rest
      end
  | Restore :: rest =>
      mk (match grid st with
          | Some _ => Some Cleared
          | None => None
          end) rest
  end.

(** [handleCartUpdate]: the dialog closes unless the update failed. *)
Definition handleCartUpdate (isOpen : bool) (didError : bool) : bool :=
  if didError then isOpen else false.

(** An iOS version that is neither 17 or later nor 16.4 or later, as the
    guard of [#handleDialogClose] compares it: a part that is not a
    number compares false. *)
Definition before_16_4 (v : IOSVersion) : Prop :=
  match major v with
  | Some M =>
      (M < 16)%Z \/
      (M = 16%Z /\
       match minor v with
       | Some m => (m < 4)%Z
       | None => True
       end)
  | None => True
  end.

End QuickAddDialog.

(** ** The character counter of product-custom-property.js and of the
    gift card form (src/unnamed/part_000, src/unnamed/part_002) *)

Module CharacterCount.

(** [#updateCharacterCount]: the text of the counter for a field holding
    [value], with the [maxLength] of the field (-1 when it has none);
    without a template the text stays.  The length is [value.length],
    in UTF-16 code units. *)
Definition updateCharacterCount (template : option string) (value : string)
    (maxLength : Z) (textContent : string) : string :=
  match template with
  | Some t =>
      if Js.truthy t then
        JsString.replace "[max]" (pretty maxLength)
          (JsString.replace "[current]" (pretty (Js.length value)) t)
      else textContent
  | None => textContent
  end.

(** A string without an opening bracket. *)
Definition plain (s : string) : Prop := JsString.includes "[" s = false.

End CharacterCount.

(** ** The gift card recipient form (src/unnamed/part_002) *)

Module GiftCard.

(** [DeliveryMode]: ['self'] and ['recipient_form']. *)
Inductive Mode : Type := Self | Recipient.

#[export] Instance Mode_eq_dec : EqDecision Mode.
Proof. solve_decision. Defined.

Definition modeOf (mode : string) : option Mode :=
  if String.eqb mode "self" then Some Self
  else if String.eqb mode "recipient_form" then Some Recipient
  else None.

(** The four recipient fields, in the order of [#inputFields]. *)
Inductive FieldName : Type := Email | Name | Message | SendOn.

#[export] Instance FieldName_eq_dec : EqDecision FieldName.
Proof. solve_decision. Defined.

Record Field : Type := mkField {
  value : string;
  disabled : bool;
  required : bool;
  ariaInvalid : option string;
  ariaDescribedby : option string
}.

(** An error container: whether it carries the class [hidden], and the
    text of its span when it has one. *)
Record ErrorBox : Type := mkErrorBox {
  hidden : bool;
  text : option string
}.

Record Counter : Type := mkCounter {
  template : option string;
  textContent : string
}.

Record t : Type := mk {
  currentMode : Mode;
  myEmailButton : bool;
  recipientEmailButton : bool;
  recipientFieldsHidden : bool;
  fields : FieldName -> Field;
  (* inputs named properties[__shopify_send_gift_card_to_recipient] *)
  controlFlags : nat;
  (* the optional timezone input: disabled, value *)
  timezoneOffset : option (bool * string);
  errorBoxes : FieldName -> option ErrorBox;
  characterCount : option Counter;
  maxLength : Z;
  liveRegion : option string;
  sendOnMin : option string;
  sendOnMax : option string;
  sectionId : option string;
  (* the three bound handlers *)
  listening : bool;
  (* the recipient:toggle events dispatched *)
  dispatched : list (Mode * bool)
}.

(** The clock and the translations of the theme. *)
Class Dom : Type := {
  (* today and the day 90 days ahead, as YYYY-MM-DD *)
  today : string;
  in90days : string;
  (* [new Date().getTimezoneOffset().toString()] *)
  timezone : string;
  fieldsVisible : string;
  fieldsHidden : string;
  formError : string
}.

(** The messages of one field in the errors of a cart error. *)
Inductive Messages : Type :=
  | Many (l : list string)
  | One (s : string).

(** [errors] and [description] of a cart error: an object keyed by field,
    or a string. *)
Inductive Detail : Type :=
  | Object (entries : list (string * Messages))
  | Plain (s : string).

Record ErrorData : Type := mkErrorData {
  message : option string;
  errors : option Detail;
  description : option Detail
}.

Section Methods.

Context {dom : Dom}.

Definition with_fields (st : t) (fs : FieldName -> Field) : t :=
  mk (currentMode st) (myEmailButton st) (recipientEmailButton st)
     (recipientFieldsHidden st) fs (controlFlags st) (timezoneOffset st)
     (errorBoxes st) (characterCount st) (maxLength st) (liveRegion st)
     (sendOnMin st) (sendOnMax st) (sectionId st) (listening st)
     (dispatched st).

Definition with_form (st : t) (m : Mode) (mine theirs hide : bool) : t :=
  mk m mine theirs hide (fields st) (controlFlags st) (timezoneOffset st)
     (errorBoxes st) (characterCount st) (maxLength st) (liveRegion st)
     (sendOnMin st) (sendOnMax st) (sectionId st) (listening st)
     (dispatched st).

Definition with_control (st : t) (flags : nat) (tz : option (bool * string))
    : t :=
  mk (currentMode st) (myEmailButton st) (recipientEmailButton st)
     (recipientFieldsHidden st) (fields st) flags tz (errorBoxes st)
     (characterCount st) (maxLength st) (liveRegion st) (sendOnMin st)
     (sendOnMax st) (sectionId st) (listening st) (dispatched st).

Definition with_errors (st : t) (bs : FieldName -> option ErrorBox)
    (region : option string) : t :=
  mk (currentMode st) (myEmailButton st) (recipientEmailButton st)
     (recipientFieldsHidden st) (fields st) (controlFlags st)
     (timezoneOffset st) bs (characterCount st) (maxLength st) region
     (sendOnMin st) (sendOnMax st) (sectionId st) (listening st)
     (dispatched st).

Definition with_counter (st : t) (c : option Counter) : t :=
  mk (currentMode st) (myEmailButton st) (recipientEmailButton st)
     (recipientFieldsHidden st) (fields st) (controlFlags st)
     (timezoneOffset st) (errorBoxes st) c (maxLength st) (liveRegion st)
     (sendOnMin st) (sendOnMax st) (sectionId st) (listening st)
     (dispatched st).

Definition with_dates (st : t) (lo hi : option string) : t :=
  mk (currentMode st) (myEmailButton st) (recipientEmailButton st)
     (recipientFieldsHidden st) (fields st) (controlFlags st)
     (timezoneOffset st) (errorBoxes st) (characterCount st) (maxLength st)
     (liveRegion st) lo hi (sectionId st) (listening st) (dispatched st).

Definition with_listening (st : t) (b : bool) : t :=
  mk (currentMode st) (myEmailButton st) (recipientEmailButton st)
     (recipientFieldsHidden st) (fields st) (controlFlags st)
     (timezoneOffset st) (errorBoxes st) (characterCount st) (maxLength st)
     (liveRegion st) (sendOnMin st) (sendOnMax st) (sectionId st) b
     (dispatched st).

Definition dispatch (st : t) (e : Mode * bool) : t :=
  mk (currentMode st) (myEmailButton st) (recipientEmailButton st)
     (recipientFieldsHidden st) (fields st) (controlFlags st)
     (timezoneOffset st) (errorBoxes st) (characterCount st) (maxLength st)
     (liveRegion st) (sendOnMin st) (sendOnMax st) (sectionId st)
     (listening st) (dispatched st ++ [e]).

(** Writing one field. *)
Definition update_field (fs : FieldName -> Field) (n : FieldName)
    (f : Field -> Field) : FieldName -> Field :=
  fun k => if decide (k = n) then f (fs k) else fs k.

Definition announce (st : t) (s : string) : t :=
  match liveRegion st with
  | Some _ => with_errors st (errorBoxes st) (Some s)
  | None => st
  end.

(** [#updateCharacterCount]. *)
Definition updateCharacterCount (st : t) : t :=
  match characterCount st with
  | Some c =>
      with_counter st
        (Some (mkCounter (template c)
                 (CharacterCount.updateCharacterCount (template c)
                    (value (fields st Message)) (maxLength st)
                    (textContent c))))
  | None => st
  end.

(** [#clearErrorMessages]. *)
Definition clearErrorMessages (st : t) : t :=
  let boxes :=
    fun n =>
      match errorBoxes st n with
      | Some b =>
          Some (mkErrorBox true
                  (match text b with
                   | Some _ => Some EmptyString
                   | None => None
                   end))
      | None => None
      end in
  let st1 :=
    with_fields st
      (fun n =>
         mkField (value (fields st n)) (disabled (fields st n))
                 (required (fields st n)) None None) in
  announce (with_errors st1 boxes (liveRegion st1)) EmptyString.

(** [#clearRecipientFields]. *)
Definition clearRecipientFields (st : t) : t :=
  let st1 :=
    with_fields st
      (fun n =>
         mkField EmptyString (disabled (fields st n)) (required (fields st n))
                 (ariaInvalid (fields st n)) (ariaDescribedby (fields st n)))
  in
  clearErrorMessages (updateCharacterCount st1).

(** [#disableRecipientFields]: the first control input found is removed. *)
Definition disableRecipientFields (st : t) : t :=
  let st1 :=
    with_fields st
      (fun n => mkField (value (fields st n)) true false None None) in
  let st2 :=
    with_control st1 (Nat.pred (controlFlags st1))
      (match timezoneOffset st1 with
       | Some _ => Some (true, EmptyString)
       | None => None
       end) in
  clearErrorMessages st2.

(** [#setDateConstraints]. *)
Definition setDateConstraints (st : t) : t :=
  with_dates st (Some today) (Some in90days).

(** [#enableRecipientFields]: a control input is added unless there is
    one. *)
Definition enableRecipientFields (st : t) : t :=
  let st1 :=
    with_fields st
      (fun n =>
         mkField (value (fields st n)) false
                 (if decide (n = Email) then true else required (fields st n))
                 (ariaInvalid (fields st n)) (ariaDescribedby (fields st n)))
  in
  let st2 :=
    with_control st1
      (match controlFlags st1 with O => 1 | S k => S k end)
      (match timezoneOffset st1 with
       | Some _ => Some (false, timezone)
       | None => None
       end) in
  setDateConstraints st2.

(** [#updateButtonStates] for one of the two modes. *)
Definition updateButtonStates (st : t) (mode : Mode) : t :=
  match mode with
  | Self =>
      with_form st (currentMode st) true false (recipientFieldsHidden st)
  | Recipient =>
      with_form st (currentMode st) false true (recipientFieldsHidden st)
  end.

(** [#updateFormState]. *)
Definition updateFormState (st : t) : t :=
  let isRecipientMode := bool_decide (currentMode st = Recipient) in
  let st1 := updateButtonStates st (currentMode st) in
  let st2 :=
    with_form st1 (currentMode st1) (myEmailButton st1)
      (recipientEmailButton st1) (negb isRecipientMode) in
  let st3 :=
    if isRecipientMode
    then announce (updateCharacterCount (enableRecipientFields st2))
           fieldsVisible
    else announce (disableRecipientFields (clearRecipientFields st2))
           fieldsHidden in
  dispatch st3 (currentMode st3, isRecipientMode).

Definition invalidMode (mode : string) : Fetch.Error :=
  Fetch.mkError "Error"
    ("Invalid delivery mode: " +:+ mode +:+
     ". Must be one of: self, recipient_form").

(** [toggleRecipientForm]. *)
Definition toggleRecipientForm (st : t) (mode : string) : Fetch.Result t :=
  match modeOf mode with
  | None => Fetch.Throw (invalidMode mode)
  | Some m =>
      if bool_decide (currentMode st = m) then Fetch.Return st
      else
        Fetch.Return
          (updateFormState
             (with_form st m (myEmailButton st) (recipientEmailButton st)
                (recipientFieldsHidden st)))
  end.

(** [#initializeForm]: the mode field itself is not written. *)
Definition initializeForm (st : t) : t :=
  let st1 := updateButtonStates st Self in
  let st2 :=
    with_form st1 (currentMode st1) (myEmailButton st1)
      (recipientEmailButton st1) true in
  setDateConstraints (disableRecipientFields (clearRecipientFields st2)).

Definition connectedCallback (st : t) : t :=
  with_listening (initializeForm st) true.

Definition disconnectedCallback (st : t) : t := with_listening st false.

(** The entry of [fieldMap] for a key of the errors. *)
Definition fieldOf (key : string) : option FieldName :=
  if String.eqb key "email" then Some Email
  else if String.eqb key "name" then Some Name
  else if String.eqb key "message" then Some Message
  else if String.eqb key "send_on" then Some SendOn
  else None.

Definition textOf (errorMessages : Messages) : string :=
  match errorMessages with
  | Many l => JsString.join ", " l
  | One s => s
  end.

(** One round of the loop of [#displayErrorMessage]. *)
Definition displayFieldError (st : t) (entry : string * Messages) : t :=
  match fieldOf entry.1 with
  | None => st
  | Some n =>
      let boxes :=
        fun k =>
          if decide (k = n) then
            match errorBoxes st k with
            | Some b =>
                Some (mkErrorBox false
                        (match text b with
                         | Some _ => Some (textOf entry.2 +:+ ".")
                         | None => None
                         end))
            | None => None
            end
          else errorBoxes st k in
      let errorId :=
        "RecipientForm-" +:+ entry.1 +:+ "-error-" +:+
        (if Js.truthy_opt (sectionId st)
         then Js.or_empty (sectionId st) else "default") in
      with_fields (with_errors st boxes (liveRegion st))
        (update_field (fields st) n
           (fun f => mkField (value f) (disabled f) (required f)
                       (Some "true"%string) (Some errorId)))
  end.

(** [#displayErrorMessage]. *)
Definition displayErrorMessage (st : t) (title : string)
    (body : option Detail) : t :=
  let st1 := clearErrorMessages st in
  let st2 :=
    match body with
    | Some (Object entries) => foldl displayFieldError st1 entries
    | _ => st1
    end in
  announce st2 (if Js.truthy title then title else formError).

(** [#displayCartError], given [event.detail.data] when it is there. *)
Definition displayCartError (st : t) (data : option ErrorData) : t :=
  match data with
  | Some d =>
      match errors d with
      | Some (Object entries) =>
          displayErrorMessage st
            (if Js.truthy_opt (message d) then Js.or_empty (message d)
             else "There was an error")
            (Some (Object entries))
      | _ =>
          if Js.truthy_opt (message d)
          then displayErrorMessage st (Js.or_empty (message d))
                 (description d)
          else st
      end
  | None => st
  end.

Definition handleCartAdd (st : t) : t := clearErrorMessages st.

(** The user types into a field that is not disabled. *)
Definition typed (st : t) (n : FieldName) (v : string) : t :=
  if disabled (fields st n) then st
  else
    let st1 :=
      with_fields st
        (update_field (fields st) n
           (fun f => mkField v (disabled f) (required f) (ariaInvalid f)
                       (ariaDescribedby f))) in
    if listening st1 && bool_decide (n = Message)
    then updateCharacterCount st1 else st1.

Inductive Event : Type :=
  | Connected
  | Disconnected
  | Toggle (mode : string)
  | Typed (n : FieldName) (v : string)
  | CartError (data : option ErrorData)
  | CartUpdate.

Definition step (st : t) (e : Event) : t :=
  match e with
  | Connected => connectedCallback st
  | Disconnected => disconnectedCallback st
  | Toggle mode =>
      match toggleRecipientForm st mode with
      | Fetch.Return st' => st'
      | Fetch.Throw _ => st
      end
  | Typed n v => typed st n v
  | CartError data => if listening st then displayCartError st data else st
  | CartUpdate => if listening st then handleCartAdd st else st
  end.

Definition run (st : t) (evs : list Event) : t := foldl step st evs.

(** The form agrees with its mode: sending to oneself, the fields are
    hidden, empty, disabled and not required and no control input is
    there; sending to a recipient, the fields are shown and enabled, the
    e-mail is required and there is one control input. *)
Definition in_step (st : t) : Prop :=
  match currentMode st with
  | Self =>
      myEmailButton st = true /\ recipientEmailButton st = false /\
      recipientFieldsHidden st = true /\ controlFlags st = 0 /\
      forall n, value (fields st n) = EmptyString /\
                disabled (fields st n) = true /\
                required (fields st n) = false
  | Recipient =>
      myEmailButton st = false /\ recipientEmailButton st = true /\
      recipientFieldsHidden st = false /\ controlFlags st = 1 /\
      required (fields st Email) = true /\
      forall n, disabled (fields st n) = false
  end.

(** A method that leaves the mode, the buttons, the visibility of the
    fields, the control inputs and, of every field, the value and the
    disabled and required flags as they are. *)
Definition keeps_form (st st' : t) : Prop :=
  currentMode st' = currentMode st /\
  myEmailButton st' = myEmailButton st /\
  recipientEmailButton st' = recipientEmailButton st /\
  recipientFieldsHidden st' = recipientFieldsHidden st /\
  controlFlags st' = controlFlags st /\
  forall n, value (fields st' n) = value (fields st n) /\
            disabled (fields st' n) = disabled (fields st n) /\
            required (fields st' n) = required (fields st n).

(** The element stays in the document. *)
Definition stays (e : Event) : Prop :=
  match e with
  | Connected | Disconnected => False
  | _ => True
  end.

End Methods.

#[export] Instance plain_dom : Dom := {|
  today := "2025-01-10";
  in90days := "2025-04-10";
  timezone := "-60";
  fieldsVisible := "Recipient form fields are now visible";
  fieldsHidden := "Recipient form fields are now hidden";
  formError := "There was an error with the form submission"
|}.

(** The form as the markup has it: every field enabled and empty, the
    error containers hidden. *)
Definition markup : t :=
  mk Self false false false
     (fun _ => mkField EmptyString false false None None) 0
     (Some (false, EmptyString))
     (fun _ => Some (mkErrorBox true (Some EmptyString)))
     (Some (mkCounter (Some "[current]/[max]"%string) EmptyString)) 200
     (Some EmptyString) None None (Some "main"%string) false [].

End GiftCard.

(** ** The saved states of the theme editor (src/unnamed/part_000) *)

Module EditorState.

(** [sessionStorage]. *)
Abbreviation Storage := (gmap string string).

Definition EDITOR_PREFIX : string := "editor-save-state".

Definition unloadingKey : string := "editor-page-unloading".

(** What a feature saves. *)
Record Saved : Type := mkSaved {
  isOpen : bool;
  instanceId : option string
}.

(** A feature of the table, with what the page has of it: whether its
    selector finds an element. *)
Record Feature : Type := mkFeature {
  name : string;
  present : bool
}.

(** [JSON.stringify] on a saved state and [JSON.parse] on a stored
    string: [None] when it throws, [Some None] for a value without the
    two properties. *)
Class Json : Type := {
  stringify : Saved -> string;
  parse : string -> option (option Saved)
}.

Section Script.

Context {json : Json}.

(** The [beforeunload] listener. *)
Definition beforeunload (s : Storage) : Storage :=
  <[unloadingKey := "true"%string]> s.

(** [wasPageUnloading]. *)
Definition wasPageUnloading (s : Storage) : Storage * bool :=
  let unloading := bool_decide (s !! unloadingKey = Some "true"%string) in
  (if unloading then delete unloadingKey s else s, unloading).

(** [clearAllEditorStates]. *)
Definition clearAllEditorStates (s : Storage) : Storage :=
  filter (fun kv => String.prefix EDITOR_PREFIX kv.1 = false) s.

Definition keyOf (name : string) : string :=
  EDITOR_PREFIX +:+ "-" +:+ name.

(** [getEditorState]: [None] when [JSON.parse] throws. *)
Definition getEditorState (s : Storage) (name : string)
    : option (option Saved) :=
  match s !! keyOf name with
  | Some state => if Js.truthy state then parse state else Some None
  | None => Some None
  end.

(** [saveEditorState]. *)
Definition saveEditorState (s : Storage) (name : string) (open : bool)
    (id : option string) : Storage :=
  <[keyOf name := stringify (mkSaved open id)]> s.

(** The loop of the page load over the features: the features it asks
    to be opened, with their instance ids, and whether it came to its
    end; a stored state that does not parse ends the script there. *)
Fixpoint restore (s : Storage) (features : list Feature)
    : list (string * option string) * bool :=
  match features with
  | [] => ([], true)
  | f :: rest =>
      if present f then
        match getEditorState s (name f) with
        | None => ([], false)
        | Some state =>
            let '(opened, completed) := restore s rest in
            (if default false (isOpen <$> state)
             then (name f, state ≫= instanceId) :: opened
             else opened,
             completed)
        end
      else restore s rest
  end.

(** The script on page load: after a navigation the saved states are
    cleared, otherwise the open features are opened again. *)
Definition pageLoad (s : Storage) (features : list Feature)
    : Storage * (list (string * option string) * bool) :=
  let '(s1, unloading) := wasPageUnloading s in
  if unloading then (clearAllEditorStates s1, ([], true))
  else (s1, restore s1 features).

(** A feature the loop gets past: it is not on the page, or its stored
    state parses. *)
Definition readable (s : Storage) (f : Feature) : Prop :=
  present f = true -> is_Some (getEditorState s (name f)).

(** [update], for an element that matches the feature [name] first. *)
Definition update (s : Storage) (name : string) (open : bool)
    (id : option string) : Storage :=
  saveEditorState s name open id.

End Script.

(** A coding of the saved states for the examples. *)
#[export] Instance flat_json : Json := {|
  stringify := fun v =>
    (if isOpen v then "1" else "0") +:+
    match instanceId v with
    | Some i => ":" +:+ i
    | None => EmptyString
    end;
  parse := fun s =>
    match s with
    | String c r =>
        let open := Ascii.eqb c "1" in
        match r with
        | EmptyString => Some (Some (mkSaved open None))
        | String _ i => Some (Some (mkSaved open (Some i)))
        end
    | EmptyString => None
    end
|}.

End EditorState.

(** ** anchored-popover.js: the hover timers *)

Module AnchoredPopover.

Inductive Action : Type := ShowIfHovered | Hide.

(** The trigger's [data-hover-active], whether the popover is open, the
    timer the component remembers, and the timers that have not fired,
    with the number of the next one (timer numbers start at 1). *)
Record t : Type := mk {
  hoverActive : bool;
  popoverOpen : bool;
  popoverTrigger : option nat;
  timers : list (nat * Action);
  next_timer : nat
}.

(** [setTimeout] and [clearTimeout]. *)
Definition setTimeout (st : t) (a : Action) : t :=
  mk (hoverActive st) (popoverOpen st) (Some (next_timer st))
     (timers st ++ [(next_timer st, a)]) (S (next_timer st)).

Definition clearTimeout (st : t) : t :=
  match popoverTrigger st with
  | Some n =>
      mk (hoverActive st) (popoverOpen st) (popoverTrigger st)
         (filter (fun p => p.1 ≠ n) (timers st)) (next_timer st)
  | None => st
  end.

Definition with_hover (st : t) (b : bool) : t :=
  mk b (popoverOpen st) (popoverTrigger st) (timers st) (next_timer st).

Definition with_open (st : t) (b : bool) : t :=
  mk (hoverActive st) b (popoverTrigger st) (timers st) (next_timer st).

(** [#onTriggerEnter]. *)
Definition onTriggerEnter (st : t) : t :=
  let st1 := with_hover st true in
  if popoverOpen st1 then st1 else setTimeout st1 ShowIfHovered.

(** [#onTriggerLeave]. *)
Definition onTriggerLeave (st : t) : t :=
  let st1 := clearTimeout (with_hover st false) in
  if popoverOpen st1 then setTimeout st1 Hide else st1.

(** [#onPopoverEnter] and [#onPopoverLeave]. *)
Definition onPopoverEnter (st : t) : t := clearTimeout st.

Definition onPopoverLeave (st : t) : t := setTimeout st Hide.

(** The timer numbered [n] fires, if it has not been cleared. *)
Definition fire (st : t) (n : nat) : t :=
  match list_find (fun p => p.1 = n) (timers st) with
  | Some (_, (_, a)) =>
      let st1 :=
        mk (hoverActive st) (popoverOpen st) (popoverTrigger st)
           (filter (fun p => p.1 ≠ n) (timers st)) (next_timer st) in
      match a with
      | ShowIfHovered => if hoverActive st1 then with_open st1 true else st1
      | Hide => with_open st1 false
      end
  | None => st
  end.

(** The pointer events of the component, a timer that fires, and the
    popover opened or closed by the browser (a click on the trigger, a
    light dismiss). *)
Inductive Event : Type :=
  | TriggerEnter
  | TriggerLeave
  | PopoverEnter
  | PopoverLeave
  | Fire (n : nat)
  | Toggled (open : bool).

Definition step (st : t) (e : Event) : t :=
  match e with
  | TriggerEnter => onTriggerEnter st
  | TriggerLeave => onTriggerLeave st
  | PopoverEnter => onPopoverEnter st
  | PopoverLeave => onPopoverLeave st
  | Fire n => fire st n
  | Toggled open => with_open st open
  end.

Definition run (st : t) (evs : list Event) : t := foldl step st evs.

(** A component with a closed popover and no timer. *)
Definition init : t := mk false false None [] 1.

End AnchoredPopover.

(** * The embedding on concrete inputs *)

Module Examples.

#[local] Existing Instance VariantPicker.plain_dom.
#[local] Existing Instance QuickAdd.plain_dom.

Example parseInt_samples :
  Js.parseInt "42" = Some 42%Z /\ Js.parseInt "  -7px" = Some (-7)%Z /\
  Js.parseInt "0x1f" = Some 31%Z /\ Js.parseInt "abc" = None /\
  Js.parseInt EmptyString = None /\ Js.parseInt "1e3" = Some 1%Z.
Proof. repeat split; reflexivity. Qed.

(** Above 2^53 [parseInt] gives the nearest double; a no-break space is
    white space; a letter with an accent is one code unit and a character
    outside the basic plane is two. *)
Example parseInt_rounds :
  Js.parseInt "9007199254740993" = Some 9007199254740992%Z /\
  Js.parseInt "9007199254740995" = Some 9007199254740996%Z /\
  Js.parseInt (String (ascii_of_nat 194) (String (ascii_of_nat 160) "5"))
  = Some 5%Z /\
  Js.length "née" = 3%nat /\ Js.length "𝄞" = 2%nat.
Proof. vm_compute. repeat split. Qed.

Example toggle_opens :
  Disclosure.toggleDisclosure Disclosure.collapsed_not_inert
  = Disclosure.mk (Some "true"%string) (Some "Close"%string)
      (Some "Open"%string) (Some "Close"%string) false.
Proof. reflexivity. Qed.

Example set_quantity_clamps :
  Quantity.setQuantity Quantity.plain Quantity.no_step Quantity.no_step
    Quantity.Number_int (Quantity.InputElement "12")
    (Quantity.mkInput "3" "1" "10" (Some "2"%string))
  = Quantity.Done (Quantity.mkInput "10" "1" "10" (Some "2"%string))
      [Quantity.mkEvent (Some 10%Z) (Some 2%Z)].
Proof. reflexivity. Qed.

Example connecting_fetches_both_neighbours :
  PaginatedList.requests PaginatedList.connected_on_page_2
  = [PaginatedList.mkRequest 0 (Some 3%Z) "/collections/all?page=n"
       PaginatedList.Next;
     PaginatedList.mkRequest 1 (Some 1%Z) "/collections/all?page=n"
       PaginatedList.Previous].
Proof. vm_compute. reflexivity. Qed.

Example checking_twice_keeps_two :
  VariantPicker.checkedIndices
    (VariantPicker.run (VariantPicker.init VariantPicker.sizes)
       [VariantPicker.Connected;
        VariantPicker.Selected (VariantPicker.Input 2);
        VariantPicker.Selected (VariantPicker.Input 1)])
  = [[1; 2]%Z].
Proof. vm_compute. reflexivity. Qed.

Example aborted_click_opens_dialog :
  let st :=
    QuickAdd.run QuickAdd.init
      [QuickAdd.Connected; QuickAdd.Click "/products/a";
       QuickAdd.Click "/products/b"] in
  QuickAdd.abortController st = None /\
  QuickAdd.inflight st = [Fetch.mkPending 1 "/products/b" false] /\
  QuickAdd.dialog st = Some true.
Proof. vm_compute. repeat split. Qed.

Example pinch_in_a_block :
  let st :=
    DragZoom.run DragZoom.clamp_numbers DragZoom.init
      (DragZoom.pinch_in DragZoom.block_layout) in
  DragZoom.scale st = 1%float /\
  DragZoom.translate st = DragZoom.origin /\
  DragZoom.hasManualZoom st = true.
Proof. vm_compute. repeat split. Qed.

End Examples.

(** * Properties *)

(** ** Disclosure *)

Lemma toggle_expanded (d : Disclosure.t) :
  Disclosure.expanded (Disclosure.toggleDisclosure d)
  = negb (Disclosure.expanded d).
Proof.
  unfold Disclosure.expanded at 1. cbn.
  destruct (Disclosure.expanded d); reflexivity.
Qed.

Lemma toggle_twice_inert (d : Disclosure.t) :
  Disclosure.inert (Disclosure.toggleDisclosure (Disclosure.toggleDisclosure d))
  = negb (Disclosure.expanded d).
Proof. cbn. apply toggle_expanded. Qed.

(** C4, as stated, fails: a collapsed trigger whose content is not inert
    ends, after two toggles, with inert content. *)
Lemma toggle_twice_not_restored :
  ~ Disclosure.restored_by_two_toggles Disclosure.collapsed_not_inert.
Proof. intros [_ H]. vm_compute in H. discriminate. Qed.

(** C4 (amended): when [aria-expanded] is ["true"] or ["false"], two
    toggles give the attribute back; the content's [inert] ends as the
    negation of the original expanded state, hence at its original value
    exactly when it agreed with the attribute to begin with. *)
Theorem toggle_twice_aria_expanded (d : Disclosure.t) :
  Disclosure.aria_expanded d = Some "true"%string \/
  Disclosure.aria_expanded d = Some "false"%string ->
  let d2 := Disclosure.toggleDisclosure (Disclosure.toggleDisclosure d) in
  Disclosure.aria_expanded d2 = Disclosure.aria_expanded d /\
  Disclosure.inert d2 = negb (Disclosure.expanded d) /\
  (Disclosure.inert d2 = Disclosure.inert d <->
   Disclosure.inert d = negb (Disclosure.expanded d)).
Proof.
  intros H d2. subst d2. rewrite toggle_twice_inert.
  split; [| split; [reflexivity | split; congruence]].
  cbn. rewrite toggle_expanded. unfold Disclosure.expanded.
  destruct H as [H | H]; rewrite H; reflexivity.
Qed.

Lemma toggle_twice_aria_expanded_witness :
  let d := Disclosure.toggleDisclosure Disclosure.collapsed_not_inert in
  let d2 := Disclosure.toggleDisclosure (Disclosure.toggleDisclosure d) in
  Disclosure.aria_expanded d2 = Disclosure.aria_expanded d /\
  Disclosure.inert d2 = negb (Disclosure.expanded d) /\
  (Disclosure.inert d2 = Disclosure.inert d <->
   Disclosure.inert d = negb (Disclosure.expanded d)).
Proof.
  apply (toggle_twice_aria_expanded
           (Disclosure.toggleDisclosure Disclosure.collapsed_not_inert)).
  left. reflexivity.
Defined.

(** ** Quantity selector *)

Section QuantityFacts.

Variable sanitize : string -> string.
Variable stepUp stepDown : Quantity.Input -> option string.
Variable Number : option string -> Js.num.

Lemma truthy_nonempty (s : string) : Js.truthy s = true <-> s <> EmptyString.
Proof. destruct s; cbn; split; congruence. Qed.

Lemma staged_keeps_bounds op t (i i1 : Quantity.Input) :
  Quantity.staged sanitize stepUp stepDown op t i = Some i1 ->
  Quantity.min i1 = Quantity.min i /\ Quantity.max i1 = Quantity.max i.
Proof.
  destruct op; cbn.
  - destruct (stepUp i); cbn; intros [= <-]; auto.
  - destruct (stepDown i); cbn; intros [= <-]; auto.
  - destruct t; intros [= <-]; auto.
Qed.

(** [#checkQuantityRules] on a value that parses, with bounds the setter
    stores unchanged and that are ordered when both are present. *)
Lemma checkQuantityRules_clamps (i : Quantity.Input) (n : Z) :
  Js.parseInt (Quantity.value i) = Some n ->
  sanitize (Quantity.min i) = Quantity.min i ->
  sanitize (Quantity.max i) = Quantity.max i ->
  (forall m M, Quantity.lower_bound i m -> Quantity.upper_bound i M ->
               (m <= M)%Z) ->
  let i' := Quantity.checkQuantityRules sanitize i in
  Quantity.min i' = Quantity.min i /\ Quantity.max i' = Quantity.max i /\
  Quantity.cartLine i' = Quantity.cartLine i /\
  exists n', Js.parseInt (Quantity.value i') = Some n' /\
    (forall m, Quantity.lower_bound i m -> (m <= n')%Z) /\
    (forall M, Quantity.upper_bound i M -> (n' <= M)%Z).
Proof.
  intros Hv Hmin Hmax Hord. unfold Quantity.checkQuantityRules.
  rewrite Hv. unfold Quantity.assign_value. rewrite Hmin, Hmax.
  destruct (Js.gt (Some n) (Js.parseInt (Quantity.max i))
            && Js.truthy (Quantity.max i)) eqn:Hb.
  - apply andb_true_iff in Hb as [Hgt Ht]. apply truthy_nonempty in Ht.
    unfold Js.gt, Js.lt in Hgt.
    destruct (Js.parseInt (Quantity.max i)) as [M0|] eqn:HM; [|discriminate].
    assert (Hup : Quantity.upper_bound i M0) by (split; assumption).
    destruct (Js.lt (Some n) (Js.parseInt (Quantity.min i))
              && Js.truthy (Quantity.min i)); cbn;
      refine (conj eq_refl (conj eq_refl (conj eq_refl
                (ex_intro _ M0 (conj HM (conj _ _))))));
      try (intros m Hm; exact (Hord m M0 Hm Hup));
      intros M [_ HM']; rewrite HM in HM'; injection HM' as <-; lia.
  - destruct (Js.lt (Some n) (Js.parseInt (Quantity.min i))
              && Js.truthy (Quantity.min i)) eqn:Ha; cbn.
    + apply andb_true_iff in Ha as [Hlt Ht]. apply truthy_nonempty in Ht.
      unfold Js.lt in Hlt.
      destruct (Js.parseInt (Quantity.min i)) as [m0|] eqn:Hm0;
        [|discriminate].
      assert (Hlo : Quantity.lower_bound i m0) by (split; assumption).
      refine (conj eq_refl (conj eq_refl (conj eq_refl
                (ex_intro _ m0 (conj eq_refl (conj _ _)))))).
      * intros m [_ Hm]. rewrite Hm0 in Hm. injection Hm as <-. lia.
      * intros M HM. exact (Hord m0 M Hlo HM).
    + refine (conj eq_refl (conj eq_refl (conj eq_refl
                (ex_intro _ n (conj Hv (conj _ _)))))).
      * intros m [Hne Hm]. apply truthy_nonempty in Hne.
        rewrite Hm, Hne, andb_true_r in Ha. cbn in Ha.
        apply Z.ltb_ge in Ha. lia.
      * intros M [Hne HM]. apply truthy_nonempty in Hne.
        rewrite HM, Hne, andb_true_r in Hb. cbn in Hb.
        apply Z.ltb_ge in Hb. lia.
Qed.

(** The value [#checkQuantityRules] leaves is the value it found, or one
    of the bounds. *)
Lemma checkQuantityRules_value (i : Quantity.Input) :
  sanitize (Quantity.min i) = Quantity.min i ->
  sanitize (Quantity.max i) = Quantity.max i ->
  let v := Quantity.value (Quantity.checkQuantityRules sanitize i) in
  v = Quantity.value i \/ v = Quantity.min i \/ v = Quantity.max i.
Proof.
  intros Hmin Hmax. unfold Quantity.checkQuantityRules, Quantity.assign_value.
  rewrite Hmin, Hmax.
  destruct (Js.gt _ _ && _); destruct (Js.lt _ _ && _); cbn; auto.
Qed.

End QuantityFacts.

(** C8, as stated, fails: [setQuantity] on an emptied field with
    [min="1"] leaves the empty value, and the event carries [NaN]. *)
Lemma emptied_field_not_clamped :
  ~ Quantity.within_bounds Quantity.emptied
      (Quantity.setQuantity Quantity.plain Quantity.no_step Quantity.no_step
         Quantity.Number_int (Quantity.InputElement EmptyString)
         Quantity.emptied).
Proof. intros [n [[H _] _]]. vm_compute in H. discriminate. Qed.

(** C8 (amended): when the event target is an element, stepping does not
    throw, [parseInt] reads a number from the value to be checked, the
    value setter stores [min] and [max] unchanged and the number read
    from [min] is not above the one read from [max] when both are given,
    then each of [increaseQuantity], [decreaseQuantity] and [setQuantity]
    leaves a value from which [parseInt] reads a number within the
    numbers it reads from the bounds the input has, and dispatches one
    update event that carries that number; the value left is the value
    that was checked, or [min], or [max]. *)
Theorem quantity_within_bounds
    (sanitize : string -> string)
    (stepUp stepDown : Quantity.Input -> option string)
    (Number : option string -> Js.num)
    (op : Quantity.Op) (t : Quantity.Target) (i i1 : Quantity.Input) (n : Z) :
  Quantity.is_element t = true ->
  Quantity.staged sanitize stepUp stepDown op t i = Some i1 ->
  Js.parseInt (Quantity.value i1) = Some n ->
  sanitize (Quantity.min i) = Quantity.min i ->
  sanitize (Quantity.max i) = Quantity.max i ->
  (forall m M, Quantity.lower_bound i m -> Quantity.upper_bound i M ->
               (m <= M)%Z) ->
  Quantity.within_bounds i
    (Quantity.perform sanitize stepUp stepDown Number op t i) /\
  exists i' evs,
    Quantity.perform sanitize stepUp stepDown Number op t i
    = Quantity.Done i' evs /\
    (Quantity.value i' = Quantity.value i1 \/
     Quantity.value i' = Quantity.min i \/
     Quantity.value i' = Quantity.max i).
Proof.
  intros Ht Hs Hv Hmin Hmax Hord.
  unfold Quantity.perform. rewrite Ht, Hs. cbn.
  destruct (staged_keeps_bounds _ _ _ _ _ _ _ Hs) as [Em EM].
  assert (Hord1 : forall m M, Quantity.lower_bound i1 m ->
                    Quantity.upper_bound i1 M -> (m <= M)%Z).
  { unfold Quantity.lower_bound, Quantity.upper_bound.
    rewrite Em, EM. exact Hord. }
  rewrite <- Em in Hmin. rewrite <- EM in Hmax.
  destruct (checkQuantityRules_clamps sanitize i1 n Hv Hmin Hmax Hord1)
    as (_ & _ & _ & n' & Hn' & Hlo & Hhi).
  split.
  - exists n'.
    split; [split; [exact Hn' | eexists; rewrite Hn'; reflexivity] |].
    unfold Quantity.lower_bound, Quantity.upper_bound in *.
    rewrite Em in Hlo. rewrite EM in Hhi. split; assumption.
  - eexists _, _. split; [reflexivity |].
    rewrite <- Em, <- EM.
    exact (checkQuantityRules_value sanitize i1 Hmin Hmax).
Qed.

(** A field holding 3 with [min="1"] and [max="10"]: setting it to 12
    clamps it to 10. *)
Lemma quantity_within_bounds_witness :
  let i := {| Quantity.value := "3"; Quantity.min := "1";
              Quantity.max := "10"; Quantity.cartLine := None |} in
  let o := Quantity.perform Quantity.plain Quantity.no_step Quantity.no_step
             Quantity.Number_int Quantity.SetTo (Quantity.InputElement "12")
             i in
  Quantity.within_bounds i o /\
  exists i' evs,
    o = Quantity.Done i' evs /\
    (Quantity.value i' = "12"%string \/
     Quantity.value i' = "1"%string \/
     Quantity.value i' = "10"%string).
Proof.
  intros i o.
  refine (quantity_within_bounds Quantity.plain Quantity.no_step
            Quantity.no_step Quantity.Number_int Quantity.SetTo
            (Quantity.InputElement "12") i
            (Quantity.assign_value Quantity.plain i "12") 12 _ _ _ _ _ _).
  - reflexivity.
  - reflexivity.
  - reflexivity.
  - reflexivity.
  - reflexivity.
  - intros m M [_ Hm] [_ HM]. vm_compute in Hm, HM.
    injection Hm as <-. injection HM as <-. lia.
Defined.

(** ** Paginated list *)

Module PaginatedFacts.

Import PaginatedList.

Section Frames.

Context {dom : Dom}.

Lemma silent_refl st : silent st st.
Proof. repeat split. Qed.

Lemma usable_ext (r r' : Refs) (p : Js.num) :
  gridLastPage r = gridLastPage r' -> usable r p = usable r' p.
Proof. unfold usable. intros ->. reflexivity. Qed.

Lemma silent_fetches st st' : silent st st' -> fetches_usable st st'.
Proof.
  intros (Hp & Hr & Hg). repeat split; auto.
  intros q Hq. left. rewrite <- Hr. exact Hq.
Qed.

Lemma fetches_usable_trans st1 st2 st3 :
  fetches_usable st1 st2 -> fetches_usable st2 st3 -> fetches_usable st1 st3.
Proof.
  intros (Hp & Hg & Hq) (Hp' & Hg' & Hq'). repeat split.
  - congruence.
  - congruence.
  - intros q H. destruct (Hq' q H) as [H1 | H1]; [auto |].
    right. rewrite <- H1. apply usable_ext. congruence.
Qed.

Lemma resolvePromise_silent st d : silent st (resolvePromise st d).
Proof. destruct d; repeat split. Qed.

Lemma fetchSpecificPage_fetches st d p u :
  fetches_usable st (fetchSpecificPage st d p u).1.
Proof.
  unfold fetchSpecificPage. cbn.
  destruct (usable (refs st) p) eqn:Hu; cbn;
    [| apply silent_fetches, silent_refl].
  destruct sectionId; cbn; [| apply silent_fetches, silent_refl].
  repeat split. intros q Hq. apply elem_of_app in Hq as [Hq | Hq]; [auto |].
  apply list_elem_of_singleton in Hq. subst q. right. exact Hu.
Qed.

Lemma fetchPage_fetches st d : fetches_usable st (fetchPage st d).
Proof.
  unfold fetchPage.
  destruct (getPage st d) as [pg|];
    [| apply silent_fetches, resolvePromise_silent].
  destruct (shouldUsePage st (Some pg));
    [| apply silent_fetches, resolvePromise_silent].
  pose proof (fetchSpecificPage_fetches st d (page pg) (Some (url pg))) as H.
  destruct (fetchSpecificPage st d (page pg) (Some (url pg))) as [st1 a].
  cbn in H. destruct a; [exact H |].
  eapply fetches_usable_trans; [exact H |].
  apply silent_fetches, resolvePromise_silent.
Qed.

(** A fetch for a page the grid does not make usable is not issued. *)
Lemma fetchPage_skips st d :
  shouldUsePage st (getPage st d) = false ->
  requests (fetchPage st d) = requests st.
Proof.
  unfold fetchPage. destruct (getPage st d) as [pg|]; intros H.
  - rewrite H. apply resolvePromise_silent.
  - apply resolvePromise_silent.
Qed.

Lemma finishRender_silent st d pg els : silent st (finishRender st d pg els).
Proof.
  unfold finishRender. cbn.
  destruct (aspectRatioHelper st); repeat split.
Qed.

Lemma resumeRender_silent st w : silent st (resumeRender st w).
Proof.
  unfold resumeRender. destruct (getGridForPage st (page (wait_page w))).
  - apply finishRender_silent.
  - apply silent_refl.
Qed.

Lemma silent_trans st1 st2 st3 :
  silent st1 st2 -> silent st2 st3 -> silent st1 st3.
Proof. intros (? & ? & ?) (? & ? & ?). repeat split; congruence. Qed.

Lemma foldl_resumeRender_silent ws st : silent st (foldl resumeRender st ws).
Proof.
  revert st. induction ws as [| w ws IH]; intros st; cbn.
  - apply silent_refl.
  - eapply silent_trans; [apply resumeRender_silent | apply IH].
Qed.

Lemma runResolved_silent st : silent st (runResolved st).
Proof.
  unfold runResolved.
  eapply silent_trans; [| apply foldl_resumeRender_silent].
  repeat split.
Qed.

Lemma observeViewMore_silent st : silent st (observeViewMore st).
Proof.
  unfold observeViewMore.
  destruct (negb (viewMorePrevious (refs st)) && negb (viewMoreNext (refs st)));
    repeat split.
Qed.

Lemma renderPage_fetches st d : fetches_usable st (renderPage st d).
Proof.
  unfold renderPage.
  destruct (grid (refs st)); [| apply silent_fetches, silent_refl].
  destruct (getPage st d) as [pg|]; [| apply silent_fetches, silent_refl].
  destruct (shouldUsePage st (Some pg));
    [| apply silent_fetches, silent_refl].
  destruct (getGridForPage st (page pg)).
  - apply silent_fetches, finishRender_silent.
  - match goal with
    | |- context [fetchPage ?s d] =>
        pose proof (fetchPage_fetches s d) as (Hp & Hg & Hq);
        assert (Hs : silent st s) by (destruct d; repeat split)
    end.
    destruct Hs as (Hp' & Hr' & Hg'). repeat split; cbn.
    + congruence.
    + congruence.
    + intros q H. destruct (Hq q H) as [H1 | H1].
      * left. congruence.
      * right. rewrite <- H1. apply usable_ext. congruence.
Qed.

Lemma disconnectFilterObserver_silent st k :
  silent st (disconnectFilterObserver st k).
Proof. repeat split. Qed.

Lemma filterMutation_fetches st k : fetches_usable st (filterMutation st k).
Proof.
  unfold filterMutation.
  destruct (filterObservers st !! k) as [o|];
    [| apply silent_fetches, silent_refl].
  destruct (watching o && active o); [| apply silent_fetches, silent_refl].
  case_bool_decide; [apply silent_fetches, silent_refl |].
  destruct (isConnected (disconnectFilterObserver st k));
    [| apply silent_fetches, disconnectFilterObserver_silent].
  eapply fetches_usable_trans; [| apply fetchPage_fetches].
  apply silent_fetches.
  eapply silent_trans;
    [apply disconnectFilterObserver_silent | apply observeViewMore_silent].
Qed.

(** [disconnectedCallback] touches neither the cache nor the fetches. *)
Lemma disconnectedCallback_keeps st :
  pages (disconnectedCallback st) = pages st /\
  requests (disconnectedCallback st) = requests st.
Proof.
  unfold disconnectedCallback. cbn.
  destruct (infinityScrollObserver st); split; reflexivity.
Qed.

(** [connectedCallback] fetches only pages usable with the refs
    [Component] has set up. *)
Lemma connectedCallback_fetches st :
  pages (connectedCallback st) = pages st /\
  refs (connectedCallback st) = superConnected (refs st) /\
  forall q, q ∈ requests (connectedCallback st) ->
    q ∈ requests st \/ usable (superConnected (refs st)) (req_page q) = true.
Proof.
  unfold connectedCallback.
  set (st1 := with_connection _ _ _ true).
  pose proof (fetchPage_fetches st1 Next) as H2.
  pose proof (fetchPage_fetches (fetchPage st1 Next) Previous) as H3.
  pose proof (fetches_usable_trans _ _ _ H2 H3) as H23.
  pose proof (observeViewMore_silent (fetchPage (fetchPage st1 Next) Previous))
    as H4.
  destruct (fetches_usable_trans _ _ _ H23 (silent_fetches _ _ H4))
    as (Hp & Hg & Hq).
  repeat split; cbn.
  - exact Hp.
  - assert (Hrefs : forall s d, refs (fetchPage s d) = refs s).
    { intros s d. unfold fetchPage, fetchSpecificPage.
      destruct (getPage s d) as [pg|]; [| destruct d; reflexivity].
      destruct (shouldUsePage s (Some pg)) eqn:E; [| destruct d; reflexivity].
      cbn in E |- *. rewrite E. destruct sectionId; reflexivity. }
    assert (Hobs : forall s, refs (observeViewMore s) = refs s).
    { intros s. unfold observeViewMore.
      destruct (negb _ && negb _); reflexivity. }
    rewrite Hobs, !Hrefs. reflexivity.
  - intros q H. exact (Hq q H).
Qed.

Lemma handleFilterUpdate_requests st :
  requests (handleFilterUpdate st) = requests st /\
  refs (handleFilterUpdate st) = refs st.
Proof. split; reflexivity. Qed.

Lemma elem_of_filter_requests (q : Request) (id : nat) (rs : list Request) :
  q ∈ filter (fun r' => req_id r' ≠ id) rs -> q ∈ rs.
Proof. intros H. apply list_elem_of_filter in H. tauto. Qed.

Lemma pageArrived_pages st id html k :
  is_Some (pages (pageArrived st id html) !! k) ->
  is_Some (pages st !! k) \/ exists q, q ∈ requests st /\ req_page q = k.
Proof.
  unfold pageArrived.
  destruct (list_find (fun r => req_id r = id) (requests st))
    as [[j r]|] eqn:Hf; [| auto].
  apply list_find_Some in Hf as (Hj & _ & _).
  destruct (resolvePromise_silent
              (with_pages
                 (with_requests st
                    (filter (fun r' => req_id r' ≠ id) (requests st))
                    (next_request st))
                 (<[req_page r := html]> (pages st))) (req_type r))
    as (Hp & _ & _).
  cbn in Hp |- *. rewrite Hp.
  destruct (decide (req_page r = k)) as [<- | Hne].
  - intros _. right. exists r. split; [| reflexivity].
    eapply list_elem_of_lookup_2. exact Hj.
  - rewrite lookup_insert_ne by exact Hne. auto.
Qed.

Lemma pageArrived_requests st id html q :
  q ∈ requests (pageArrived st id html) -> q ∈ requests st.
Proof.
  unfold pageArrived.
  destruct (list_find (fun r => req_id r = id) (requests st))
    as [[j r]|]; [| auto].
  destruct (resolvePromise_silent
              (with_pages
                 (with_requests st
                    (filter (fun r' => req_id r' ≠ id) (requests st))
                    (next_request st))
                 (<[req_page r := html]> (pages st))) (req_type r))
    as (_ & Hr & _).
  cbn in Hr |- *. rewrite Hr. apply elem_of_filter_requests.
Qed.

Lemma pageArrived_refs st id html :
  refs (pageArrived st id html) = refs st.
Proof.
  unfold pageArrived.
  destruct (list_find (fun r => req_id r = id) (requests st))
    as [[j r]|]; [| reflexivity].
  destruct (req_type r); reflexivity.
Qed.

Lemma runResolved_pages st : pages (runResolved st) = pages st.
Proof. apply runResolved_silent. Qed.

Lemma runResolved_requests st : requests (runResolved st) = requests st.
Proof. apply runResolved_silent. Qed.

Lemma silent_grows st st' : silent st st' -> grows st st'.
Proof. intros (_ & Hr & _) q Hq. rewrite Hr. exact Hq. Qed.

Lemma grows_trans st1 st2 st3 : grows st1 st2 -> grows st2 st3 -> grows st1 st3.
Proof. unfold grows. auto. Qed.

Lemma fetchPage_grows st d : grows st (fetchPage st d).
Proof.
  unfold fetchPage.
  destruct (getPage st d) as [pg|];
    [| apply silent_grows, resolvePromise_silent].
  destruct (shouldUsePage st (Some pg)) eqn:E;
    [| apply silent_grows, resolvePromise_silent].
  unfold fetchSpecificPage. cbn in E |- *. rewrite E.
  destruct sectionId; intros q Hq; cbn; [| exact Hq].
  apply elem_of_app. left. exact Hq.
Qed.

Lemma renderPage_grows st d : grows st (renderPage st d).
Proof.
  unfold renderPage.
  destruct (grid (refs st)); [| apply silent_grows, silent_refl].
  destruct (getPage st d) as [pg|]; [| apply silent_grows, silent_refl].
  destruct (shouldUsePage st (Some pg));
    [| apply silent_grows, silent_refl].
  destruct (getGridForPage st (page pg)).
  - apply silent_grows, finishRender_silent.
  - intros q Hq. cbn. apply fetchPage_grows. destruct d; exact Hq.
Qed.

Lemma filterMutation_grows st k : grows st (filterMutation st k).
Proof.
  unfold filterMutation.
  destruct (filterObservers st !! k) as [o|];
    [| apply silent_grows, silent_refl].
  destruct (watching o && active o); [| apply silent_grows, silent_refl].
  case_bool_decide; [apply silent_grows, silent_refl |].
  destruct (isConnected (disconnectFilterObserver st k));
    [| apply silent_grows, disconnectFilterObserver_silent].
  eapply grows_trans; [| apply fetchPage_grows].
  apply silent_grows.
  eapply silent_trans;
    [apply disconnectFilterObserver_silent | apply observeViewMore_silent].
Qed.

Lemma connectedCallback_grows st : grows st (connectedCallback st).
Proof.
  unfold connectedCallback.
  set (st1 := with_connection _ _ _ true).
  intros q Hq. cbn.
  destruct (observeViewMore_silent (fetchPage (fetchPage st1 Next) Previous))
    as (_ & -> & _).
  apply fetchPage_grows, fetchPage_grows. exact Hq.
Qed.

(** A page fetch, once issued, is withdrawn by nothing but its own
    arrival or failure: the list has no abort controller. *)
Lemma page_fetch_never_aborted st e q :
  q ∈ requests st ->
  q ∈ requests (step st e) \/
  (exists html, e = Arrived (req_id q) html) \/ e = Failed (req_id q).
Proof.
  intros Hq. unfold step. rewrite runResolved_requests. destruct e.
  - left. apply connectedCallback_grows, Hq.
  - left. destruct (disconnectedCallback_keeps st) as (_ & ->). exact Hq.
  - left. destruct (infinityScrollObserver st); [| exact Hq].
    case_bool_decide; [| exact Hq]. apply renderPage_grows, Hq.
  - left. destruct (idle st) as [| d r]; [exact Hq |].
    apply fetchPage_grows. exact Hq.
  - destruct (decide (req_id q = id)) as [<- | Hne].
    + right; left. eexists. reflexivity.
    + left. unfold pageArrived.
      destruct (list_find _ _) as [[j r]|]; [| exact Hq].
      destruct (resolvePromise_silent
                  (with_pages
                     (with_requests st
                        (filter (fun r' => req_id r' ≠ id) (requests st))
                        (next_request st))
                     (<[req_page r := html]> (pages st))) (req_type r))
        as (_ & Hr & _).
      cbn in Hr |- *. rewrite Hr. apply list_elem_of_filter. auto.
  - destruct (decide (req_id q = id)) as [<- | Hne].
    + right; right. reflexivity.
    + left. cbn. apply list_elem_of_filter. auto.
  - left. destruct (filterListener st); exact Hq.
  - left. apply filterMutation_grows, Hq.
  - left. exact Hq.
  - left. exact Hq.
Qed.

(** A page enters the cache only as the answer to an outstanding fetch. *)
Lemma step_pages st e k :
  is_Some (pages (step st e) !! k) ->
  is_Some (pages st !! k) \/ exists q, q ∈ requests st /\ req_page q = k.
Proof.
  unfold step. rewrite runResolved_pages. destruct e.
  - destruct (connectedCallback_fetches st) as (-> & _). auto.
  - destruct (disconnectedCallback_keeps st) as (-> & _). auto.
  - destruct (infinityScrollObserver st); [| auto].
    case_bool_decide; [| auto].
    destruct (renderPage_fetches st d) as (-> & _). auto.
  - destruct (idle st) as [| d q]; [auto |].
    destruct (fetchPage_fetches (with_idle st q (pushed st)) d) as (-> & _).
    auto.
  - apply pageArrived_pages.
  - auto.
  - destruct (filterListener st); [| auto].
    cbn. rewrite lookup_empty. intros [? [=]].
  - destruct (filterMutation_fetches st k0) as (-> & _). auto.
  - auto.
  - auto.
Qed.

(** A page that has arrived keeps the pages cached before it. *)
Lemma pageArrived_keeps st id html k :
  is_Some (pages st !! k) -> is_Some (pages (pageArrived st id html) !! k).
Proof.
  intros Hk. unfold pageArrived.
  destruct (list_find (fun r => req_id r = id) (requests st))
    as [[j r]|]; [| exact Hk].
  destruct (resolvePromise_silent
              (with_pages
                 (with_requests st
                    (filter (fun r' => req_id r' ≠ id) (requests st))
                    (next_request st))
                 (<[req_page r := html]> (pages st))) (req_type r))
    as (Hp & _ & _).
  cbn in Hp |- *. rewrite Hp.
  destruct (decide (req_page r = k)) as [<- | Hne].
  - rewrite lookup_insert_eq. eexists. reflexivity.
  - rewrite lookup_insert_ne by exact Hne. exact Hk.
Qed.

(** A cached page leaves the cache only in a filter update, handled
    while the listener is on. *)
Lemma step_keeps_cached st e k :
  is_Some (pages st !! k) -> pages (step st e) !! k = None ->
  e = FilterUpdate /\ filterListener st = true.
Proof.
  intros Hk. unfold step. rewrite runResolved_pages.
  assert (Hno : pages st !! k = None ->
                e = FilterUpdate /\ filterListener st = true).
  { intros Hn. rewrite Hn in Hk. destruct Hk as [? [=]]. }
  destruct e.
  - destruct (connectedCallback_fetches st) as (-> & _). exact Hno.
  - destruct (disconnectedCallback_keeps st) as (-> & _). exact Hno.
  - destruct (infinityScrollObserver st); [| exact Hno].
    case_bool_decide; [| exact Hno].
    destruct (renderPage_fetches st d) as (-> & _). exact Hno.
  - destruct (idle st) as [| d q]; [exact Hno |].
    destruct (fetchPage_fetches (with_idle st q (pushed st)) d) as (-> & _).
    exact Hno.
  - intros Hn. pose proof (pageArrived_keeps st id html k Hk) as Hs.
    rewrite Hn in Hs. destruct Hs as [? [=]].
  - exact Hno.
  - destruct (filterListener st); [split; reflexivity | exact Hno].
  - destruct (filterMutation_fetches st k0) as (-> & _). exact Hno.
  - exact Hno.
  - exact Hno.
Qed.

(** A fetch is issued only for a page that the grid makes usable, before
    or after the task that issues it. *)
Lemma step_requests st e q :
  q ∈ requests (step st e) ->
  q ∈ requests st \/ usable (refs st) (req_page q) = true \/
  usable (refs (step st e)) (req_page q) = true.
Proof.
  unfold step. rewrite runResolved_requests. destruct e.
  - destruct (connectedCallback_fetches st) as (_ & Hr & Hq).
    intros H. destruct (Hq q H) as [H1 | H1]; [auto |].
    right; right. rewrite <- H1. apply usable_ext.
    destruct (runResolved_silent (connectedCallback st)) as (_ & _ & ->).
    rewrite Hr. reflexivity.
  - destruct (disconnectedCallback_keeps st) as (_ & ->). auto.
  - destruct (infinityScrollObserver st); [| auto].
    case_bool_decide; [| auto].
    destruct (renderPage_fetches st d) as (_ & _ & Hq).
    intros Hin. destruct (Hq q Hin); auto.
  - destruct (idle st) as [| d r]; [auto |].
    destruct (fetchPage_fetches (with_idle st r (pushed st)) d)
      as (_ & _ & Hq).
    intros Hin. destruct (Hq q Hin); auto.
  - intros H. left. eapply pageArrived_requests. exact H.
  - intros H. left. eapply elem_of_filter_requests. exact H.
  - destruct (filterListener st); auto.
  - destruct (filterMutation_fetches st k) as (_ & _ & Hq).
    intros Hin. destruct (Hq q Hin); auto.
  - auto.
  - auto.
Qed.

Lemma usable_accepted (r : Refs) (p : Js.num) :
  usable r p = true -> accepted r p.
Proof.
  unfold usable, accepted. destruct (gridLastPage r) as [l|]; [| discriminate].
  intros H. apply negb_true_iff in H.
  apply orb_false_iff in H as [H1 Hgt]. apply orb_false_iff in H1 as [Ht Hlt].
  apply negb_false_iff in Ht. exists l. split; [reflexivity |].
  split; [destruct l; [discriminate | congruence] |].
  intros n ->. cbn in Hlt. apply Z.ltb_ge in Hlt. split; [lia |].
  intros m Hm. rewrite Hm in Hgt. cbn in Hgt. apply Z.ltb_ge in Hgt. lia.
Qed.

Lemma accepted_before_later r0 evs e p :
  accepted_before r0 evs p -> accepted_before r0 (evs ++ [e]) p.
Proof.
  intros (evs1 & evs2 & -> & H). exists evs1, (evs2 ++ [e]).
  split; [apply eq_sym, app_assoc | exact H].
Qed.

Lemma run_snoc st evs e : run st (evs ++ [e]) = step (run st evs) e.
Proof. unfold run. apply foldl_snoc. Qed.

(** The cache and the outstanding fetches hold only accepted pages. *)
Lemma run_accepted r0 evs :
  (forall p, is_Some (pages (run (init r0) evs) !! p) ->
             accepted_before r0 evs p) /\
  (forall q, q ∈ requests (run (init r0) evs) ->
             accepted_before r0 evs (req_page q)).
Proof.
  induction evs as [| e evs [IHp IHq]] using rev_ind.
  - split.
    + intros p. cbn. rewrite lookup_empty. intros [? [=]].
    + intros q H. cbn in H. apply elem_of_nil in H. contradiction.
  - rewrite run_snoc. split.
    + intros p H. apply step_pages in H as [H | (q & Hq & <-)];
        apply accepted_before_later; auto.
    + intros q H. apply step_requests in H as [H | [H | H]].
      * apply accepted_before_later; auto.
      * exists evs, [e]. split; [reflexivity | apply usable_accepted, H].
      * exists (evs ++ [e]), []. split; [apply eq_sym, app_nil_r |].
        rewrite run_snoc. apply usable_accepted, H.
Qed.

End Frames.

(** C2: the filter-update handler leaves the page cache empty, also once
    the renders it has woken up have continued. *)
Theorem filter_update_clears_pages {dom : Dom} (st : t) :
  pages (handleFilterUpdate st) = ∅ /\
  pages (runResolved (handleFilterUpdate st)) = ∅.
Proof.
  split; [reflexivity |]. rewrite runResolved_pages. reflexivity.
Qed.

(** A fetch issued before a filter update stores its answer after it: the
    cache the handler has emptied holds a page of the former listing
    again. *)
Lemma late_answer_refills_pages :
  pages (run (init (showing "4" "5")) [Connected; FilterUpdate]) = ∅ /\
  pages (run (init (showing "4" "5"))
           [Connected; FilterUpdate; Arrived 0 "<ul>"]) !! Some 5%Z
  = Some "<ul>"%string.
Proof. split; vm_compute; reflexivity. Qed.

(** C3, as stated, fails: a page fetched while connected is still in the
    cache after [disconnectedCallback]. *)
Lemma pages_survive_disconnection :
  pages (disconnectedCallback
           (run (init (showing "2" "3")) [Connected; Arrived 0 "<ul>"]))
  ≠ ∅.
Proof.
  intros H.
  assert (E : pages (disconnectedCallback
                 (run (init (showing "2" "3")) [Connected; Arrived 0 "<ul>"]))
              !! Some 3%Z = Some "<ul>"%string) by (vm_compute; reflexivity).
  rewrite H, lookup_empty in E. discriminate.
Qed.

(** C3 (amended): [disconnectedCallback] leaves the page cache and the
    outstanding page fetches as they are; it only disconnects the
    intersection observer and removes the filter-update listener, beside
    what [Component]'s own callback does to the refs and the element
    being no longer connected: every other field is as it was.  A cached
    page leaves the cache in no task but a filter update, handled while
    the listener is on, which empties the cache. *)
Theorem disconnection_keeps_pages {dom : Dom} (st : t) :
  pages (disconnectedCallback st) = pages st /\
  requests (disconnectedCallback st) = requests st /\
  filterListener (disconnectedCallback st) = false /\
  (forall targets, infinityScrollObserver (disconnectedCallback st)
                   = Some targets -> targets = []) /\
  disconnectedCallback st
  = mk (pages st) (superDisconnected (refs st))
       (match infinityScrollObserver st with
        | Some _ => Some []
        | None => None
        end)
       (resolveNextPagePromise st) (resolvePreviousPagePromise st)
       (aspectRatioHelper st) (requests st) (next_request st) (waiting st)
       (resolved st) (next_promise st) (idle st) false (filterObservers st)
       false (pushed st) /\
  (forall (s : t) (e : Event) (p : Js.num),
      is_Some (pages s !! p) -> pages (step s e) !! p = None ->
      e = FilterUpdate /\ filterListener s = true) /\
  (forall s : t, filterListener s = true -> pages (step s FilterUpdate) = ∅).
Proof.
  destruct (disconnectedCallback_keeps st) as [Hp Hr].
  split; [exact Hp | split; [exact Hr |]].
  split; [| split; [| split; [| split]]].
  - unfold disconnectedCallback. cbn.
    destruct (infinityScrollObserver st); reflexivity.
  - unfold disconnectedCallback. cbn.
    destruct (infinityScrollObserver st) eqn:E0; cbn; intros targets E.
    + injection E as <-. reflexivity.
    + rewrite E0 in E. discriminate E.
  - unfold disconnectedCallback, with_connection, with_observer, with_refs.
    cbn. destruct (infinityScrollObserver st); reflexivity.
  - intros s e p. apply step_keeps_cached.
  - intros s Hl. unfold step. rewrite runResolved_pages, Hl. reflexivity.
Qed.

(** C10, as stated, fails: the answer to a fetch issued when the grid had
    five pages is stored as page 5 after a filter update has left the grid
    with two. *)
Lemma stale_page_stored :
  ~ stores_within_lastPage
      (run (init (showing "4" "5"))
         [Connected; FilterUpdate; DomChange (showing "1" "2")])
      (Arrived 0 "<ul>").
Proof.
  intros H. destruct (H (Some 5%Z)) as (l & n & m & Hl & Hn & Hm & Hle).
  - vm_compute. reflexivity.
  - exists "<ul>"%string. vm_compute. reflexivity.
  - vm_compute in Hl. injection Hl as <-. injection Hn as <-.
    vm_compute in Hm. injection Hm as <-. lia.
Qed.

(** C10 (amended): every page in the cache was accepted by
    [#shouldUsePage] at some earlier point of the run, the one at which
    its fetch was issued: [data-last-page] was present and not empty then,
    and a numeric page was at least 1 and at most the numeric
    [data-last-page] of that moment.  A page that is not accepted is
    skipped: [#fetchPage] issues no fetch for it and stores nothing. *)
Theorem cached_pages_were_accepted {dom : Dom} (r0 : Refs)
    (evs : list Event) (p : Js.num) :
  is_Some (pages (run (init r0) evs) !! p) ->
  accepted_before r0 evs p /\
  (forall st d, shouldUsePage st (getPage st d) = false ->
     requests (fetchPage st d) = requests st /\
     pages (fetchPage st d) = pages st).
Proof.
  intros H. split; [apply run_accepted, H |].
  intros st d Hd. split; [apply fetchPage_skips, Hd |].
  apply fetchPage_fetches.
Qed.

Lemma cached_pages_were_accepted_witness :
  accepted_before (showing "2" "3") [Connected; Arrived 0 "<ul>"]
    (Some 3%Z) /\
  (forall st d, shouldUsePage st (getPage st d) = false ->
     requests (fetchPage st d) = requests st /\
     pages (fetchPage st d) = pages st).
Proof.
  apply (cached_pages_were_accepted (showing "2" "3")
           [Connected; Arrived 0 "<ul>"] (Some 3%Z)).
  exists "<ul>"%string. vm_compute. reflexivity.
Defined.

End PaginatedFacts.

(** ** Variant picker *)

Module VariantFacts.

Import VariantPicker.

(** Case analysis on whatever the goal matches on. *)
Ltac split_match :=
  repeat match goal with
         | |- context [match ?x with _ => _ end] => destruct x eqn:?
         end.

Section Frames.

Context {dom : Dom}.

Lemma catchCallback_frame st e :
  fetches (catchCallback st e) = fetches st /\
  checkedIndices (catchCallback st e) = checkedIndices st /\
  pendingRequestUrl (catchCallback st e) = pendingRequestUrl st /\
  doc (catchCallback st e) = doc st.
Proof. unfold catchCallback. destruct (Fetch.is_abort e); repeat split. Qed.

Lemma recordChecked_fetches st fi ii rs checked :
  fetches (recordChecked st fi ii rs checked) = fetches st.
Proof. reflexivity. Qed.

Lemma updateInput_fetches st n : fetches (updateInput st n) = fetches st.
Proof. unfold updateInput. split_match; reflexivity. Qed.

Lemma updateElement_fetches st target st' :
  updateElement st target = Fetch.Return st' -> fetches st' = fetches st.
Proof.
  destruct target; cbn; try (intros [= <-]; reflexivity).
  - intros [= <-]. apply updateInput_fetches.
  - unfold updateSelect. split_match; intros [= <-]; reflexivity.
Qed.

Lemma updateSelectedOption_fetches st target :
  fetches (keep st (updateSelectedOption st target)) = fetches st.
Proof.
  destruct (updateSelectedOption st target) as [st'|] eqn:E; [| reflexivity].
  cbn. unfold updateSelectedOption in E.
  destruct target; try (eapply updateElement_fetches; exact E).
  destruct (queryOption (doc st) optionValue); [| discriminate].
  eapply updateElement_fetches; exact E.
Qed.

Lemma connectedCallback_keeps_fetches st :
  fetches (connectedCallback st) = fetches st.
Proof.
  unfold connectedCallback.
  destruct (foldl _ _ _) as [ci rs]. reflexivity.
Qed.

Lemma settle_fetches st f o : fetches (settle st f o) = fetches st.
Proof.
  unfold settle. destruct o as [r | e].
  - destruct (Fetch.body r) as [s | e].
    + destruct (morphed s (Fetch.flag f) _) as [d [e|]].
      * rewrite (proj1 (catchCallback_frame _ e)). reflexivity.
      * reflexivity.
    + apply catchCallback_frame.
  - apply catchCallback_frame.
Qed.

Lemma foldl_catch_fetches (aborted : list Fetch.Pending) st :
  fetches (foldl (fun s _ => catchCallback s Fetch.AbortError) st aborted)
  = fetches st.
Proof.
  revert st. induction aborted as [| a l IH]; intros st; cbn; [reflexivity |].
  rewrite IH. apply catchCallback_frame.
Qed.

Lemma supervised_fetches st st' :
  fetches st' = fetches st -> supervised st -> supervised st'.
Proof. unfold supervised, fetches. intros [= -> ->]. auto. Qed.

Lemma fetchUpdatedSection_supervised st u m :
  supervised st -> supervised (fetchUpdatedSection st u m).
Proof.
  intros H. unfold fetchUpdatedSection.
  assert (E : (Fetch.abort (abortController st) (inflight st)).1 = []).
  { destruct H as [H | (f & Hf & Hc)].
    - rewrite H. destruct (abortController st); reflexivity.
    - rewrite Hf, Hc. cbn. rewrite decide_False by tauto. reflexivity. }
  destruct (Fetch.abort (abortController st) (inflight st))
    as [kept aborted]. cbn in E. subst kept.
  eapply supervised_fetches; [apply foldl_catch_fetches |].
  right. eexists. split; reflexivity.
Qed.

Lemma settled_supervised st n o : supervised st -> supervised (settled st n o).
Proof.
  intros H. unfold settled.
  destruct (list_find _ _) as [[j f]|] eqn:Hf; [| exact H].
  apply list_find_Some in Hf as (Hj & Hid & _).
  eapply supervised_fetches; [apply settle_fetches |].
  destruct H as [H | (f0 & H0 & _)].
  - rewrite H in Hj. discriminate.
  - left. cbn. rewrite H0 in Hj |- *.
    destruct j; [| discriminate]. injection Hj as ->.
    cbn. rewrite decide_False by tauto. reflexivity.
Qed.

Lemma step_supervised st e : supervised st -> supervised (step st e).
Proof.
  destruct e; cbn.
  - apply supervised_fetches, connectedCallback_keeps_fetches.
  - apply supervised_fetches, updateSelectedOption_fetches.
  - unfold variantChanged.
    pose proof (updateSelectedOption_fetches st target) as E.
    destruct (updateSelectedOption st target) as [st1|]; cbn in *; [| auto].
    intros H. apply fetchUpdatedSection_supervised.
    eapply supervised_fetches; [| exact H]. exact E.
  - apply fetchUpdatedSection_supervised.
  - apply settled_supervised.
Qed.

Lemma run_supervised d evs : supervised (run (init d) evs).
Proof.
  induction evs as [| e evs IH] using rev_ind.
  - left. reflexivity.
  - unfold run. rewrite foldl_snoc. apply step_supervised, IH.
Qed.

(** Every picker fetch is issued under this discipline, so at most one is
    outstanding at any point of any run. *)
Lemma picker_one_outstanding d evs : (outstanding (run (init d) evs) <= 1)%nat.
Proof.
  unfold outstanding.
  destruct (run_supervised d evs) as [-> | (f & -> & _)]; cbn; lia.
Qed.

Lemma remember_unfold (checked : list Z) (ii : Z) :
  remember checked ii = ii :: take 1 checked.
Proof. destruct checked as [| a [| b l]]; reflexivity. Qed.

Lemma remember_short (checked : list Z) (ii : Z) : short (remember checked ii).
Proof.
  rewrite remember_unfold. unfold short.
  destruct checked; cbn; [lia |]. rewrite take_0. cbn. lia.
Qed.

Lemma at_index_lookup {A : Type} (l : list A) (i : Z) (x : A) :
  Js.at_index l i = Some x -> l !! Z.to_nat i = Some x.
Proof. unfold Js.at_index. destruct (i <? 0)%Z; [discriminate | auto]. Qed.

Lemma updateInput_checkedIndices st n :
  checkedIndices (updateInput st n) = checkedIndices st \/
  exists fi ii checked,
    Js.at_index (checkedIndices st) fi = Some checked /\
    checkedIndices (updateInput st n)
    = <[Z.to_nat fi := remember checked ii]> (checkedIndices st).
Proof.
  unfold updateInput. split_match; cbn; auto.
  right. eexists _, _, _. split; [eassumption | reflexivity].
Qed.

Lemma Forall_short_insert (ci : list (list Z)) (i : nat) (l : list Z) :
  Forall short ci -> short l -> Forall short (<[i := l]> ci).
Proof. intros H Hl. apply Forall_insert; assumption. Qed.

Lemma updateInput_short st n :
  Forall short (checkedIndices st) ->
  Forall short (checkedIndices (updateInput st n)).
Proof.
  intros H.
  destruct (updateInput_checkedIndices st n) as [-> | (fi & ii & c & _ & ->)];
    [exact H |].
  apply Forall_short_insert; [exact H | apply remember_short].
Qed.

Lemma updateElement_short st target st' :
  updateElement st target = Fetch.Return st' ->
  Forall short (checkedIndices st) -> Forall short (checkedIndices st').
Proof.
  destruct target; cbn; try (intros [= <-]; auto).
  - apply updateInput_short.
  - unfold updateSelect. split_match; intros [= <-]; auto.
Qed.

Lemma updateSelectedOption_short st target :
  Forall short (checkedIndices st) ->
  Forall short (checkedIndices (keep st (updateSelectedOption st target))).
Proof.
  destruct (updateSelectedOption st target) as [st'|] eqn:E; [| auto].
  cbn. unfold updateSelectedOption in E.
  destruct target; try (eapply updateElement_short; exact E).
  destruct (queryOption (doc st) optionValue); [| discriminate].
  eapply updateElement_short; exact E.
Qed.

Lemma foldl_recordFieldset_short d fs acc :
  Forall short acc.1 -> Forall short (foldl (recordFieldset d) acc fs).1.
Proof.
  revert acc. induction fs as [| f fs IH]; intros acc H; cbn; [exact H |].
  apply IH. unfold recordFieldset. cbn. case_bool_decide; [| exact H].
  apply Forall_app. split; [exact H |].
  apply Forall_singleton. unfold short. cbn. lia.
Qed.

Lemma connectedCallback_short st :
  Forall short (checkedIndices st) ->
  Forall short (checkedIndices (connectedCallback st)).
Proof.
  intros H. unfold connectedCallback.
  pose proof (foldl_recordFieldset_short (superConnected (doc st))
                (fieldsets (superConnected (doc st)))
                (checkedIndices st, radios st) H) as H'.
  cbn in H' |- *.
  destruct (foldl _ _ _) as [ci rs]. exact H'.
Qed.

Lemma foldl_catch_checkedIndices (aborted : list Fetch.Pending) st :
  checkedIndices
    (foldl (fun s _ => catchCallback s Fetch.AbortError) st aborted)
  = checkedIndices st.
Proof.
  revert st. induction aborted as [| a l IH]; intros st; cbn; [reflexivity |].
  rewrite IH. apply catchCallback_frame.
Qed.

Lemma fetchUpdatedSection_checkedIndices st u m :
  checkedIndices (fetchUpdatedSection st u m) = checkedIndices st.
Proof.
  unfold fetchUpdatedSection.
  destruct (Fetch.abort _ _) as [kept aborted].
  rewrite foldl_catch_checkedIndices. reflexivity.
Qed.

Lemma catchCallback_checkedIndices st e :
  checkedIndices (catchCallback st e) = checkedIndices st.
Proof. apply catchCallback_frame. Qed.

Lemma settled_checkedIndices st n o :
  checkedIndices (settled st n o) = checkedIndices st.
Proof.
  unfold settled. destruct (list_find _ _) as [[j f]|]; [| reflexivity].
  unfold settle. destruct o as [r | e].
  - destruct (Fetch.body r) as [s | e].
    + destruct (morphed s _ _) as [d0 [e|]]; [| reflexivity].
      rewrite catchCallback_checkedIndices. reflexivity.
    + rewrite catchCallback_checkedIndices. reflexivity.
  - rewrite catchCallback_checkedIndices. reflexivity.
Qed.

Lemma step_short st e :
  Forall short (checkedIndices st) -> Forall short (checkedIndices (step st e)).
Proof.
  destruct e; cbn.
  - apply connectedCallback_short.
  - apply updateSelectedOption_short.
  - unfold variantChanged. intros H.
    pose proof (updateSelectedOption_short st target H) as H1.
    destruct (updateSelectedOption st target) as [st1|]; cbn in *; [| auto].
    rewrite fetchUpdatedSection_checkedIndices. exact H1.
  - rewrite fetchUpdatedSection_checkedIndices. auto.
  - rewrite settled_checkedIndices. auto.
Qed.

Lemma run_short d evs : Forall short (checkedIndices (run (init d) evs)).
Proof.
  induction evs as [| e evs IH] using rev_ind.
  - constructor.
  - unfold run. rewrite foldl_snoc. apply step_short, IH.
Qed.

Lemma flags_only_refl d : flags_only d d.
Proof.
  repeat split.
  - apply Forall_Forall2_diag, Forall_forall. intros; repeat split.
  - apply Forall_Forall2_diag, Forall_forall. reflexivity.
Qed.

Lemma flags_only_radio d d' n (f : Radio -> Radio) :
  (forall r, same_input r (f r)) ->
  flags_only d d' -> flags_only d (update_radio d' n f).
Proof.
  intros Hf (Hs & Hfs & Hsel). repeat split; cbn; try assumption.
  apply Forall2_alter_r; [exact Hs |].
  intros x y _ _ (H1 & H2 & H3 & H4 & H5).
  destruct (Hf y) as (G1 & G2 & G3 & G4 & G5). repeat split; congruence.
Qed.

Lemma flags_only_fieldset d d' i (f : Fieldset -> Fieldset) :
  (forall x, inputs (f x) = inputs x) ->
  flags_only d d' -> flags_only d (update_fieldset d' i f).
Proof.
  intros Hf (Hs & Hfs & Hsel). unfold update_fieldset.
  destruct (i <? 0)%Z; [repeat split; assumption |].
  repeat split; cbn; try assumption.
  apply Forall2_alter_r; [exact Hfs |].
  intros x y _ _ E. rewrite Hf. exact E.
Qed.

Lemma flags_only_mark d d' rs i (f : Radio -> Radio) :
  (forall r, same_input r (f r)) ->
  flags_only d d' -> flags_only d (mark rs i f d').
Proof.
  intros Hf H. unfold mark. destruct (radio_at rs i); [| exact H].
  apply flags_only_radio; assumption.
Qed.

Lemma same_input_previous v r : same_input r (set_previousChecked v r).
Proof. repeat split. Qed.

Lemma same_input_current v r : same_input r (set_currentChecked v r).
Proof. repeat split. Qed.

Lemma same_input_checked b r : same_input r (set_checked b r).
Proof. repeat split. Qed.

(** Checking an input changes checked states only. *)
Lemma flags_only_check d d' n : flags_only d d' -> flags_only d (check d' n).
Proof.
  intros (Hs & Hfs & Hsel). unfold check.
  destruct (store d' !! n) as [target|]; [| repeat split; assumption].
  repeat split; cbn; try assumption.
  apply Forall2_same_length_lookup. split.
  - rewrite length_imap. eapply Forall2_length. exact Hs.
  - intros i x y Hx Hy. rewrite list_lookup_imap in Hy.
    destruct (store d' !! i) as [r|] eqn:Hr; [| discriminate].
    cbn in Hy. injection Hy as <-.
    rewrite Forall2_lookup in Hs. specialize (Hs i).
    rewrite Hx, Hr in Hs. inversion Hs as [? ? Hxr |]. subst.
    destruct Hxr as (H1 & H2 & H3 & H4 & H5).
    case_bool_decide; [repeat split; assumption |].
    destruct (same_group target r); repeat split; assumption.
Qed.

Ltac same_input :=
  intros;
  first [apply same_input_previous | apply same_input_current
        | apply same_input_checked].

Lemma widthOf_flags d d' n : flags_only d d' -> widthOf d' n = widthOf d n.
Proof.
  intros (Hs & _ & _). unfold widthOf.
  rewrite Forall2_lookup in Hs. specialize (Hs n).
  destruct Hs as [r r' (_ & _ & _ & E & _) |]; cbn; congruence.
Qed.

Ltac flags :=
  repeat first
    [ assumption
    | apply flags_only_refl
    | apply flags_only_radio; [same_input |]
    | apply flags_only_fieldset; [reflexivity |]
    | apply flags_only_mark; [same_input |] ].

(** The guarded block writes checked flags and pill widths only, and sets
    the current pill width from the parent of the input now current. *)
Lemma recordChecked_doc st fi ii rs checked :
  flags_only (doc st) (doc (recordChecked st fi ii rs checked)) /\
  forall nc f, Js.at_index rs ii = Some nc ->
    Js.at_index (fieldsets (doc st)) fi = Some f ->
    exists f', fieldsets (doc (recordChecked st fi ii rs checked))
               !! Z.to_nat fi = Some f' /\
      pillWidthCurrent f' = Some (widthOf (doc st) nc).
Proof.
  unfold recordChecked. rewrite remember_unfold. cbn.
  set (d2 := mark rs (checked !! 1%nat) _ (mark rs (checked !! 0%nat) _ _)).
  assert (H2 : flags_only (doc st) d2) by (subst d2; flags).
  assert (F2 : fieldsets d2 = fieldsets (doc st)).
  { subst d2. unfold mark.
    destruct (radio_at rs (checked !! 1%nat)),
             (radio_at rs (checked !! 0%nat)); reflexivity. }
  split.
  - split_match; flags.
  - intros nc f Hnc Hf. rewrite Hnc.
    assert (Hpos : (fi <? 0)%Z = false).
    { unfold Js.at_index in Hf. destruct (fi <? 0)%Z; [discriminate | auto]. }
    apply at_index_lookup in Hf. rewrite <- F2 in Hf.
    rewrite (widthOf_flags _ _ nc H2).
    split_match; unfold update_fieldset;
      rewrite Hpos; cbn; rewrite !list_lookup_alter_eq, Hf; cbn;
      eexists; split; reflexivity.
Qed.

Lemma check_checked_only d n : checked_only d (check d n).
Proof.
  assert (Hid : forall r, r = set_checked (checked r) r)
    by (intros []; reflexivity).
  unfold check. destruct (store d !! n) as [target|].
  - repeat split; cbn. apply Forall2_same_length_lookup. split.
    + rewrite length_imap. reflexivity.
    + intros i x y Hx Hy. rewrite list_lookup_imap, Hx in Hy.
      cbn in Hy. injection Hy as <-.
      case_bool_decide; [reflexivity |].
      destruct (same_group target x); [reflexivity | apply Hid].
  - repeat split. apply Forall_Forall2_diag, Forall_forall.
    intros r _. apply Hid.
Qed.

Lemma alter_as_insert {A : Type} (h : A -> A) (l : list A) (i : nat) (x : A) :
  l !! i = Some x -> alter h i l = <[i := h x]> l.
Proof.
  revert i. induction l as [| a l IH]; intros [| i] H; try discriminate.
  - cbn in H. injection H as ->. reflexivity.
  - cbn in H |- *. f_equal. exact (IH i H).
Qed.

Lemma update_fieldset_insert d fi (h : Fieldset -> Fieldset) f :
  Js.at_index (fieldsets d) fi = Some f ->
  fieldsets (update_fieldset d fi h)
  = <[Z.to_nat fi := h f]> (fieldsets d).
Proof.
  unfold Js.at_index, update_fieldset. destruct (fi <? 0)%Z; [discriminate |].
  intros H. cbn. apply alter_as_insert, H.
Qed.

Lemma at_index_insert {A : Type} (l : list A) (i : Z) (x y : A) :
  Js.at_index l i = Some x ->
  Js.at_index (<[Z.to_nat i := y]> l) i = Some y.
Proof.
  unfold Js.at_index. destruct (i <? 0)%Z; [discriminate |].
  intros H. apply list_lookup_insert_eq. eapply lookup_lt_Some, H.
Qed.

(** The guarded block rewrites the fieldset of the group and no other:
    its inputs stay, and the current pill width is that of the parent of
    the input now current. *)
Lemma recordChecked_fieldsets st fi ii rs checked f :
  Js.at_index (fieldsets (doc st)) fi = Some f ->
  exists f',
    fieldsets (doc (recordChecked st fi ii rs checked))
    = <[Z.to_nat fi := f']> (fieldsets (doc st)) /\
    inputs f' = inputs f /\
    forall nc, Js.at_index rs ii = Some nc ->
      pillWidthCurrent f' = Some (widthOf (doc st) nc).
Proof.
  intros Hf. unfold recordChecked. rewrite remember_unfold. cbn.
  set (d2 := mark rs (checked !! 1%nat) _ (mark rs (checked !! 0%nat) _ _)).
  assert (H2 : flags_only (doc st) d2) by (subst d2; flags).
  assert (F2 : fieldsets d2 = fieldsets (doc st)).
  { subst d2. unfold mark.
    destruct (radio_at rs (checked !! 1%nat)),
             (radio_at rs (checked !! 0%nat)); reflexivity. }
  rewrite <- F2 in Hf |- *. clearbody d2.
  destruct (Js.at_index rs ii) as [nc|] eqn:Hnc.
  - set (h1 := fun f0 : Fieldset => mkFieldset _ _ _).
    assert (F3 : fieldsets
                   (update_fieldset
                      (update_radio d2 nc (set_currentChecked "true")) fi h1)
                 = <[Z.to_nat fi := h1 f]> (fieldsets d2))
      by exact (update_fieldset_insert
                  (update_radio d2 nc (set_currentChecked "true")) fi h1 f Hf).
    destruct (take 1 checked !! 0%nat ≫= Js.at_index rs) as [np|].
    + eexists. split; [| split].
      * erewrite update_fieldset_insert.
        -- cbn [fieldsets update_radio]. rewrite F3.
           apply list_insert_insert_eq.
        -- cbn [fieldsets update_radio]. rewrite F3.
           eapply at_index_insert. exact Hf.
      * reflexivity.
      * intros nc' [= <-]. cbn. rewrite (widthOf_flags _ _ nc H2).
        reflexivity.
    + exists (h1 f). split; [exact F3 | split; [reflexivity |]].
      intros nc' [= <-]. cbn. rewrite (widthOf_flags _ _ nc H2).
      reflexivity.
  - destruct (take 1 checked !! 0%nat ≫= Js.at_index rs) as [np|].
    + eexists. split; [| split].
      * exact (update_fieldset_insert
                 (update_radio
                    (update_radio d2 np (set_previousChecked "true")) np
                    (set_currentChecked "false")) fi _ f Hf).
      * reflexivity.
      * intros nc' [=].
    + exists f. split; [| split; [reflexivity | intros nc' [=]]].
      symmetry. apply list_insert_id. apply at_index_lookup. exact Hf.
Qed.

End Frames.

(** [connectedCallback] records the inputs of every fieldset but an index
    list only for a fieldset with a checked input, so that the list of the
    second group sits at the place of the first: a choice in the second
    group is not recorded, and a choice in the first group is recorded in
    front of the initial index of the second. *)
Lemma index_lists_shift_by_group :
  checkedIndices (run (init second_group_chosen) [Connected]) = [[2]%Z] /\
  checkedIndices (run (init second_group_chosen)
                    [Connected; Selected (Input 3)]) = [[2]%Z] /\
  checkedIndices (run (init second_group_chosen)
                    [Connected; Selected (Input 1)]) = [[1; 2]%Z].
Proof. vm_compute. repeat split. Qed.

(** The branches of [updateSelectedOption] that record nothing. *)
Ltac solve_unrecorded :=
  split;
  [ intros; split; [assumption |];
    split; [reflexivity | apply check_checked_only]
  | split; [apply flags_only_check, flags_only_refl | repeat split] ].

(** C5, as stated, fails: in a group without an initially checked input,
    nothing is recorded for the input the user checks. *)
Lemma unselected_group_not_tracked :
  ~ tracks_latest (run (init unselected) [Connected; Selected (Input 1)])
      0 1.
Proof. intros [rest H]. vm_compute in H. discriminate. Qed.

(** C5 (amended): every recorded array of checked indices has one or two
    entries, before and after a call of [updateSelectedOption].  In a
    picker whose arrays line up, a call on an input that names a group of
    the picker puts the input's index in front of the array of that
    group, followed by the array's former first entry, and leaves the
    arrays lined up; it rewrites the fieldset of that group only, keeping
    its inputs and setting the current pill width from the parent of the
    input now current.  On any other input nothing is recorded: only
    checked states change.  In either case the call changes nothing but
    that array, the checked flags of the inputs and the pill widths. *)
Theorem checked_indices_track {dom : Dom} (d : Document) (evs : list Event)
    (n : nat) :
  let st := run (init d) evs in
  let st' := step st (Selected (Input n)) in
  Forall short (checkedIndices st) /\
  Forall short (checkedIndices st') /\
  (lined_up st ->
   lined_up st' /\
   match names_group st n with
   | Some (g, ii) =>
       exists checked f f',
         checkedIndices st !! g = Some checked /\
         checkedIndices st'
         = <[g := ii :: take 1 checked]> (checkedIndices st) /\
         fieldsets (doc st) !! g = Some f /\
         fieldsets (doc st') = <[g := f']> (fieldsets (doc st)) /\
         inputs f' = inputs f /\
         (forall rs nc, radios st !! g = Some rs ->
                        Js.at_index rs ii = Some nc ->
                        pillWidthCurrent f' = Some (widthOf (doc st) nc))
   | None =>
       checkedIndices st' = checkedIndices st /\
       checked_only (doc st) (doc st')
   end) /\
  flags_only (doc st) (doc st') /\
  fetches st' = fetches st /\ radios st' = radios st /\
  pendingRequestUrl st' = pendingRequestUrl st /\ console st' = console st.
Proof.
  intros st st'.
  split; [exact (run_short d evs) |].
  split; [exact (step_short st (Selected (Input n)) (run_short d evs)) |].
  assert (E : st' = updateInput st n) by reflexivity.
  clearbody st st'. subst st'.
  unfold names_group, updateInput.
  destruct (Js.parseInt (Js.or_empty (store (doc st) !! n ≫= fieldsetIndex)))
    as [fi|]; [| solve_unrecorded].
  destruct (Js.parseInt (Js.or_empty (store (doc st) !! n ≫= inputIndex)))
    as [ii|]; [| solve_unrecorded].
  destruct (Js.at_index (radios st) fi) as [rs|] eqn:Hrs;
    [| solve_unrecorded].
  destruct (Js.at_index (fieldsets (doc st)) fi) as [f|] eqn:Hf;
    [| destruct (Js.at_index (checkedIndices st) fi); solve_unrecorded].
  destruct (Js.at_index (checkedIndices st) fi) as [checked|] eqn:Hci.
  - destruct (recordChecked_doc st fi ii rs checked) as [Hflags _].
    destruct (recordChecked_fieldsets st fi ii rs checked f Hf)
      as (f' & Hfs & Hin & Hw).
    split; [intros Hl; split |].
    + unfold lined_up. cbn. rewrite length_insert. exact Hl.
    + exists checked, f, f'. cbn [checkedIndices doc with_doc].
      split; [apply at_index_lookup; exact Hci |].
      split; [rewrite <- remember_unfold; reflexivity |].
      split; [apply at_index_lookup; exact Hf |].
      split; [| split; [exact Hin |]].
      * rewrite <- Hfs. unfold check.
        destruct (store _ !! n); reflexivity.
      * intros rs' nc Hrs' Hnc. apply at_index_lookup in Hrs.
        rewrite Hrs in Hrs'. injection Hrs' as <-. exact (Hw nc Hnc).
    + split; [| repeat split].
      cbn [doc with_doc]. apply flags_only_check. exact Hflags.
  - split; [intros Hl; exfalso |].
    + unfold Js.at_index in Hrs, Hci.
      destruct (fi <? 0)%Z; [discriminate |].
      apply lookup_lt_Some in Hrs. apply lookup_ge_None in Hci.
      unfold lined_up in Hl. lia.
    + split; [apply flags_only_check, flags_only_refl | repeat split].
Qed.

(** Checking the third size after the first was the initial choice: the
    recorded array becomes [2; 0]. *)
Lemma checked_indices_track_witness :
  let st := run (init sizes) [Connected] in
  let st' := step st (Selected (Input 2)) in
  lined_up st /\
  exists checked f f',
    checkedIndices st !! 0%nat = Some checked /\
    checkedIndices st'
    = <[0%nat := 2%Z :: take 1 checked]> (checkedIndices st) /\
    fieldsets (doc st) !! 0%nat = Some f /\
    fieldsets (doc st') = <[0%nat := f']> (fieldsets (doc st)) /\
    inputs f' = inputs f /\
    (forall rs nc, radios st !! 0%nat = Some rs ->
                   Js.at_index rs 2 = Some nc ->
                   pillWidthCurrent f' = Some (widthOf (doc st) nc)).
Proof.
  intros st st'.
  assert (Hl : lined_up st) by reflexivity.
  split; [exact Hl |].
  destruct (checked_indices_track sizes [Connected] 2) as (_ & _ & H & _).
  exact (proj2 (H Hl)).
Defined.

End VariantFacts.

(** ** Quick add, and the fetch discipline of the three components *)

Module QuickAddFacts.

Import QuickAdd.

Section Frames.

Context {dom : Dom}.

(** Under that condition [fetchProductPage] leaves its own fetch as the
    only one in flight. *)
Lemma fetchProductPage_alone st u :
  supervised st -> Js.truthy u = true ->
  inflight (fetchProductPage st u).1.1
  = [Fetch.mkPending (next_fetch st) u false].
Proof.
  intros H Hu. unfold fetchProductPage. rewrite Hu. cbn.
  assert (E : (Fetch.abort (abortController st) (inflight st)).1 = []).
  { destruct H as [H | (f & Hf & Hc)].
    - rewrite H. destruct (abortController st); reflexivity.
    - rewrite Hf, Hc. cbn. rewrite decide_False by tauto. reflexivity. }
  destruct (Fetch.abort (abortController st) (inflight st))
    as [kept aborted]. cbn in E. subst kept. reflexivity.
Qed.

Lemma catchBlock_abort e :
  Fetch.is_abort e = true -> catchBlock e = Fetch.Return None.
Proof. unfold catchBlock. intros ->. reflexivity. Qed.

Lemma catchBlock_other e :
  Fetch.is_abort e = false -> catchBlock e = Fetch.Throw e.
Proof. unfold catchBlock. intros ->. reflexivity. Qed.

Lemma httpError_not_abort status : Fetch.is_abort (httpError status) = false.
Proof. reflexivity. Qed.

End Frames.

(** Three clicks in a row leave two fetches in flight: the [finally] block
    of the first, aborted, fetch has forgotten the controller of the
    second, which the third click can then no longer abort. *)
Lemma three_clicks_two_outstanding :
  outstanding
    (run init [Connected; Click "/products/a"; Click "/products/b";
               Click "/products/c"]) = 2%nat.
Proof. vm_compute. reflexivity. Qed.

End QuickAddFacts.


(** ** Drag-zoom wrapper *)

Module DragZoomFacts.

Import DragZoom.

#[local] Open Scope float_scope.

(** Case analysis on every test the goal still branches on, innermost
    test first. *)
Ltac branches :=
  repeat (cbn;
          match goal with
          | |- context [match ?b with _ => _ end] =>
              lazymatch b with
              | context [match _ with _ => _ end] => fail
              | _ => destruct b eqn:?
              end
          end).

Section Frames.

Variable clamp : float -> float -> float -> float.

Lemma constrainTranslation_wiring st l :
  closeOverridden (constrainTranslation clamp st l) = closeOverridden st.
Proof. unfold constrainTranslation. branches; reflexivity. Qed.

Lemma updateTransform_wiring st l :
  closeOverridden (updateTransform clamp st l) = closeOverridden st.
Proof.
  unfold updateTransform. cbn. rewrite constrainTranslation_wiring.
  reflexivity.
Qed.

Ltac wiring :=
  unfold requestUpdateTransform, cancelAnimationFrame; cbn;
  repeat (first [rewrite updateTransform_wiring
                | rewrite constrainTranslation_wiring]; cbn).

Lemma step_keeps_override st e :
  closeOverridden st = true -> closeOverridden (step clamp st e) = true.
Proof.
  intros H. destruct e; cbn.
  - unfold connectedCallback, setupDialogCloseListener, initEventListeners.
    branches; wiring; auto.
  - exact H.
  - exact H.
  - unfold handleResize, initEventListeners.
    branches; wiring; auto.
  - unfold handleTouchStart, handleDoubleTapFromTouch.
    branches; wiring; auto.
  - unfold handleTouchMove, processDragGesture. branches; wiring; auto.
  - unfold handleTouchEnd. branches; wiring; auto.
  - destruct (animationFrame st); [| exact H]. wiring. exact H.
  - unfold dialogClose. rewrite H. exact H.
Qed.

Lemma step_pristine st e :
  enclosed e -> pristine st ->
  closeOverridden (step clamp st e) = true \/ pristine (step clamp st e).
Proof.
  intros He (Hs & Ht & Hl & Ho & Hf). destruct e; cbn.
  - cbn in He. unfold connectedCallback, setupDialogCloseListener.
    rewrite He. destruct (image l); [| right; repeat split; assumption].
    left. unfold initEventListeners.
    branches; wiring; reflexivity.
  - right. repeat split; assumption.
  - right. repeat split; assumption.
  - rewrite Ho. right. repeat split; assumption.
  - rewrite Hl. right. repeat split; assumption.
  - rewrite Hl. right. repeat split; assumption.
  - rewrite Hl. right. repeat split; assumption.
  - rewrite Hf. right. repeat split; assumption.
  - right. unfold dialogClose.
    destruct (closeOverridden st); repeat split; try assumption; reflexivity.
Qed.

Lemma run_overridden_or_pristine evs :
  Forall enclosed evs ->
  closeOverridden (run clamp init evs) = true \/ pristine (run clamp init evs).
Proof.
  induction evs as [| e evs IH] using rev_ind; intros H.
  - right. repeat split.
  - apply Forall_app in H as [H He]. apply Forall_inv in He.
    unfold run. rewrite foldl_snoc.
    destruct (IH H) as [Hc | Hp].
    + left. apply step_keeps_override, Hc.
    + exact (step_pristine _ _ He Hp).
Qed.

Hypothesis clamp_bounded : forall v, bounded (clamp v MIN_ZOOM MAX_ZOOM).

Ltac bounded_scale H :=
  first [exact H | apply clamp_bounded | right; vm_compute; reflexivity].

(** Every handler leaves a scale that is [NaN] or within the bounds. *)
Lemma step_bounded st e :
  bounded (scale st) -> bounded (scale (step clamp st e)).
Proof.
  intros H. destruct e; cbn.
  - unfold connectedCallback, setupDialogCloseListener, initEventListeners,
      updateTransform, constrainTranslation.
    branches; bounded_scale H.
  - exact H.
  - exact H.
  - unfold handleResize, initEventListeners, requestUpdateTransform,
      updateTransform, constrainTranslation.
    branches; bounded_scale H.
  - unfold handleTouchStart, handleDoubleTapFromTouch,
      requestUpdateTransform.
    branches; bounded_scale H.
  - unfold handleTouchMove, processZoomGesture, processDragGesture,
      requestUpdateTransform.
    branches; bounded_scale H.
  - unfold handleTouchEnd, requestUpdateTransform. branches; bounded_scale H.
  - unfold updateTransform, constrainTranslation. branches; bounded_scale H.
  - unfold dialogClose. branches; bounded_scale H.
Qed.

Lemma run_bounded evs : bounded (scale (run clamp init evs)).
Proof.
  induction evs as [| e evs IH] using rev_ind.
  - right. reflexivity.
  - unfold run. rewrite foldl_snoc. apply step_bounded, IH.
Qed.

(** With a client box and an image, [#updateTransform] clamps the scale
    and drops the translation at the minimum zoom. *)
Lemma updateTransform_constrains st l w h :
  image l = Some (w, h) ->
  falsy (clientWidth l) = false -> falsy (clientHeight l) = false ->
  let st' := updateTransform clamp st l in
  scale st' = clamp (scale st) MIN_ZOOM MAX_ZOOM /\
  ((scale st' <=? MIN_ZOOM) = true -> translate st' = origin).
Proof.
  intros Hi Hw Hh. unfold updateTransform, constrainTranslation.
  cbn. rewrite Hi, Hw, Hh. cbn.
  destruct (clamp (scale st) MIN_ZOOM MAX_ZOOM <=? MIN_ZOOM) eqn:E.
  - cbn. split; reflexivity.
  - branches; cbn; (split; [reflexivity | rewrite E; discriminate]).
Qed.

End Frames.

Lemma clamp_numbers_bounded (v : float) :
  bounded (clamp_numbers v MIN_ZOOM MAX_ZOOM).
Proof.
  unfold clamp_numbers, bounded, zoom_in_range.
  destruct ((MIN_ZOOM <=? v) && (v <=? MAX_ZOOM)) eqn:E; [right; exact E |].
  destruct (v <? MIN_ZOOM); [right; reflexivity |].
  destruct (MAX_ZOOM <? v); [right; reflexivity | left; reflexivity].
Qed.

(** Two touches on the same point, with no pinch started before, make the
    scale [NaN]: the quotient of the two distances is 0 / 0. *)
Lemma coincident_touches_not_a_number :
  is_nan
    (scale
       (run clamp_numbers init
          [Connected block_layout;
           TouchMove [mkTouch 10 10; mkTouch 10 10] block_layout]))
  = true.
Proof. vm_compute. reflexivity. Qed.

(** C9, as stated, fails: on a wrapper without a client box a pinch down
    to the minimum zoom leaves the translation the pinch produced. *)
Lemma pinch_without_box_not_constrained :
  ~ constrained (run clamp_numbers init (pinch_in inline_layout)).
Proof.
  intros [_ H].
  assert (E : (scale (run clamp_numbers init (pinch_in inline_layout))
               <=? MIN_ZOOM) = true) by (vm_compute; reflexivity).
  apply H in E.
  apply (f_equal (fun p => x p =? 0)) in E. vm_compute in E. discriminate.
Qed.

(** C9 (amended): with a clamp that gives a number within its bounds or
    [NaN], the scale of the wrapper is at every point [NaN] or within
    [MIN_ZOOM, MAX_ZOOM]; and when the wrapper has a client box and an
    image, a transform update that leaves a scale that is a number leaves
    it within the bounds and, at the minimum zoom, leaves the translation
    at the origin. *)
Theorem transform_constrained (clamp : float -> float -> float -> float)
    (evs : list Event) (l : Layout) (w h : float) :
  (forall v, bounded (clamp v MIN_ZOOM MAX_ZOOM)) ->
  image l = Some (w, h) ->
  falsy (clientWidth l) = false -> falsy (clientHeight l) = false ->
  let st := run clamp init evs in
  let st' := updateTransform clamp st l in
  bounded (scale st) /\
  (is_nan (scale st') = false -> constrained st').
Proof.
  intros Hc Hi Hw Hh st st'. split; [apply run_bounded, Hc |].
  destruct (updateTransform_constrains clamp st l w h Hi Hw Hh) as [Hs Ht].
  fold st' in Hs, Ht. intros Hn. split; [| exact Ht].
  destruct (Hc (scale st)) as [Hnan | Hr]; rewrite <- Hs in *.
  - rewrite Hnan in Hn. discriminate.
  - exact Hr.
Qed.

Lemma transform_constrained_witness :
  let st := run clamp_numbers init (pinch_in block_layout) in
  let st' := updateTransform clamp_numbers st block_layout in
  bounded (scale st) /\
  (is_nan (scale st') = false -> constrained st').
Proof.
  apply (transform_constrained clamp_numbers (pinch_in block_layout)
           block_layout 600 600).
  - exact clamp_numbers_bounded.
  - reflexivity.
  - reflexivity.
  - reflexivity.
Defined.

(** C6: when the zoom dialog that encloses the wrapper is closed, the
    scale is back at the default zoom and the translation at the origin,
    whatever happened before; the style shows the same. *)
Theorem dialog_close_resets (clamp : float -> float -> float -> float)
    (evs : list Event) :
  Forall enclosed evs ->
  let st := step clamp (run clamp init evs) DialogClose in
  scale st = DEFAULT_ZOOM /\ translate st = origin /\
  (closeOverridden st = true ->
   style st = Some (mkStyle DEFAULT_ZOOM 0 0)).
Proof.
  intros H. cbn. unfold dialogClose.
  destruct (run_overridden_or_pristine clamp evs H) as [Hc | (Hs & Ht & _)].
  - rewrite Hc. repeat split.
  - destruct (closeOverridden (run clamp init evs)) eqn:Hc.
    + repeat split.
    + rewrite Hc. repeat split; [assumption | assumption | discriminate].
Qed.

Lemma dialog_close_resets_witness :
  let st :=
    step clamp_numbers (run clamp_numbers init (pinch_in block_layout))
      DialogClose in
  scale st = DEFAULT_ZOOM /\ translate st = origin /\
  (closeOverridden st = true ->
   style st = Some (mkStyle DEFAULT_ZOOM 0 0)).
Proof.
  apply (dialog_close_resets clamp_numbers (pinch_in block_layout)).
  repeat constructor.
Defined.

End DragZoomFacts.

(** ** Fetch discipline and fetch failures across the components *)

Module FetchFacts.

(** C1, as stated, fails: connecting a paginated list that shows page 2
    of 3 leaves the fetches of page 3 and of page 1 outstanding
    together. *)
Lemma page_fetches_overlap :
  ~ (PaginatedList.outstanding PaginatedList.connected_on_page_2 <= 1)%nat.
Proof. vm_compute. lia. Qed.

(** C1 (amended): a variant picker has at most one fetch outstanding at
    any point of any run; [fetchProductPage] of the quick-add component
    aborts the fetch of the controller it holds, so that a call made while
    the component holds the controller of its fetch in flight leaves the
    new fetch as the only one; the paginated list has no abort controller,
    and a page fetch it has issued stays outstanding until it arrives or
    fails. *)
Theorem one_fetch_under_own_controller :
  (forall (dom : VariantPicker.Dom) (d : VariantPicker.Document)
          (evs : list VariantPicker.Event),
      (VariantPicker.outstanding
         (VariantPicker.run (VariantPicker.init d) evs) <= 1)%nat) /\
  (forall (st : QuickAdd.t) (u : string),
      QuickAdd.supervised st -> Js.truthy u = true ->
      QuickAdd.inflight (QuickAdd.fetchProductPage st u).1.1
      = [Fetch.mkPending (QuickAdd.next_fetch st) u false]) /\
  (forall (dom : PaginatedList.Dom) (st : PaginatedList.t)
          (e : PaginatedList.Event) (q : PaginatedList.Request),
      q ∈ PaginatedList.requests st ->
      q ∈ PaginatedList.requests (PaginatedList.step st e) \/
      (exists html,
          e = PaginatedList.Arrived (PaginatedList.req_id q) html) \/
      e = PaginatedList.Failed (PaginatedList.req_id q)).
Proof.
  split; [| split].
  - intros dom d evs. apply VariantFacts.picker_one_outstanding.
  - intros st u. apply QuickAddFacts.fetchProductPage_alone.
  - intros dom st e q. apply PaginatedFacts.page_fetch_never_aborted.
Qed.

(** A second click while the first fetch is in flight. *)
Lemma one_fetch_under_own_controller_witness :
  QuickAdd.inflight
    (QuickAdd.fetchProductPage QuickAdd.first_click "/products/b").1.1
  = [Fetch.mkPending 1 "/products/b" false].
Proof.
  destruct one_fetch_under_own_controller as (_ & H & _).
  apply (H QuickAdd.first_click "/products/b"%string).
  - right. eexists. split; reflexivity.
  - reflexivity.
Defined.

(** C7, as stated, fails: when the fetch that [disconnectedCallback] has
    aborted resumes, the [finally] block of [fetchProductPage] sets the
    controller field, which still holds the controller of that fetch, to
    [null]: the component is not left as it was. *)
Lemma abort_forgets_controller :
  ~ QuickAdd.abort_changes_nothing QuickAdd.aborted_on_disconnect.
Proof.
  unfold QuickAdd.abort_changes_nothing. intros H.
  apply (f_equal (fun p => QuickAdd.abortController p.1)) in H.
  vm_compute in H. discriminate.
Qed.

(** C7 (amended): whichever way a fetch of the variant picker fails, by
    the rejection of the fetch or of the reading of the body, the picker
    only adds one console entry, the warning for an [AbortError] and the
    error itself otherwise, and aborting the fetch in flight adds that
    warning.  [fetchProductPage] of the quick-add component gives [null]
    for an [AbortError] and throws every other error again, whether the
    fetch or the reading of the body was rejected, and throws a new error
    for a response that is not ok; when it ends while the component holds
    the controller of its fetch, its [finally] block sets the field to
    [null] and nothing else changes.  An error it throws rejects
    [handleClick], where nothing handles it. *)
Theorem fetch_failures_handled :
  (forall (dom : VariantPicker.Dom) (st : VariantPicker.t)
          (f : Fetch.Pending) (o : Fetch.Outcome) (e : Fetch.Error),
      Fetch.failure o = Some e ->
      VariantPicker.settle st f o
      = VariantPicker.log st
          (if Fetch.is_abort e
           then VariantPicker.Warn "Fetch aborted by user"
           else VariantPicker.Error e)) /\
  (forall (st : VariantPicker.t) (f : Fetch.Pending) (u : string) (m : bool),
      VariantPicker.inflight st = [f] ->
      VariantPicker.abortController st = Some (Fetch.id f) ->
      VariantPicker.console (VariantPicker.fetchUpdatedSection st u m)
      = VariantPicker.console st
        ++ [VariantPicker.Warn "Fetch aborted by user"]) /\
  (forall (st : QuickAdd.t) (o : Fetch.Outcome) (e : Fetch.Error),
      Fetch.failure o = Some e ->
      (forall r, o = Fetch.Fulfilled r -> Fetch.ok r = true) ->
      (QuickAdd.fetchProductPageSettled st o).2
      = if Fetch.is_abort e then Fetch.Return None else Fetch.Throw e) /\
  (forall (st : QuickAdd.t) (r : Fetch.Response),
      Fetch.ok r = false ->
      (QuickAdd.fetchProductPageSettled st (Fetch.Fulfilled r)).2
      = Fetch.Throw (QuickAdd.httpError (Fetch.status r))) /\
  (forall (st : QuickAdd.t) (f : Fetch.Pending) (o : Fetch.Outcome),
      QuickAdd.abortController st = Some (Fetch.id f) ->
      let st' := (QuickAdd.fetchProductPageSettled st o).1 in
      QuickAdd.abortController st' = None /\
      st' = QuickAdd.with_controller st None) /\
  (forall (dom : QuickAdd.Dom) (st : QuickAdd.t) (u : string)
          (e : Fetch.Error),
      QuickAdd.handleClickResumed st u (Fetch.Throw e)
      = QuickAdd.reject st e).
Proof.
  split; [| split; [| split; [| split; [| split]]]].
  - intros dom st f o e Ho. destruct o as [r | e0]; cbn in Ho |- *.
    + destruct (Fetch.body r) as [s | e0]; [discriminate |].
      injection Ho as ->. unfold VariantPicker.catchCallback.
      destruct (Fetch.is_abort e); reflexivity.
    + injection Ho as ->. unfold VariantPicker.catchCallback.
      destruct (Fetch.is_abort e); reflexivity.
  - intros st f u m Hf Hc. unfold VariantPicker.fetchUpdatedSection.
    rewrite Hf, Hc. cbn. rewrite decide_False by tauto.
    rewrite decide_True by reflexivity. reflexivity.
  - intros st o e Ho Hok.
    unfold QuickAdd.fetchProductPageSettled, QuickAdd.catchBlock.
    destruct o as [r | e0]; cbn in Ho |- *.
    + rewrite (Hok r eq_refl). cbn.
      destruct (Fetch.body r) as [s | e0]; [discriminate |].
      injection Ho as ->. reflexivity.
    + injection Ho as ->. reflexivity.
  - intros st r Hok. unfold QuickAdd.fetchProductPageSettled.
    rewrite Hok. reflexivity.
  - intros st f o _. split; reflexivity.
  - intros dom st u e. reflexivity.
Qed.

(** The fetch of the first click, aborted by [disconnectedCallback],
    gives [null] and leaves the component without a controller; a
    response that is not ok is thrown as an error. *)
Lemma fetch_failures_handled_witness :
  QuickAdd.fetchProductPageSettled QuickAdd.aborted_on_disconnect
    (Fetch.Rejected Fetch.AbortError)
  = (QuickAdd.with_controller QuickAdd.aborted_on_disconnect None,
     Fetch.Return None) /\
  (QuickAdd.fetchProductPageSettled QuickAdd.aborted_on_disconnect
     (Fetch.Fulfilled (Fetch.mkResponse false 404 (Fetch.Text "gone")))).2
  = Fetch.Throw (QuickAdd.httpError 404).
Proof.
  destruct fetch_failures_handled as (_ & _ & Ha & Hr & Hs & _). split.
  - apply injective_projections.
    + apply (Hs QuickAdd.aborted_on_disconnect
               (Fetch.mkPending 0 "/products/a" false)
               (Fetch.Rejected Fetch.AbortError)). reflexivity.
    + apply (Ha QuickAdd.aborted_on_disconnect
               (Fetch.Rejected Fetch.AbortError) Fetch.AbortError).
      * reflexivity.
      * intros r [=].
  - apply (Hr QuickAdd.aborted_on_disconnect
              (Fetch.mkResponse false 404 (Fetch.Text "gone"))).
    reflexivity.
Defined.

End FetchFacts.

(** ** Disclosure and quantity selector, continued *)

Module WidgetFacts.

(** From the first toggle on the disclosure is in step with itself,
    whatever the markup was: the content is inert exactly when the
    trigger is collapsed, the label names the state, and two more
    toggles give back the whole state. *)
Theorem toggle_period_two (d : Disclosure.t) :
  let d1 := Disclosure.toggleDisclosure d in
  Disclosure.toggleDisclosure (Disclosure.toggleDisclosure d1) = d1 /\
  Disclosure.inert d1 = negb (Disclosure.expanded d1) /\
  Disclosure.aria_label d1
  = Some (Js.template (if Disclosure.expanded d1
                       then Disclosure.disclosureClose d
                       else Disclosure.disclosureOpen d)).
Proof.
  cbn. unfold Disclosure.toggleDisclosure, Disclosure.expanded. cbn.
  destruct (bool_decide (Disclosure.aria_expanded d = Some "true"%string));
    cbn; repeat split.
Qed.

Section Rules.

Variable sanitize : string -> string.

(** A value that parses to a number within the bounds, or that does not
    parse at all, goes through [#checkQuantityRules] untouched. *)
Lemma checkQuantityRules_fixes (i : Quantity.Input) :
  (forall n, Js.parseInt (Quantity.value i) = Some n ->
     (forall m, Quantity.lower_bound i m -> (m <= n)%Z) /\
     (forall M, Quantity.upper_bound i M -> (n <= M)%Z)) ->
  Quantity.checkQuantityRules sanitize i = i.
Proof.
  intros H. unfold Quantity.checkQuantityRules.
  destruct (Js.parseInt (Quantity.value i)) as [n|] eqn:Hv.
  - destruct (H n eq_refl) as [Hlo Hhi].
    assert (E1 : Js.lt (Some n) (Js.parseInt (Quantity.min i))
                 && Js.truthy (Quantity.min i) = false).
    { destruct (Js.truthy (Quantity.min i)) eqn:Ht;
        [| apply andb_false_r].
      apply truthy_nonempty in Ht. rewrite andb_true_r.
      destruct (Js.parseInt (Quantity.min i)) as [m|] eqn:Hm; [| reflexivity].
      cbn. apply Z.ltb_ge. apply Hlo. split; assumption. }
    assert (E2 : Js.gt (Some n) (Js.parseInt (Quantity.max i))
                 && Js.truthy (Quantity.max i) = false).
    { destruct (Js.truthy (Quantity.max i)) eqn:Ht;
        [| apply andb_false_r].
      apply truthy_nonempty in Ht. rewrite andb_true_r.
      destruct (Js.parseInt (Quantity.max i)) as [M|] eqn:HM; [| reflexivity].
      cbn. apply Z.ltb_ge. apply Hhi. split; assumption. }
    rewrite E1, E2. reflexivity.
  - unfold Js.gt. cbn.
    destruct (Js.parseInt (Quantity.max i)); reflexivity.
Qed.

End Rules.

(** [#checkQuantityRules] never alters a value that is within the bounds
    of the input, nor one that does not parse as an integer: it assigns
    nothing, so the value is not even passed through the input's value
    sanitization. *)
Theorem valid_quantity_untouched (sanitize : string -> string)
    (i : Quantity.Input) :
  (forall n, Js.parseInt (Quantity.value i) = Some n ->
     (forall m, Quantity.lower_bound i m -> (m <= n)%Z) /\
     (forall M, Quantity.upper_bound i M -> (n <= M)%Z)) ->
  Quantity.checkQuantityRules sanitize i = i.
Proof. apply checkQuantityRules_fixes. Qed.

Lemma valid_quantity_untouched_witness :
  let i := {| Quantity.value := "7"; Quantity.min := "1";
              Quantity.max := "10"; Quantity.cartLine := None |} in
  Quantity.checkQuantityRules (fun _ => "0"%string) i = i.
Proof.
  intro i. apply (valid_quantity_untouched (fun _ => "0"%string) i).
  intros n Hn. vm_compute in Hn. injection Hn as <-. split.
  - intros m [_ Hm]. vm_compute in Hm. injection Hm as <-. lia.
  - intros M [_ HM]. vm_compute in HM. injection HM as <-. lia.
Defined.

(** The maximum has the last word: a value above a non-empty integer
    [max] ends as [max] (as the value setter stores it), also when [min]
    lies above [max] and the value was first raised to [min]. *)
Theorem quantity_above_max_set_to_max (sanitize : string -> string)
    (i : Quantity.Input) (n M : Z) :
  Js.parseInt (Quantity.value i) = Some n ->
  Quantity.upper_bound i M ->
  (M < n)%Z ->
  Quantity.value (Quantity.checkQuantityRules sanitize i)
  = sanitize (Quantity.max i).
Proof.
  intros Hv [Hne HM] Hlt. unfold Quantity.checkQuantityRules.
  rewrite Hv, HM. apply truthy_nonempty in Hne. rewrite Hne.
  unfold Js.gt. cbn. rewrite (proj2 (Z.ltb_lt M n) Hlt). cbn.
  reflexivity.
Qed.

(** With [min="5"] and [max="3"], the value 4 is below the one and above
    the other: it ends at 3, below the minimum. *)
Lemma quantity_above_max_set_to_max_witness :
  Quantity.value
    (Quantity.checkQuantityRules Quantity.plain
       {| Quantity.value := "4"; Quantity.min := "5";
          Quantity.max := "3"; Quantity.cartLine := None |})
  = "3"%string.
Proof.
  apply (quantity_above_max_set_to_max Quantity.plain
           {| Quantity.value := "4"; Quantity.min := "5";
              Quantity.max := "3"; Quantity.cartLine := None |} 4 3).
  - reflexivity.
  - split; [discriminate | reflexivity].
  - lia.
Defined.

(** Checking a second time changes nothing more, under the conditions
    under which the first check clamps: the value parses, the setter
    stores the bounds unchanged, and the bounds are ordered. *)
Theorem quantity_check_idempotent (sanitize : string -> string)
    (i : Quantity.Input) (n : Z) :
  Js.parseInt (Quantity.value i) = Some n ->
  sanitize (Quantity.min i) = Quantity.min i ->
  sanitize (Quantity.max i) = Quantity.max i ->
  (forall m M, Quantity.lower_bound i m -> Quantity.upper_bound i M ->
               (m <= M)%Z) ->
  Quantity.checkQuantityRules sanitize
    (Quantity.checkQuantityRules sanitize i)
  = Quantity.checkQuantityRules sanitize i.
Proof.
  intros Hv Hmin Hmax Hord.
  destruct (checkQuantityRules_clamps sanitize i n Hv Hmin Hmax Hord)
    as (Em & EM & _ & n' & Hn' & Hlo & Hhi).
  apply checkQuantityRules_fixes. intros k Hk.
  rewrite Hn' in Hk. injection Hk as <-.
  unfold Quantity.lower_bound, Quantity.upper_bound.
  rewrite Em, EM. split; assumption.
Qed.

Lemma quantity_check_idempotent_witness :
  let i := {| Quantity.value := "12"; Quantity.min := "1";
              Quantity.max := "10"; Quantity.cartLine := None |} in
  Quantity.checkQuantityRules Quantity.plain
    (Quantity.checkQuantityRules Quantity.plain i)
  = Quantity.checkQuantityRules Quantity.plain i.
Proof.
  intro i. apply (quantity_check_idempotent Quantity.plain i 12).
  - reflexivity.
  - reflexivity.
  - reflexivity.
  - intros m M [_ Hm] [_ HM]. vm_compute in Hm, HM.
    injection Hm as <-. injection HM as <-. lia.
Defined.

End WidgetFacts.

(** ** Drag-zoom wrapper, continued *)

Module GestureFacts.

Import DragZoom Invariants DragZoomFacts.

#[local] Open Scope float_scope.

Section Signal.

Variable clamp : float -> float -> float -> float.

Lemma constrainTranslation_signal st l :
  aborted (constrainTranslation clamp st l) = aborted st /\
  listening (constrainTranslation clamp st l) = listening st.
Proof. unfold constrainTranslation. branches; split; reflexivity. Qed.

Lemma updateTransform_signal st l :
  aborted (updateTransform clamp st l) = aborted st /\
  listening (updateTransform clamp st l) = listening st.
Proof.
  unfold updateTransform. cbn.
  destruct (constrainTranslation_signal (with_frame st false) l) as [-> ->].
  split; reflexivity.
Qed.

Ltac signal :=
  repeat (rewrite (proj1 (updateTransform_signal _ _))
          || rewrite (proj2 (updateTransform_signal _ _))
          || rewrite (proj1 (constrainTranslation_signal _ _))
          || rewrite (proj2 (constrainTranslation_signal _ _))
          || cbn).

(** Once the signal of the listeners is aborted, no handler adds a
    listener again. *)
Lemma step_deaf st e :
  aborted st = true -> listening st = false ->
  aborted (step clamp st e) = true /\ listening (step clamp st e) = false.
Proof.
  intros Ha Hl. destruct e; cbn; rewrite ?Hl; try (split; auto; fail).
  - unfold connectedCallback, setupDialogCloseListener, initEventListeners.
    branches; signal; rewrite ?Ha, ?Hl; split; auto.
  - unfold handleResize, initEventListeners, requestUpdateTransform.
    branches; signal; rewrite ?Ha, ?Hl; split; auto.
  - destruct (animationFrame st); [| split; auto].
    destruct (updateTransform_signal st l) as [-> ->]. split; auto.
  - unfold dialogClose. destruct (closeOverridden st); split; auto.
Qed.

Lemma run_deaf st evs :
  aborted st = true -> listening st = false ->
  aborted (run clamp st evs) = true /\ listening (run clamp st evs) = false.
Proof.
  intros Ha Hl. induction evs as [| e evs IH] using rev_ind.
  - split; assumption.
  - unfold run. rewrite foldl_snoc. destruct IH as [IHa IHl].
    exact (step_deaf _ e IHa IHl).
Qed.

End Signal.

(** A wrapper that has been disconnected or destroyed never handles a
    touch again, whatever happens to it afterwards and also when it is
    connected anew: its abort controller is made once, with the element,
    and every later listener would be added under the aborted signal. *)
Theorem disconnected_wrapper_stays_deaf
    (clamp : float -> float -> float -> float) (st0 : t) (evs : list Event) :
  forall st,
    st = run clamp (disconnectedCallback st0) evs \/
    st = run clamp (destroy st0) evs ->
    listening st = false /\
    (forall touches currentTime l,
        step clamp st (TouchStart touches currentTime l) = st) /\
    (forall touches l, step clamp st (TouchMove touches l) = st) /\
    (forall remaining, step clamp st (TouchEnd remaining) = st).
Proof.
  intros st H.
  assert (Hl : listening st = false).
  { destruct H as [-> | ->]; apply run_deaf; reflexivity. }
  split; [exact Hl |]. cbn. rewrite Hl. repeat split.
Qed.

(** A wrapper that is connected, disconnected and connected again. *)
Lemma disconnected_wrapper_stays_deaf_witness :
  let st :=
    run clamp_numbers
      (disconnectedCallback (run clamp_numbers init [Connected block_layout]))
      [Connected block_layout] in
  listening st = false /\
  (forall touches currentTime l,
      step clamp_numbers st (TouchStart touches currentTime l) = st) /\
  (forall touches l, step clamp_numbers st (TouchMove touches l) = st) /\
  (forall remaining, step clamp_numbers st (TouchEnd remaining) = st).
Proof.
  intro st.
  refine (disconnected_wrapper_stays_deaf clamp_numbers
            (run clamp_numbers init [Connected block_layout])
            [Connected block_layout] st _).
  left. reflexivity.
Defined.

(** A double tap leaves the scale at the minimum zoom with the image
    centred, or at the default zoom; the latter only when no pinch has
    been made since the last reset of the flag and the scale was within
    0.05 of the minimum.  It clears the manual-zoom flag, asks for a
    transform update, and forgets the tap: the touch that follows is
    never taken for a double tap. *)
Theorem double_tap_toggles (st : t) (touch : Touch) (currentTime : float)
    (l : Layout) :
  double_tap st touch currentTime = true ->
  let st' := handleTouchStart st [touch] currentTime l in
  ((scale st' = MIN_ZOOM /\ translate st' = origin) \/
   (scale st' = DEFAULT_ZOOM /\ hasManualZoom st = false /\
    (abs (scale st - MIN_ZOOM) <? 0.05) = true)) /\
  hasManualZoom st' = false /\
  animationFrame st' = true /\
  isDragging st' = isDragging st /\
  (forall touch' currentTime', double_tap st' touch' currentTime' = false).
Proof.
  unfold double_tap. intros H. apply andb_true_iff in H as [Ht Hd].
  apply negb_true_iff in Ht.
  destruct (lastTapPosition st) as [p|] eqn:Hp; [| discriminate].
  cbv zeta. unfold handleTouchStart. rewrite Ht, Hp, Hd.
  unfold handleDoubleTapFromTouch.
  destruct (hasManualZoom st) eqn:Hm; cbn.
  - repeat split; try (left; split; reflexivity).
    intros. cbn. apply andb_false_r.
  - destruct (abs (scale st - MIN_ZOOM) <? 0.05) eqn:Hs; cbn.
    + repeat split; try assumption;
        try (right; repeat split; reflexivity).
      intros. cbn. apply andb_false_r.
    + repeat split; try assumption; try (left; split; reflexivity).
      intros. cbn. apply andb_false_r.
Qed.

(** Two taps on the same spot, 100 ms apart, on a wrapper at its default
    zoom. *)
Lemma double_tap_toggles_witness :
  let st := handleTouchStart init [mkTouch 20 20] 1000 block_layout in
  let st' := handleTouchStart st [mkTouch 20 20] 1100 block_layout in
  ((scale st' = MIN_ZOOM /\ translate st' = origin) \/
   (scale st' = DEFAULT_ZOOM /\ hasManualZoom st = false /\
    (abs (scale st - MIN_ZOOM) <? 0.05) = true)) /\
  hasManualZoom st' = false /\
  animationFrame st' = true /\
  isDragging st' = isDragging st /\
  (forall touch' currentTime', double_tap st' touch' currentTime' = false).
Proof.
  intros st.
  apply (double_tap_toggles st (mkTouch 20 20) 1100 block_layout).
  vm_compute. reflexivity.
Defined.

End GestureFacts.

(** ** Paginated list, continued *)

Module PageFacts.

Import PaginatedList Invariants PaginatedFacts.

Section Ids.

Context {dom : Dom}.

Lemma quiet_refl st : quiet st st.
Proof. split; reflexivity. Qed.

Lemma quiet_trans st1 st2 st3 : quiet st1 st2 -> quiet st2 st3 -> quiet st1 st3.
Proof. intros [? ?] [? ?]. split; congruence. Qed.

Lemma quiet_fresh st st' : quiet st st' -> ids_fresh st -> ids_fresh st'.
Proof. unfold quiet, ids_fresh. intros [-> ->]. auto. Qed.

Lemma resolvePromise_quiet st d : quiet st (resolvePromise st d).
Proof. destruct d; split; reflexivity. Qed.

Lemma finishRender_quiet st d pg els : quiet st (finishRender st d pg els).
Proof.
  unfold finishRender. cbn. destruct (aspectRatioHelper st); split; reflexivity.
Qed.

Lemma resumeRender_quiet st w : quiet st (resumeRender st w).
Proof.
  unfold resumeRender. destruct (getGridForPage st (page (wait_page w))).
  - apply finishRender_quiet.
  - apply quiet_refl.
Qed.

Lemma foldl_resumeRender_quiet ws st : quiet st (foldl resumeRender st ws).
Proof.
  revert st. induction ws as [| w ws IH]; intros st; cbn.
  - apply quiet_refl.
  - eapply quiet_trans; [apply resumeRender_quiet | apply IH].
Qed.

Lemma runResolved_quiet st : quiet st (runResolved st).
Proof.
  unfold runResolved.
  eapply quiet_trans; [| apply foldl_resumeRender_quiet].
  split; reflexivity.
Qed.

Lemma observeViewMore_quiet st : quiet st (observeViewMore st).
Proof.
  unfold observeViewMore.
  destruct (negb (viewMorePrevious (refs st)) && negb (viewMoreNext (refs st)));
    split; reflexivity.
Qed.

Lemma fetchSpecificPage_fresh st d p u :
  ids_fresh st -> ids_fresh (fetchSpecificPage st d p u).1.
Proof.
  intros [Hn Hf]. unfold fetchSpecificPage.
  destruct (shouldUsePage st _); cbn; [| split; assumption].
  destruct sectionId; cbn; [| split; assumption].
  split.
  - cbn [requests with_requests]. rewrite fmap_app. cbn. apply NoDup_app. split; [exact Hn |].
    split; [| apply NoDup_singleton].
    intros i Hi Hi'. apply list_elem_of_singleton in Hi'. subst i.
    apply list_elem_of_fmap in Hi as (q & Hq & Hin).
    rewrite Forall_forall in Hf. specialize (Hf q Hin). lia.
  - cbn [requests next_request with_requests]. apply Forall_app. split.
    + eapply Forall_impl; [exact Hf |]. cbn. intros q Hq. lia.
    + apply Forall_singleton. cbn. lia.
Qed.

Lemma fetchPage_fresh st d : ids_fresh st -> ids_fresh (fetchPage st d).
Proof.
  intros H. unfold fetchPage.
  destruct (getPage st d) as [pg|];
    [| exact (quiet_fresh _ _ (resolvePromise_quiet st d) H)].
  destruct (shouldUsePage st (Some pg));
    [| exact (quiet_fresh _ _ (resolvePromise_quiet st d) H)].
  pose proof (fetchSpecificPage_fresh st d (page pg) (Some (url pg)) H) as H1.
  destruct (fetchSpecificPage st d (page pg) (Some (url pg))) as [st1 a].
  cbn in H1. destruct a; [exact H1 |].
  exact (quiet_fresh _ _ (resolvePromise_quiet st1 d) H1).
Qed.

Lemma renderPage_fresh st d : ids_fresh st -> ids_fresh (renderPage st d).
Proof.
  intros H. unfold renderPage.
  destruct (grid (refs st)); [| exact H].
  destruct (getPage st d) as [pg|]; [| exact H].
  destruct (shouldUsePage st (Some pg)); [| exact H].
  destruct (getGridForPage st (page pg)).
  - exact (quiet_fresh _ _ (finishRender_quiet st d pg l) H).
  - match goal with
    | |- context [fetchPage ?s d] =>
        assert (Hs : ids_fresh s) by (destruct d; exact H);
        pose proof (fetchPage_fresh s d Hs) as H1
    end.
    exact H1.
Qed.

Lemma connectedCallback_fresh st :
  ids_fresh st -> ids_fresh (connectedCallback st).
Proof.
  intros H. unfold connectedCallback.
  set (st1 := with_connection _ _ _ true).
  assert (H1 : ids_fresh st1) by exact H.
  pose proof (fetchPage_fresh _ Previous (fetchPage_fresh _ Next H1)) as H3.
  exact (quiet_fresh _ _ (observeViewMore_quiet _) H3).
Qed.

Lemma filterMutation_fresh st k :
  ids_fresh st -> ids_fresh (filterMutation st k).
Proof.
  intros H. unfold filterMutation.
  destruct (filterObservers st !! k) as [o|]; [| exact H].
  destruct (watching o && active o); [| exact H].
  case_bool_decide; [exact H |].
  destruct (isConnected (disconnectFilterObserver st k)); [| exact H].
  apply fetchPage_fresh.
  eapply quiet_fresh; [apply observeViewMore_quiet | exact H].
Qed.

(** Withdrawing fetches keeps the numbers of the others distinct. *)
Lemma withdraw_fresh st (P : Request -> Prop) `{!forall q, Decision (P q)} :
  ids_fresh st ->
  ids_fresh (with_requests st (filter P (requests st)) (next_request st)).
Proof.
  intros [Hn Hf]. split; cbn.
  - eapply sublist_NoDup; [exact Hn |].
    apply fmap_sublist, sublist_filter.
  - rewrite Forall_forall in Hf |- *. intros q Hq.
    apply list_elem_of_filter in Hq as [_ Hq]. exact (Hf q Hq).
Qed.

Lemma pageArrived_fresh st id html :
  ids_fresh st -> ids_fresh (pageArrived st id html).
Proof.
  intros H. unfold pageArrived.
  destruct (list_find _ _) as [[j r]|]; [| exact H].
  eapply quiet_fresh; [apply resolvePromise_quiet |].
  exact (withdraw_fresh st _ H).
Qed.

Lemma step_fresh st e : ids_fresh st -> ids_fresh (step st e).
Proof.
  intros H. unfold step.
  eapply quiet_fresh; [apply runResolved_quiet |].
  destruct e.
  - apply connectedCallback_fresh, H.
  - unfold disconnectedCallback. cbn.
    destruct (infinityScrollObserver st); exact H.
  - destruct (infinityScrollObserver st); [| exact H].
    case_bool_decide; [| exact H]. apply renderPage_fresh, H.
  - destruct (idle st) as [| d q]; [exact H |].
    apply fetchPage_fresh. exact H.
  - apply pageArrived_fresh, H.
  - exact (withdraw_fresh st _ H).
  - destruct (filterListener st); exact H.
  - apply filterMutation_fresh, H.
  - exact H.
  - exact H.
Qed.

Lemma run_fresh r0 evs : ids_fresh (run (init r0) evs).
Proof.
  induction evs as [| e evs IH] using rev_ind.
  - split; [apply NoDup_nil_2 | apply Forall_nil_2].
  - rewrite run_snoc. apply step_fresh, IH.
Qed.

(** The answer to an outstanding fetch is stored under the page the
    fetch was issued for, and the fetch is no longer outstanding. *)
Lemma pageArrived_stores st q html :
  ids_fresh st -> q ∈ requests st ->
  pages (pageArrived st (req_id q) html)
  = <[req_page q := html]> (pages st) /\
  q ∉ requests (pageArrived st (req_id q) html).
Proof.
  intros [Hn _] Hq. unfold pageArrived.
  destruct (list_find (fun r => req_id r = req_id q) (requests st))
    as [[j r]|] eqn:Hf.
  - apply list_find_Some in Hf as (Hj & Hid & _).
    apply list_elem_of_lookup in Hq as [i Hi].
    assert (E : j = i).
    { eapply NoDup_lookup; [exact Hn | |];
        rewrite list_lookup_fmap; [rewrite Hj | rewrite Hi]; cbn;
        [rewrite Hid |]; reflexivity. }
    subst j. rewrite Hi in Hj. injection Hj as <-.
    split.
    + destruct (req_type q); reflexivity.
    + destruct (req_type q); cbn; intros Hin;
        apply list_elem_of_filter in Hin as [Hne _]; apply Hne; reflexivity.
  - exfalso. eapply list_find_None in Hf. rewrite Forall_forall in Hf.
    exact (Hf q Hq eq_refl).
Qed.

Lemma foldl_resumeRender_resolved ws st :
  resolved (foldl resumeRender st ws) = resolved st /\
  waiting (foldl resumeRender st ws) = waiting st.
Proof.
  revert st. induction ws as [| w ws IH]; intros st; cbn; [auto |].
  destruct (IH (resumeRender st w)) as [-> ->].
  unfold resumeRender, finishRender.
  destruct (getGridForPage st (page (wait_page w))); [| auto].
  cbn. destruct (aspectRatioHelper st); auto.
Qed.

(** Between two tasks no resolved promise is left to be handled. *)
Lemma step_resolved st e : resolved (step st e) = [].
Proof.
  unfold step, runResolved.
  match goal with
  | |- context [foldl resumeRender ?s ?ws] =>
      destruct (foldl_resumeRender_resolved ws s) as [-> _]
  end.
  reflexivity.
Qed.

Lemma run_resolved r0 evs : resolved (run (init r0) evs) = [].
Proof.
  destruct evs as [| e evs _] using rev_ind; [reflexivity |].
  rewrite run_snoc. apply step_resolved.
Qed.

(** With no promise resolved, no render continues. *)
Lemma runResolved_idle st : resolved st = [] -> runResolved st = st.
Proof.
  intros H. unfold runResolved. rewrite H.
  assert (E1 : forall ws : list Waiting,
             filter (fun w => promise w ∈ @nil nat) ws = []).
  { induction ws as [| w ws IH]; [reflexivity |].
    rewrite filter_cons_False; [exact IH |]. apply not_elem_of_nil. }
  assert (E2 : forall ws : list Waiting,
             filter (fun w => promise w ∉ @nil nat) ws = ws).
  { induction ws as [| w ws IH]; [reflexivity |].
    rewrite filter_cons_True; [rewrite IH; reflexivity |].
    apply not_elem_of_nil. }
  rewrite E1, E2. cbn. destruct st. cbn in H. subst. reflexivity.
Qed.

Lemma at_index_last {A : Type} (l : list A) :
  Js.at_index l (Z.of_nat (length l) - 1) = last l.
Proof.
  unfold Js.at_index. destruct l as [| a l]; [reflexivity |].
  rewrite last_lookup.
  replace (Z.of_nat (length (a :: l)) - 1 <? 0)%Z with false
    by (symmetry; apply Z.ltb_ge; cbn [length]; lia).
  f_equal. cbn [length]. lia.
Qed.

Lemma getPage_edge st d cs c :
  cards (refs st) = Some cs -> edge_card cs d = Some c ->
  let p := Js.plus (Number (card_page c))
             match d with Previous => -1 | Next => 1 end%Z in
  getPage st d = Some (mkPageInfo p (urlOfPage p)).
Proof.
  intros Hc He. unfold getPage. rewrite Hc.
  destruct d; cbn in He |- *.
  - rewrite bool_decide_eq_true_2 by reflexivity.
    destruct cs as [| c0 cs']; [discriminate |].
    cbn in He. injection He as ->. reflexivity.
  - rewrite bool_decide_eq_false_2 by discriminate.
    rewrite at_index_last, He. reflexivity.
Qed.

End Ids.

(** A page fetch that fails wakes no render and stores nothing: the
    render that waits for the page stays suspended and the resolver of
    its promise stays in place, although [#fetchPage] means to resolve
    the promise always. *)
Theorem failed_fetch_wakes_no_render {dom : Dom} (r0 : Refs)
    (evs : list Event) (id : nat) :
  let st := run (init r0) evs in
  let st' := step st (Failed id) in
  waiting st' = waiting st /\
  resolveNextPagePromise st' = resolveNextPagePromise st /\
  resolvePreviousPagePromise st' = resolvePreviousPagePromise st /\
  pages st' = pages st /\ refs st' = refs st /\ idle st' = idle st.
Proof.
  intros st st'.
  assert (E : st' = pageFailed st id).
  { unfold st', step. apply runResolved_idle. cbn. apply run_resolved. }
  rewrite E. repeat split.
Qed.

(** The answer to an outstanding page fetch is stored under the page
    number the fetch was issued for and the fetch is settled; looking the
    page up afterwards gives the cards of the answer, unless the answer
    is the empty string, which counts as not cached. *)
Theorem arrived_page_is_cached {dom : Dom} (r0 : Refs) (evs : list Event)
    (q : Request) (html : string) :
  q ∈ requests (run (init r0) evs) ->
  let st := run (init r0) evs in
  let st' := step st (Arrived (req_id q) html) in
  pages st' = <[req_page q := html]> (pages st) /\
  (q ∉ requests st') /\
  getGridForPage st' (req_page q)
  = (if Js.truthy html then parseCards html else None).
Proof.
  intros Hq. cbn. unfold step.
  destruct (pageArrived_stores _ q html (run_fresh r0 evs) Hq) as [Hp Hr].
  assert (E : pages (runResolved
                       (pageArrived (run (init r0) evs) (req_id q) html))
              = <[req_page q := html]> (pages (run (init r0) evs))).
  { rewrite runResolved_pages. exact Hp. }
  split; [exact E |]. split.
  - rewrite runResolved_requests. exact Hr.
  - unfold getGridForPage. rewrite E, lookup_insert_eq. reflexivity.
Qed.

Lemma arrived_page_is_cached_witness :
  let st := connected_on_page_2 in
  let q := mkRequest 0 (Some 3%Z) "/collections/all?page=n" Next in
  let st' := step st (Arrived 0 "<ul>") in
  pages st' = <[Some 3%Z := "<ul>"%string]> (pages st) /\
  (q ∉ requests st') /\
  getGridForPage st' (Some 3%Z) = Some [mkCard (Some "<ul>"%string)].
Proof.
  refine (arrived_page_is_cached (showing "2" "3") [Connected]
            (mkRequest 0 (Some 3%Z) "/collections/all?page=n" Next) "<ul>" _).
  vm_compute. apply list_elem_of_here.
Defined.

(** A fetch issued before a filter update stores its answer after it:
    the cache the handler has emptied then holds that page of the former
    listing, and nothing else. *)
Theorem late_answer_alone_in_cache {dom : Dom} (r0 : Refs)
    (evs : list Event) (q : Request) (html : string) :
  q ∈ requests (run (init r0) evs) ->
  filterListener (run (init r0) evs) = true ->
  pages (run (init r0) (evs ++ [FilterUpdate; Arrived (req_id q) html]))
  = {[req_page q := html]}.
Proof.
  intros Hq Hl. unfold run. rewrite foldl_app. cbn [foldl].
  fold (run (init r0) evs).
  set (st := run (init r0) evs) in *.
  assert (Hf : ids_fresh (step st FilterUpdate))
    by (apply step_fresh, run_fresh).
  assert (Hq1 : q ∈ requests (step st FilterUpdate)).
  { unfold step. rewrite runResolved_requests, Hl. exact Hq. }
  assert (Hp1 : pages (step st FilterUpdate) = ∅).
  { unfold step. rewrite runResolved_pages, Hl. reflexivity. }
  unfold step at 1. rewrite runResolved_pages.
  destruct (pageArrived_stores _ q html Hf Hq1) as [-> _].
  rewrite Hp1. reflexivity.
Qed.

Lemma late_answer_alone_in_cache_witness :
  pages (run (init (showing "4" "5"))
           ([Connected] ++ [FilterUpdate; Arrived 0 "<ul>"]))
  = {[Some 5%Z := "<ul>"%string]}.
Proof.
  apply (late_answer_alone_in_cache (showing "4" "5") [Connected]
           (mkRequest 0 (Some 5%Z) "/collections/all?page=n" Next) "<ul>").
  - vm_compute. apply list_elem_of_here.
  - reflexivity.
Defined.

(** No fetch goes beyond the ends of the listing: with the first card on
    page 1 (or below) the previous page is not fetched, and with the last
    card on the last page of the grid (or above) the next page is not
    fetched. *)
Theorem no_fetch_beyond_the_ends {dom : Dom} (st : t) (d : Direction)
    (cs : list Card) (c : Card) (n : Z) :
  cards (refs st) = Some cs ->
  edge_card cs d = Some c ->
  Number (card_page c) = Some n ->
  at_the_end (refs st) d n ->
  requests (fetchPage st d) = requests st /\
  pages (fetchPage st d) = pages st.
Proof.
  intros Hc He Hn Hend.
  assert (Hu : shouldUsePage st (getPage st d) = false).
  { rewrite (getPage_edge st d cs c Hc He), Hn. cbn. unfold usable.
    destruct (gridLastPage (refs st)) as [l|] eqn:Hl; [| reflexivity].
    apply negb_false_iff. destruct d; cbn in Hend |- *.
    - rewrite (proj2 (Z.ltb_lt (n + -1) 1)) by lia.
      rewrite orb_true_r. reflexivity.
    - destruct Hend as (l' & m & Hl' & Hm & Hle).
      rewrite Hl in Hl'. injection Hl' as <-. rewrite Hm.
      unfold Js.gt. cbn. rewrite (proj2 (Z.ltb_lt m (n + 1))) by lia.
      apply orb_true_r. }
  split; [apply fetchPage_skips, Hu | apply fetchPage_fetches].
Qed.

(** A list on page 3 of 3 fetches no page 4. *)
Lemma no_fetch_beyond_the_ends_witness :
  requests (fetchPage (init (showing "3" "3")) Next) = [] /\
  pages (fetchPage (init (showing "3" "3")) Next) = ∅.
Proof.
  apply (no_fetch_beyond_the_ends (init (showing "3" "3")) Next
           [mkCard (Some "3"%string)] (mkCard (Some "3"%string)) 3).
  - reflexivity.
  - reflexivity.
  - reflexivity.
  - exists "3"%string, 3%Z. repeat split. lia.
Defined.

(** A card without a numeric [data-page] makes the list fetch the page
    [NaN]: [#shouldUsePage] compares with [<] and [>], which are both
    false on [NaN], so the page passes as long as the grid has a
    non-empty [data-last-page].  The fetch is issued when the element has
    a [section-id]; without one the getter throws and nothing is
    fetched. *)
Theorem page_without_number_fetched {dom : Dom} (st : t) (d : Direction)
    (cs : list Card) (c : Card) (l : string) :
  cards (refs st) = Some cs ->
  edge_card cs d = Some c ->
  Number (card_page c) = Js.NaN ->
  gridLastPage (refs st) = Some l -> l <> EmptyString ->
  requests (fetchPage st d)
  = match sectionId with
    | Some _ =>
        requests st
        ++ [mkRequest (next_request st) Js.NaN (urlOfPage Js.NaN) d]
    | None => requests st
    end.
Proof.
  intros Hc He Hn Hl Hne. unfold fetchPage.
  rewrite (getPage_edge st d cs c Hc He), Hn. cbn.
  assert (Hu : usable (refs st) None = true).
  { unfold usable. rewrite Hl. apply truthy_nonempty in Hne. rewrite Hne.
    unfold Js.gt. cbn. destruct (Number (Some l)); reflexivity. }
  rewrite Hu. unfold fetchSpecificPage. cbn. rewrite Hu.
  destruct sectionId; reflexivity.
Qed.

Lemma page_without_number_fetched_witness :
  let st := init (mkRefs (Some (mkGrid (Some "3"%string)))
                    (Some [mkCard None]) true true) in
  requests (fetchPage st Next)
  = [mkRequest 0 Js.NaN "/collections/all?page=NaN" Next].
Proof.
  intro st.
  refine (page_without_number_fetched st Next [mkCard None] (mkCard None) "3"
            _ _ _ _ _).
  - reflexivity.
  - reflexivity.
  - reflexivity.
  - reflexivity.
  - discriminate.
Defined.

End PageFacts.

(** ** Variant picker, continued *)

Module PickerFacts.

Import VariantPicker Invariants VariantFacts.

Section Tracking.

Context {dom : Dom}.

Lemma foldl_recordFieldset d fs ci rs :
  foldl (recordFieldset d) (ci, rs) fs
  = (ci ++ ((fun f => [chosen d f]) <$>
              filter (fun f => chosen d f ≠ (-1)%Z) fs),
     rs ++ (inputs <$> fs)).
Proof.
  revert ci rs. induction fs as [| f fs IH]; intros ci rs.
  - cbn. rewrite !app_nil_r. reflexivity.
  - cbn [foldl]. unfold recordFieldset at 2. cbn [fst snd]. rewrite IH.
    fold (chosen d f). rewrite filter_cons, fmap_cons.
    rewrite <- !app_assoc.
    case_bool_decide; destruct (decide (chosen d f ≠ (-1)%Z));
      try contradiction; rewrite ?fmap_cons, <- ?app_assoc; reflexivity.
Qed.

Lemma length_filter_all {A : Type} (P : A -> Prop)
    `{Hdec : !forall x, Decision (P x)} (l : list A) :
  length (filter P l) = length l <-> Forall P l.
Proof.
  induction l as [| a l IH]; [split; [constructor | reflexivity] |].
  rewrite filter_cons. destruct (decide (P a)) as [Ha | Ha]; cbn.
  - split.
    + intros [= E]. constructor; [exact Ha | apply IH, E].
    + intros Hall. apply Forall_cons in Hall as [_ Hall]. f_equal.
      apply IH, Hall.
  - pose proof (length_filter P l). split; [lia |].
    intros Hall. apply Forall_cons in Hall as [Hall _]. contradiction.
Qed.

Lemma catchCallback_next_fetch st e :
  next_fetch (catchCallback st e) = next_fetch st.
Proof. unfold catchCallback. destruct (Fetch.is_abort e); reflexivity. Qed.

Lemma updateInput_next_fetch st n :
  next_fetch (updateInput st n) = next_fetch st.
Proof. unfold updateInput. split_match; reflexivity. Qed.

Lemma updateSelectedOption_next_fetch st target :
  next_fetch (keep st (updateSelectedOption st target)) = next_fetch st.
Proof.
  assert (He : forall tg st', updateElement st tg = Fetch.Return st' ->
                 next_fetch st' = next_fetch st).
  { intros tg st'. destruct tg; cbn; try (intros [= <-]; reflexivity).
    - intros [= <-]. apply updateInput_next_fetch.
    - unfold updateSelect. split_match; intros [= <-]; reflexivity. }
  destruct (updateSelectedOption st target) as [st'|] eqn:E; [| reflexivity].
  cbn. unfold updateSelectedOption in E.
  destruct target; try (eapply He; exact E).
  destruct (queryOption (doc st) optionValue); [| discriminate].
  eapply He; exact E.
Qed.

Lemma connectedCallback_next_fetch st :
  next_fetch (connectedCallback st) = next_fetch st.
Proof.
  unfold connectedCallback. destruct (foldl _ _ _) as [ci rs]. reflexivity.
Qed.

Lemma settle_next_fetch st f o : next_fetch (settle st f o) = next_fetch st.
Proof.
  unfold settle. destruct o as [r | e].
  - destruct (Fetch.body r) as [s | e].
    + destruct (morphed s (Fetch.flag f) _) as [d [e|]].
      * rewrite catchCallback_next_fetch. reflexivity.
      * reflexivity.
    + apply catchCallback_next_fetch.
  - apply catchCallback_next_fetch.
Qed.

Lemma foldl_catch_next_fetch (aborted : list Fetch.Pending) st :
  next_fetch (foldl (fun s _ => catchCallback s Fetch.AbortError) st aborted)
  = next_fetch st.
Proof.
  revert st. induction aborted as [| a l IH]; intros st; cbn; [reflexivity |].
  rewrite IH. apply catchCallback_next_fetch.
Qed.

Lemma latest_frame st st' :
  fetches st' = fetches st -> next_fetch st' = next_fetch st ->
  latest st -> latest st'.
Proof. unfold latest, fetches. intros [= _ ->] ->. auto. Qed.

Lemma fetchUpdatedSection_latest st u m :
  supervised st -> latest (fetchUpdatedSection st u m).
Proof.
  intros H. unfold fetchUpdatedSection.
  assert (E : (Fetch.abort (abortController st) (inflight st)).1 = []).
  { destruct H as [H | (f & Hf & Hc)].
    - rewrite H. destruct (abortController st); reflexivity.
    - rewrite Hf, Hc. cbn. rewrite decide_False by tauto. reflexivity. }
  destruct (Fetch.abort (abortController st) (inflight st))
    as [kept aborted]. cbn in E. subst kept.
  eapply latest_frame;
    [apply foldl_catch_fetches | apply foldl_catch_next_fetch |].
  apply Forall_singleton. reflexivity.
Qed.

Lemma settled_latest st n o : latest st -> latest (settled st n o).
Proof.
  intros H. unfold settled.
  destruct (list_find _ _) as [[j f]|]; [| exact H].
  eapply latest_frame; [apply settle_fetches | apply settle_next_fetch |].
  unfold latest in *. cbn. rewrite Forall_forall in H |- *.
  intros f' Hf'. apply list_elem_of_filter in Hf' as [_ Hf']. exact (H f' Hf').
Qed.

Lemma step_latest st e : supervised st -> latest st -> latest (step st e).
Proof.
  intros Hs. destruct e; cbn.
  - apply latest_frame;
      [apply connectedCallback_keeps_fetches | apply connectedCallback_next_fetch].
  - apply latest_frame;
      [apply updateSelectedOption_fetches
      | apply updateSelectedOption_next_fetch].
  - unfold variantChanged.
    pose proof (updateSelectedOption_fetches st target) as E.
    destruct (updateSelectedOption st target) as [st1|]; cbn in *; [| auto].
    intros _. apply fetchUpdatedSection_latest.
    eapply supervised_fetches; [| exact Hs]. exact E.
  - intros _. apply fetchUpdatedSection_latest, Hs.
  - apply settled_latest.
Qed.

Lemma run_latest d evs : latest (run (init d) evs).
Proof.
  induction evs as [| e evs IH] using rev_ind.
  - apply Forall_nil_2.
  - unfold run. rewrite foldl_snoc.
    apply step_latest; [apply run_supervised | exact IH].
Qed.

End Tracking.

(** [connectedCallback] appends one entry to [#radios] for every
    fieldset, but one entry to [#checkedIndices] only for the fieldsets
    that have a checked input: the two arrays line up with the fieldsets
    exactly when every fieldset has one.  Connecting an element again
    appends the same entries once more. *)
Theorem connect_records_checked_groups {dom : Dom} (st : t) :
  let d := superConnected (doc st) in
  let st' := connectedCallback st in
  radios st' = radios st ++ (inputs <$> fieldsets d) /\
  checkedIndices st'
  = checkedIndices st ++
    ((fun f => [chosen d f]) <$>
       filter (fun f => chosen d f ≠ (-1)%Z) (fieldsets d)) /\
  (length (checkedIndices st') - length (checkedIndices st)
   = length (fieldsets d)
   <-> Forall (fun f => chosen d f ≠ (-1)%Z) (fieldsets d))%nat.
Proof.
  cbn. unfold connectedCallback. cbn. rewrite foldl_recordFieldset. cbn.
  split; [reflexivity |]. split; [reflexivity |].
  rewrite length_app, length_fmap.
  rewrite <- (length_filter_all
                (fun f => chosen (superConnected (doc st)) f ≠ (-1)%Z)).
  split; lia.
Qed.

(** [updateSelectedOption] on a select marks one option and only one: the
    first option whose value is the select's value carries [selected]
    afterwards and no other does; when no option has that value the call
    throws and changes nothing. *)
Theorem select_marks_one_option {dom : Dom} (st : t) (k : nat) (s : Select) :
  selects (doc st) !! k = Some s ->
  match updateSelect st k with
  | Fetch.Return st' =>
      exists j o s',
        options s !! j = Some o /\ o.1 = select_value s /\
        (forall i o0, options s !! i = Some o0 -> (i < j)%nat ->
                      o0.1 <> select_value s) /\
        selects (doc st') !! k = Some s' /\
        select_value s' = select_value s /\
        (options s').*1 = (options s).*1 /\
        (forall i o', options s' !! i = Some o' ->
                      o'.2 = bool_decide (i = j)) /\
        store (doc st') = store (doc st) /\
        fieldsets (doc st') = fieldsets (doc st) /\
        fetches st' = fetches st
  | Fetch.Throw e =>
      e = Fetch.mkError "Error" "Option not found" /\
      Forall (fun o => o.1 <> select_value s) (options s)
  end.
Proof.
  intros Hk. unfold updateSelect. rewrite Hk.
  destruct (list_find (fun o => o.1 = select_value s) (options s))
    as [[j o]|] eqn:Hf.
  - apply list_find_Some in Hf as (Hj & Ho & Hfirst).
    exists j, o. eexists. split; [exact Hj |]. split; [exact Ho |].
    split; [intros i o0 Hi Hlt; exact (Hfirst i o0 Hi Hlt) |].
    split.
    { cbn. apply list_lookup_insert_eq. eapply lookup_lt_Some, Hk. }
    cbn. split; [reflexivity |]. split.
    { apply list_eq. intros i. rewrite !list_lookup_fmap.
      destruct (decide (i = j)) as [-> | Hne].
      - rewrite list_lookup_alter_eq, list_lookup_fmap.
        destruct (options s !! j); reflexivity.
      - rewrite list_lookup_alter_ne by congruence.
        rewrite list_lookup_fmap. destruct (options s !! i); reflexivity. }
    split; [| repeat split].
    intros i o' Hi. destruct (decide (i = j)) as [-> | Hne].
    + rewrite list_lookup_alter_eq, list_lookup_fmap, Hj in Hi.
      cbn in Hi. injection Hi as <-. cbn.
      rewrite bool_decide_eq_true_2; reflexivity.
    + rewrite list_lookup_alter_ne, list_lookup_fmap in Hi by congruence.
      destruct (options s !! i); [| discriminate]. cbn in Hi.
      injection Hi as <-. cbn. rewrite bool_decide_eq_false_2; auto.
  - split; [reflexivity |]. eapply list_find_None. exact Hf.
Qed.

(** A select showing "M" of the sizes S, M, L, where the markup had S
    selected. *)
Lemma select_marks_one_option_witness :
  let s := mkSelect "M" [("S"%string, true); ("M"%string, false);
                         ("L"%string, false)] in
  match updateSelect (init (mkDocument [] [] [s])) 0 with
  | Fetch.Return st' =>
      exists j o s',
        options s !! j = Some o /\ o.1 = select_value s /\
        (forall i o0, options s !! i = Some o0 -> (i < j)%nat ->
                      o0.1 <> select_value s) /\
        selects (doc st') !! 0%nat = Some s' /\
        select_value s' = select_value s /\
        (options s').*1 = (options s).*1 /\
        (forall i o', options s' !! i = Some o' ->
                      o'.2 = bool_decide (i = j)) /\
        store (doc st') = store (doc (init (mkDocument [] [] [s]))) /\
        fieldsets (doc st') = fieldsets (doc (init (mkDocument [] [] [s]))) /\
        fetches st' = fetches (init (mkDocument [] [] [s]))
  | Fetch.Throw e =>
      e = Fetch.mkError "Error" "Option not found" /\
      Forall (fun o => o.1 <> select_value s) (options s)
  end.
Proof.
  intro s.
  refine (select_marks_one_option (init (mkDocument [] [] [s])) 0 s _).
  reflexivity.
Defined.

(** Only the answer to the request issued last is ever applied: when a
    fetch settles that is not the latest one the picker issued, nothing
    changes, not even the console. *)
Theorem only_latest_response_applied {dom : Dom} (d : Document)
    (evs : list Event) (n : nat) (o : Fetch.Outcome) :
  S n <> next_fetch (run (init d) evs) ->
  step (run (init d) evs) (Settled n o) = run (init d) evs.
Proof.
  intros Hn. cbn. unfold settled.
  destruct (list_find _ _) as [[j f]|] eqn:Hf; [| reflexivity].
  apply list_find_Some in Hf as (Hj & Hid & _).
  pose proof (run_latest d evs) as Hl. unfold latest in Hl.
  rewrite Forall_forall in Hl.
  specialize (Hl f (list_elem_of_lookup_2 _ _ _ Hj)).
  congruence.
Qed.

(** The answer to the first of two requests arrives after the second
    was issued. *)
Lemma only_latest_response_applied_witness :
  let evs := [FetchUpdated "/products/a?option_values=1" false;
              FetchUpdated "/products/a?option_values=2" false] in
  step (run (init sizes) evs)
    (Settled 0 (Fetch.Fulfilled (Fetch.mkResponse true 200 (Fetch.Text "a"))))
  = run (init sizes) evs.
Proof.
  intro evs.
  refine (only_latest_response_applied sizes evs 0 _ _).
  vm_compute. discriminate.
Defined.

End PickerFacts.

(** ** Quick add, continued *)

Module QuickAddMore.

Import QuickAdd Invariants.

Section Cache.

Context {dom : Dom}.

(** What a click that resumes without a page leaves alone. *)
Lemma resumed_without_page st u :
  let st' := handleClickResumed st u (Fetch.Return None) in
  abortController st' = abortController st /\
  cachedContent st' = cachedContent st /\
  inflight st' = inflight st /\ next_fetch st' = next_fetch st /\
  clicks st' = clicks st /\ modalContent st' = modalContent st.
Proof.
  cbn. unfold openQuickAddModal. destruct (dialog st); repeat split.
Qed.

Lemma foldl_resumed_without_page (cs : list (nat * string)) st :
  let st' :=
    foldl (fun s c => handleClickResumed s c.2 (Fetch.Return None)) st cs in
  abortController st' = abortController st /\
  cachedContent st' = cachedContent st /\
  inflight st' = inflight st /\ next_fetch st' = next_fetch st /\
  clicks st' = clicks st /\ modalContent st' = modalContent st.
Proof.
  revert st. induction cs as [| c cs IH]; intros st; cbv zeta;
    cbn [foldl]; [repeat split |].
  destruct (IH (handleClickResumed st c.2 (Fetch.Return None)))
    as (-> & -> & -> & -> & -> & ->).
  apply resumed_without_page.
Qed.

(** An aborted fetch resumes: the controller is forgotten, the clicks
    that waited for it continue without a page. *)
Lemma finish_aborted st f :
  let st' := finish st f (Fetch.Rejected Fetch.AbortError) in
  abortController st' = None /\
  cachedContent st' = cachedContent st /\
  inflight st' = inflight st /\ next_fetch st' = next_fetch st /\
  clicks st' = filter (fun c => c.1 ≠ Fetch.id f) (clicks st) /\
  modalContent st' = modalContent st.
Proof.
  cbv zeta. unfold finish, fetchProductPageSettled, catchBlock.
  change (Fetch.is_abort Fetch.AbortError) with true. cbv iota.
  match goal with
  | |- context [foldl _ ?s ?cs] =>
      destruct (foldl_resumed_without_page cs s)
        as (-> & -> & -> & -> & -> & ->)
  end.
  repeat split.
Qed.

Lemma foldl_finish_aborted (fs : list Fetch.Pending) st :
  let st' :=
    foldl (fun s f => finish s f (Fetch.Rejected Fetch.AbortError)) st fs in
  cachedContent st' = cachedContent st /\
  inflight st' = inflight st /\ next_fetch st' = next_fetch st /\
  modalContent st' = modalContent st.
Proof.
  revert st. induction fs as [| f fs IH]; intros st; cbv zeta;
    cbn [foldl]; [repeat split |].
  destruct (IH (finish st f (Fetch.Rejected Fetch.AbortError)))
    as (-> & -> & -> & ->).
  destruct (finish_aborted st f) as (_ & -> & -> & -> & _ & ->).
  repeat split.
Qed.

(** The page [fetchProductPage] gives back is the body of a response
    with an ok status. *)
Lemma fetchProductPageSettled_page st o html :
  (fetchProductPageSettled st o).2 = Fetch.Return (Some html) ->
  exists r, o = Fetch.Fulfilled r /\ Fetch.ok r = true /\
            Fetch.body r = Fetch.Text html.
Proof.
  unfold fetchProductPageSettled, catchBlock. cbn.
  destruct o as [r | e].
  - destruct (Fetch.ok r) eqn:Hok; cbn.
    + destruct (Fetch.body r) as [s | e] eqn:Hb.
      * intros [= ->]. exists r. auto.
      * destruct (Fetch.is_abort e); discriminate.
    + discriminate.
  - destruct (Fetch.is_abort e); discriminate.
Qed.

Lemma resumed_cache st u0 r u g :
  cachedContent (handleClickResumed st u0 r) !! u = Some g ->
  cachedContent st !! u = Some g \/
  exists html, r = Fetch.Return (Some html) /\ productGridOf html = Some g.
Proof.
  unfold handleClickResumed. destruct r as [[html|] | e]; cbn.
  - destruct (productGridOf html) as [g'|] eqn:Hg; cbn.
    + unfold updateQuickAddModal, openQuickAddModal. cbn.
      intros H.
      assert (E : (<[u0 := g']> (cachedContent st)) !! u = Some g).
      { destruct (modalContent st); cbn in H; destruct (dialog st);
          exact H. }
      destruct (decide (u0 = u)) as [-> | Hne].
      * rewrite lookup_insert_eq in E. injection E as ->.
        right. exists html. auto.
      * rewrite lookup_insert_ne in E by exact Hne. auto.
    + unfold openQuickAddModal. destruct (dialog st); auto.
  - unfold openQuickAddModal. destruct (dialog st); auto.
  - auto.
Qed.

Lemma foldl_resumed_cache (cs : list (nat * string)) st r u g :
  cachedContent (foldl (fun s c => handleClickResumed s c.2 r) st cs) !! u
  = Some g ->
  cachedContent st !! u = Some g \/
  exists html, r = Fetch.Return (Some html) /\ productGridOf html = Some g.
Proof.
  revert st. induction cs as [| c cs IH]; intros st; cbn; [auto |].
  intros H. apply IH in H as [H | H]; [| auto].
  eapply resumed_cache. exact H.
Qed.

(** Only the answer to a fetch brings a product grid into the cache. *)
Lemma step_cache st e u g :
  cachedContent (step st e) !! u = Some g ->
  cachedContent st !! u = Some g \/
  exists n r html,
    e = Settled n (Fetch.Fulfilled r) /\ Fetch.ok r = true /\
    Fetch.body r = Fetch.Text html /\ productGridOf html = Some g.
Proof.
  destruct e; cbn [step].
  - auto.
  - unfold disconnectedCallback.
    destruct (Fetch.abort _ _) as [kept aborted].
    match goal with
    | |- context [foldl _ ?s aborted] =>
        destruct (foldl_finish_aborted aborted s) as (-> & _)
    end.
    auto.
  - unfold handleClick.
    destruct (cachedContent st !! currentUrl) as [grid|] eqn:Hc.
    + unfold updateQuickAddModal, openQuickAddModal.
      destruct (modalContent st); cbn; destruct (dialog st); auto.
    + unfold fetchProductPage.
      destruct (Js.truthy currentUrl); cbn [negb].
      * destruct (Fetch.abort (abortController st) (inflight st))
          as [kept aborted].
        match goal with
        | |- context [foldl _ ?s aborted] =>
            destruct (foldl_finish_aborted aborted s) as (-> & _)
        end.
        auto.
      * cbn. unfold openQuickAddModal. destruct (dialog st); auto.
  - unfold settled.
    destruct (list_find _ _) as [[j f]|]; [| auto].
    unfold finish.
    destruct (fetchProductPageSettled _ o) as [st1 r] eqn:E.
    intros H. apply foldl_resumed_cache in H as [H | (html & -> & Hg)].
    + left. cbn in H.
      apply (f_equal (fun p => cachedContent p.1)) in E. cbn in E.
      rewrite <- E in H. exact H.
    + right.
      apply (f_equal snd) in E. cbn [snd] in E.
      apply fetchProductPageSettled_page in E as (r & -> & Hok & Hb).
      exists n, r, html. auto.
  - destruct (mediaListener st); [| auto].
    unfold closeQuickAddModal. destruct (dialog st); auto.
  - destruct (dialog st); auto.
Qed.

End Cache.

#[local] Arguments finish : simpl never.

(** Two clicks while a fetch is in flight leave two fetches outstanding:
    the first click aborts the fetch in flight, whose [finally] block
    then forgets the controller of the fetch the click has just started,
    so that the second click has nothing to abort.  Neither URL is in
    the cache. *)
Theorem clicks_while_aborting_leave_two {dom : Dom} (st : t)
    (f : Fetch.Pending) (a b : string) :
  inflight st = [f] ->
  abortController st = Some (Fetch.id f) ->
  Fetch.id f <> next_fetch st ->
  Js.truthy a = true -> Js.truthy b = true ->
  cachedContent st !! a = None -> cachedContent st !! b = None ->
  let st1 := step st (Click a) in
  let st2 := step st1 (Click b) in
  inflight st1 = [Fetch.mkPending (next_fetch st) a false] /\
  abortController st1 = None /\
  inflight st2 = [Fetch.mkPending (next_fetch st) a false;
                  Fetch.mkPending (S (next_fetch st)) b false] /\
  outstanding st2 = 2.
Proof.
  intros Hf Hc Hid Ha Hb Hca Hcb.
  assert (E1 : inflight (step st (Click a))
               = [Fetch.mkPending (next_fetch st) a false] /\
               abortController (step st (Click a)) = None /\
               cachedContent (step st (Click a)) = cachedContent st /\
               next_fetch (step st (Click a)) = S (next_fetch st)).
  { cbn. unfold handleClick. rewrite Hca. unfold fetchProductPage.
    rewrite Ha, Hf, Hc. cbn.
    rewrite decide_False by tauto. rewrite decide_True by reflexivity.
    cbn.
    match goal with
    | |- context [finish ?s f _] =>
        destruct (finish_aborted s f) as (-> & -> & -> & -> & _)
    end.
    repeat split. }
  destruct E1 as (Hi1 & Hc1 & Hcache1 & Hn1).
  cbv zeta. set (st1 := step st (Click a)) in *.
  split; [exact Hi1 |]. split; [exact Hc1 |].
  assert (E2 : inflight (step st1 (Click b))
               = [Fetch.mkPending (next_fetch st) a false;
                  Fetch.mkPending (S (next_fetch st)) b false]).
  { cbn [step]. unfold handleClick. rewrite Hcache1, Hcb.
    unfold fetchProductPage. rewrite Hb, Hi1, Hc1, Hn1. reflexivity. }
  split; [exact E2 |]. unfold outstanding. rewrite E2. reflexivity.
Qed.

(** The component while the fetch of a first click is in flight. *)
Lemma clicks_while_aborting_leave_two_witness :
  let st1 := step first_click (Click "/products/b") in
  let st2 := step st1 (Click "/products/c") in
  inflight st1 = [Fetch.mkPending 1 "/products/b" false] /\
  abortController st1 = None /\
  inflight st2 = [Fetch.mkPending 1 "/products/b" false;
                  Fetch.mkPending 2 "/products/c" false] /\
  outstanding st2 = 2.
Proof.
  refine (clicks_while_aborting_leave_two first_click
            (Fetch.mkPending 0 "/products/a" false)
            "/products/b" "/products/c" _ _ _ _ _ _ _).
  - reflexivity.
  - reflexivity.
  - vm_compute. discriminate.
  - reflexivity.
  - reflexivity.
  - reflexivity.
  - reflexivity.
Defined.

(** A page that was fetched for a click is served from the cache from
    then on: when the answer has an ok status and holds a product grid,
    the grid is cached under the URL of the click, and the next click on
    that URL starts no fetch and shows the grid. *)
Theorem fetched_grid_served_from_cache {dom : Dom} (st : t)
    (f : Fetch.Pending) (u : string) (r : Fetch.Response) (html g : string) :
  inflight st = [f] -> clicks st = [(Fetch.id f, u)] ->
  Fetch.ok r = true -> Fetch.body r = Fetch.Text html ->
  productGridOf html = Some g ->
  let st1 := step st (Settled (Fetch.id f) (Fetch.Fulfilled r)) in
  let st2 := step st1 (Click u) in
  cachedContent st1 = <[u := g]> (cachedContent st) /\
  inflight st1 = [] /\
  inflight st2 = [] /\ next_fetch st2 = next_fetch st /\
  cachedContent st2 = cachedContent st1 /\
  (is_Some (modalContent st) -> modalContent st2 = Some (arranged g)) /\
  (is_Some (dialog st) -> dialog st2 = Some true).
Proof.
  intros Hf Hcl Hok Hb Hg.
  set (st1 := step st (Settled (Fetch.id f) (Fetch.Fulfilled r))).
  assert (E1 : cachedContent st1 = <[u := g]> (cachedContent st) /\
               inflight st1 = [] /\ next_fetch st1 = next_fetch st /\
               (is_Some (modalContent st) ->
                modalContent st1 = Some (arranged g)) /\
               (is_Some (dialog st) -> dialog st1 = Some true) /\
               (modalContent st = None -> modalContent st1 = None) /\
               (dialog st = None -> dialog st1 = None)).
  { unfold st1. cbn. unfold settled. rewrite Hf. cbn.
    rewrite decide_True by reflexivity. cbn.
    rewrite decide_False by tauto. cbn.
    unfold finish, fetchProductPageSettled. rewrite Hok, Hb. cbn.
    rewrite Hcl. cbn.
    rewrite (decide_True (P := Fetch.id f = Fetch.id f)) by reflexivity.
    rewrite (decide_False (P := Fetch.id f ≠ Fetch.id f)) by tauto.
    cbn. rewrite Hg. cbn.
    unfold updateQuickAddModal, openQuickAddModal. cbn.
    destruct (modalContent st) as [m|] eqn:Hm; cbn;
      destruct (dialog st) as [dl|] eqn:Hd; cbn; rewrite ?Hm, ?Hd;
      repeat split; try reflexivity; try (intros [? [=]]);
      try discriminate. }
  destruct E1 as (Hc1 & Hi1 & Hn1 & Hm1 & Hd1 & Hm0 & Hd0).
  cbv zeta. fold st1. clearbody st1.
  split; [exact Hc1 |]. split; [exact Hi1 |].
  cbn [step]. unfold handleClick. rewrite Hc1, lookup_insert_eq.
  unfold updateQuickAddModal, openQuickAddModal.
  destruct (modalContent st) as [m|] eqn:Hm.
  - rewrite (Hm1 (ex_intro _ m eq_refl)). cbn.
    destruct (dialog st) as [dl|] eqn:Hd.
    + rewrite (Hd1 (ex_intro _ dl eq_refl)). cbn.
      repeat split; auto.
    + rewrite (Hd0 eq_refl). cbn.
      repeat split; auto; try (intros [? [=]]).
  - rewrite (Hm0 eq_refl).
    destruct (dialog st) as [dl|] eqn:Hd.
    + rewrite (Hd1 (ex_intro _ dl eq_refl)). cbn.
      repeat split; auto; try (intros [? [=]]).
    + rewrite (Hd0 eq_refl).
      repeat split; auto; try (intros [? [=]]).
Qed.

Lemma fetched_grid_served_from_cache_witness :
  let r := Fetch.mkResponse true 200 (Fetch.Text "<main>") in
  let st1 := step first_click (Settled 0 (Fetch.Fulfilled r)) in
  let st2 := step st1 (Click "/products/a") in
  cachedContent st1 = <["/products/a"%string := "<main>"%string]>
                        (cachedContent first_click) /\
  inflight st1 = [] /\
  inflight st2 = [] /\ next_fetch st2 = next_fetch first_click /\
  cachedContent st2 = cachedContent st1 /\
  (is_Some (modalContent first_click) ->
   modalContent st2 = Some "<main>"%string) /\
  (is_Some (dialog first_click) -> dialog st2 = Some true).
Proof.
  intro r.
  refine (fetched_grid_served_from_cache first_click
            (Fetch.mkPending 0 "/products/a" false) "/products/a" r
            "<main>" "<main>" _ _ _ _ _); reflexivity.
Defined.

(** The cache holds nothing but product grids found in the body of a
    response with an ok status: an aborted fetch, a failed one, a
    response that is not ok and a page without a product grid leave no
    entry. *)
Theorem cache_holds_fetched_grids {dom : Dom} (evs : list Event)
    (u g : string) :
  cachedContent (run init evs) !! u = Some g -> answered evs g.
Proof.
  revert g. induction evs as [| e evs IH] using rev_ind; intros g.
  - cbn. rewrite lookup_empty. discriminate.
  - unfold run. rewrite foldl_snoc. fold (run init evs). intros H.
    apply step_cache in H as [H | (n & r & html & -> & Hok & Hb & Hg)].
    + destruct (IH g H) as (n & r & html & Hin & Hrest).
      exists n, r, html. split; [| exact Hrest].
      apply elem_of_app. left. exact Hin.
    + exists n, r, html. split; [| auto].
      apply elem_of_app. right. apply list_elem_of_here.
Qed.

Lemma cache_holds_fetched_grids_witness :
  answered
    [Connected; Click "/products/a";
     Settled 0 (Fetch.Fulfilled
                  (Fetch.mkResponse true 200 (Fetch.Text "<main>")))]
    "<main>".
Proof.
  apply (cache_holds_fetched_grids
           [Connected; Click "/products/a";
            Settled 0 (Fetch.Fulfilled
                         (Fetch.mkResponse true 200 (Fetch.Text "<main>")))]
           "/products/a" "<main>").
  vm_compute. reflexivity.
Defined.

End QuickAddMore.

(** ** Request URLs, product cards and the quick-add dialog *)

Module RequestFacts.

Import VariantRequests.

#[local] Existing Instance VariantPicker.plain_dom.

Lemma before_without (c : ascii) (s : string) :
  JsString.includes c s = false -> JsString.before c s = s.
Proof.
  induction s as [| a s IH]; cbn; [reflexivity |].
  destruct (Ascii.eqb a c); [discriminate |].
  intros H. rewrite (IH H). reflexivity.
Qed.

Lemma before_excludes (c : ascii) (s : string) :
  JsString.includes c (JsString.before c s) = false.
Proof.
  induction s as [| a s IH]; cbn; [reflexivity |].
  destruct (Ascii.eqb a c) eqn:E; cbn; [reflexivity |].
  rewrite E. exact IH.
Qed.

(** The product URL a picker in a card asks is cut at its first [?]. *)
Lemma card_url_before (productUrl : option string) :
  Js.template
    match productUrl with
    | Some u =>
        if JsString.includes "?" u
        then Some (JsString.before "?" u) else Some u
    | None => None
    end
  = JsString.before "?" (Js.template productUrl).
Proof.
  destruct productUrl as [u|]; [| reflexivity].
  destruct (JsString.includes "?" u) eqn:E; cbn; [reflexivity |].
  symmetry. apply before_without, E.
Qed.

Lemma selectedOptionsValues_all (ids : list string) :
  Forall (fun i => Js.truthy i = true) ids ->
  selectedOptionsValues (Some <$> ids) = Fetch.Return ids.
Proof.
  induction 1 as [| i ids Hi _ IH]; cbn; [reflexivity |].
  rewrite Hi, IH. reflexivity.
Qed.

Lemma selectedOptionsValues_missing (ids : list (option string)) :
  Exists (fun o => Js.truthy_opt o = false) ids ->
  selectedOptionsValues ids = Fetch.Throw noOptionValueId.
Proof.
  induction 1 as [o ids Ho | o ids _ IH]; cbn.
  - rewrite Ho. reflexivity.
  - rewrite IH. destruct (Js.truthy_opt o); reflexivity.
Qed.

(** While the request for a connected product is unanswered, the
    requests that follow go to that product: once [#pendingRequestUrl]
    holds a URL, [buildRequestUrl] keeps it for every option that names
    no product of its own, a fetch that is aborted or fails leaves it in
    place, and only the text of a response resets it. *)
Theorem pending_product_url_sticks {dom : VariantPicker.Dom}
    (st : VariantPicker.t) (u : string) :
  VariantPicker.pendingRequestUrl st = Some u ->
  Js.truthy u = true ->
  (forall h o source values,
      Js.truthy_opt (connectedProductUrl o) = false ->
      (buildRequestUrl (VariantPicker.pendingRequestUrl st) h o source
         values).1 = Some u) /\
  (forall url m,
      VariantPicker.pendingRequestUrl
        (VariantPicker.fetchUpdatedSection st url m) = Some u) /\
  (forall f e,
      VariantPicker.pendingRequestUrl
        (VariantPicker.settle st f (Fetch.Rejected e)) = Some u) /\
  (forall f r e,
      Fetch.body r = Fetch.BodyError e ->
      VariantPicker.pendingRequestUrl
        (VariantPicker.settle st f (Fetch.Fulfilled r)) = Some u) /\
  (forall f r text,
      Fetch.body r = Fetch.Text text ->
      VariantPicker.pendingRequestUrl
        (VariantPicker.settle st f (Fetch.Fulfilled r)) = None).
Proof.
  intros Hp Hu.
  assert (Hc : forall s e,
             VariantPicker.pendingRequestUrl (VariantPicker.catchCallback s e)
             = VariantPicker.pendingRequestUrl s).
  { intros s e. apply VariantFacts.catchCallback_frame. }
  split; [| split; [| split; [| split]]].
  - intros h o source values Ho. cbn. unfold first_truthy.
    rewrite Ho, Hp. cbn. rewrite Hu. reflexivity.
  - intros url m. unfold VariantPicker.fetchUpdatedSection.
    destruct (Fetch.abort _ _) as [kept aborted].
    match goal with
    | |- context [foldl _ ?s aborted] =>
        assert (E : VariantPicker.pendingRequestUrl s = Some u) by exact Hp;
        generalize dependent s
    end.
    induction aborted as [| a l IH]; intros s E; cbn; [exact E |].
    apply IH. rewrite Hc. exact E.
  - intros f e. cbn. rewrite Hc. exact Hp.
  - intros f r e Hb. cbn. rewrite Hb, Hc. exact Hp.
  - intros f r text Hb. cbn. rewrite Hb.
    destruct (VariantPicker.morphed text (Fetch.flag f) _) as [d [e|]].
    + rewrite Hc. reflexivity.
    + reflexivity.
Qed.

Lemma pending_product_url_sticks_witness :
  let st :=
    VariantPicker.with_pending (VariantPicker.init VariantPicker.sizes)
      (Some "/products/shirt-blue"%string) in
  (buildRequestUrl (VariantPicker.pendingRequestUrl st) card_host
     plain_option None []).1 = Some "/products/shirt-blue"%string.
Proof.
  intro st.
  destruct (pending_product_url_sticks st "/products/shirt-blue" eq_refl
              eq_refl) as (H & _).
  apply (H card_host plain_option None []). reflexivity.
Defined.

(** For a picker inside a quick-add component or a swatches picker whose
    selected elements all carry an option value id, the request URL is
    the product URL up to its first [?], the parameter that asks for the
    product-card section, and the selected ids joined by commas; the
    query string of the product URL itself is dropped. *)
Theorem card_request_url (pending : option string) (h : Host)
    (o : OptionData) (ids : list string) :
  inCard h = true ->
  selectedIds h = Some <$> ids ->
  Forall (fun i => Js.truthy i = true) ids ->
  ids <> [] ->
  let u :=
    Js.template (first_truthy (connectedProductUrl o) pending (productUrl h)) in
  (buildRequestUrl pending h o None []).2
  = Fetch.Return
      (JsString.before "?" u +:+
       "?section_id=section-rendering-product-card&option_values=" +:+
       JsString.join "," ids) /\
  JsString.includes "?" (JsString.before "?" u) = false.
Proof.
  intros Hc Hs Hall Hne. cbv zeta. split; [| apply before_excludes].
  unfold buildRequestUrl. cbn [snd].
  rewrite Hs, (selectedOptionsValues_all ids Hall), Hc.
  destruct ids as [| i ids]; [contradiction |].
  cbn [is_empty negb andb Js.truthy_opt].
  rewrite card_url_before. reflexivity.
Qed.

Lemma card_request_url_witness :
  (buildRequestUrl None card_host plain_option None []).2
  = Fetch.Return
      "/products/shirt?section_id=section-rendering-product-card&option_values=101"%string
  /\ JsString.includes "?" "/products/shirt" = false.
Proof.
  refine (card_request_url None card_host plain_option ["101"%string]
            _ _ _ _).
  - reflexivity.
  - reflexivity.
  - repeat constructor.
  - discriminate.
Defined.

(** When one of the selected elements has no option value id,
    [buildRequestUrl] throws, but only after it has overwritten
    [#pendingRequestUrl]; [variantChanged] then starts no fetch and
    aborts none. *)
Theorem missing_option_id_stops_request {dom : VariantPicker.Dom}
    (st : VariantPicker.t) (h : Host) (o : OptionData) (m : bool) :
  Exists (fun i => Js.truthy_opt i = false) (selectedIds h) ->
  let '(st', thrown) := requestUpdate st h o m in
  thrown = Some noOptionValueId /\
  VariantPicker.pendingRequestUrl st'
  = first_truthy (connectedProductUrl o) (VariantPicker.pendingRequestUrl st)
      (productUrl h) /\
  VariantPicker.fetches st' = VariantPicker.fetches st /\
  VariantPicker.next_fetch st' = VariantPicker.next_fetch st /\
  VariantPicker.console st' = VariantPicker.console st.
Proof.
  intros H. unfold requestUpdate, buildRequestUrl.
  rewrite (selectedOptionsValues_missing _ H). repeat split.
Qed.

Lemma missing_option_id_stops_request_witness :
  let h := mkHost (Some "/products/shirt"%string) [Some "101"%string; None]
             false in
  let '(st', thrown) :=
    requestUpdate (VariantPicker.init VariantPicker.sizes) h plain_option
      false in
  thrown = Some noOptionValueId /\
  VariantPicker.pendingRequestUrl st' = Some "/products/shirt"%string /\
  VariantPicker.fetches st'
  = VariantPicker.fetches (VariantPicker.init VariantPicker.sizes) /\
  VariantPicker.next_fetch st' = 0%nat /\
  VariantPicker.console st' = [].
Proof.
  intro h.
  refine (missing_option_id_stops_request
            (VariantPicker.init VariantPicker.sizes) h plain_option false _).
  apply Exists_cons_tl, Exists_cons_hd. reflexivity.
Defined.

End RequestFacts.

Module CardFacts.

Import ProductCard.

#[local] Existing Instance QuickAdd.plain_dom.

#[local] Arguments QuickAdd.finish : simpl never.

(** Toggling the button leaves the quick-add component alone. *)
Lemma isUnavailableVariantSelected_quickAdd {dom : QuickAdd.Dom} (c : t)
    (allVariants : list (option string)) :
  quickAdd (isUnavailableVariantSelected c allVariants) = quickAdd c.
Proof.
  unfold isUnavailableVariantSelected.
  induction allVariants as [| a l IH] using rev_ind; [reflexivity |].
  rewrite foldl_snoc. unfold toggleAddToCartButton at 1.
  destruct (addToCartDisabled _); exact IH.
Qed.

(** The add-to-cart button follows the last checked input of the new
    markup only: every checked input toggles the button in turn, so the
    availability of the earlier ones is overwritten. *)
Theorem button_follows_last_checked_input {dom : QuickAdd.Dom} (c : t)
    (allVariants : list (option string)) :
  addToCartDisabled (isUnavailableVariantSelected c allVariants)
  = match addToCartDisabled c, last allVariants with
    | Some _, Some optionAvailable =>
        Some (negb (bool_decide (optionAvailable = Some "true"%string)))
    | disabled, _ => disabled
    end /\
  quickAdd (isUnavailableVariantSelected c allVariants) = quickAdd c.
Proof.
  assert (Ht : forall s e,
             addToCartDisabled (toggleAddToCartButton s e)
             = match addToCartDisabled s with
               | Some _ => Some (negb e)
               | None => None
               end /\
             quickAdd (toggleAddToCartButton s e) = quickAdd s).
  { intros s e. unfold toggleAddToCartButton.
    destruct (addToCartDisabled s) eqn:E; cbn; rewrite ?E; auto. }
  unfold isUnavailableVariantSelected.
  induction allVariants as [| a l IH] using rev_ind.
  - cbn. destruct (addToCartDisabled c); split; reflexivity.
  - rewrite foldl_snoc, last_snoc. destruct IH as [IH1 IH2].
    destruct (Ht (foldl
                    (fun s optionAvailable =>
                       toggleAddToCartButton s
                         (bool_decide (optionAvailable = Some "true"%string)))
                    c l)
                 (bool_decide (a = Some "true"%string))) as [-> ->].
    split; [| exact IH2]. rewrite IH1.
    destruct (addToCartDisabled c); [| reflexivity].
    destruct (last l); reflexivity.
Qed.

(** A page the card fetches ahead of a click is dropped: whatever the
    answer, the cache, the modal and the dialog of the quick-add
    component stay as they were, a failure is a rejection nothing
    handles, and the click that follows fetches the page again. *)
Theorem prefetched_page_is_dropped {dom : QuickAdd.Dom} (c : t)
    (q : QuickAdd.t) (o : Fetch.Outcome) :
  quickAdd c = Some q ->
  QuickAdd.inflight q = [] -> QuickAdd.clicks q = [] ->
  prefetching c = true -> prefetches c = [] ->
  Js.truthy (productPageUrl c) = true ->
  let n := QuickAdd.next_fetch q in
  let c1 := step c PointerEnter in
  let c2 := step c1 (Settled n o) in
  exists q1 q2,
    quickAdd c1 = Some q1 /\
    QuickAdd.inflight q1 = [Fetch.mkPending n (productPageUrl c) false] /\
    quickAdd c2 = Some q2 /\
    QuickAdd.inflight q2 = [] /\
    QuickAdd.cachedContent q2 = QuickAdd.cachedContent q /\
    QuickAdd.modalContent q2 = QuickAdd.modalContent q /\
    QuickAdd.dialog q2 = QuickAdd.dialog q /\
    unhandled c2
    = unhandled c ++
      match (QuickAdd.fetchProductPageSettled q1 o).2 with
      | Fetch.Throw e => [e]
      | Fetch.Return _ => []
      end /\
    (QuickAdd.cachedContent q !! productPageUrl c = None ->
     QuickAdd.inflight (QuickAdd.handleClick q2 (productPageUrl c))
     = [Fetch.mkPending (S n) (productPageUrl c) false]).
Proof.
  intros Hq Hi Hcl Hpre Hps Hu. cbv zeta.
  cbn [step]. rewrite Hpre.
  unfold fetchProductPageHandler, fetchProductPage. rewrite Hq.
  unfold QuickAdd.fetchProductPage. rewrite Hu, Hi. cbn [negb].
  assert (Ea : Fetch.abort (QuickAdd.abortController q) []
               = ([], [])) by (destruct (QuickAdd.abortController q);
                               reflexivity).
  rewrite Ea. cbn [foldl app]. rewrite Hps. cbn [filter app option_list].
  eexists. eexists. split; [reflexivity |]. split; [reflexivity |].
  unfold settled. cbn [quickAdd with_quickAdd QuickAdd.inflight
                       QuickAdd.with_fetches list_find].
  cbn. rewrite decide_True by reflexivity. cbn.
  rewrite bool_decide_eq_true_2 by apply list_elem_of_here.
  cbn. unfold QuickAdd.settled. cbn.
  rewrite decide_True by reflexivity. cbn.
  rewrite decide_False by tauto. cbn.
  unfold QuickAdd.finish. cbn. rewrite Hcl. cbn.
  split; [reflexivity |]. split; [reflexivity |].
  split; [reflexivity |]. split; [reflexivity |]. split; [reflexivity |].
  split.
  - destruct o as [r | e]; cbn.
    + destruct (Fetch.ok r); cbn.
      * destruct (Fetch.body r) as [s | e]; cbn;
          [rewrite app_nil_r; reflexivity |].
        unfold QuickAdd.catchBlock. destruct (Fetch.is_abort e);
          [rewrite app_nil_r |]; reflexivity.
      * reflexivity.
    + unfold QuickAdd.catchBlock. destruct (Fetch.is_abort e);
        [rewrite app_nil_r |]; reflexivity.
  - intros Hc. unfold QuickAdd.handleClick. cbn. rewrite Hc.
    unfold QuickAdd.fetchProductPage. rewrite Hu. cbn. reflexivity.
Qed.

Lemma prefetched_page_is_dropped_witness :
  let o := Fetch.Fulfilled (Fetch.mkResponse true 200 (Fetch.Text "<main>")) in
  let c1 := step shirt PointerEnter in
  let c2 := step c1 (Settled 0 o) in
  exists q1 q2,
    quickAdd c1 = Some q1 /\
    QuickAdd.inflight q1 = [Fetch.mkPending 0 "/products/shirt" false] /\
    quickAdd c2 = Some q2 /\
    QuickAdd.inflight q2 = [] /\
    QuickAdd.cachedContent q2 = QuickAdd.cachedContent QuickAdd.init /\
    QuickAdd.modalContent q2 = QuickAdd.modalContent QuickAdd.init /\
    QuickAdd.dialog q2 = QuickAdd.dialog QuickAdd.init /\
    unhandled c2
    = unhandled shirt ++
      match (QuickAdd.fetchProductPageSettled q1 o).2 with
      | Fetch.Throw e => [e]
      | Fetch.Return _ => []
      end /\
    (QuickAdd.cachedContent QuickAdd.init !! productPageUrl shirt = None ->
     QuickAdd.inflight (QuickAdd.handleClick q2 (productPageUrl shirt))
     = [Fetch.mkPending 1 (productPageUrl shirt) false]).
Proof.
  intro o.
  refine (prefetched_page_is_dropped shirt QuickAdd.init o _ _ _ _ _ _);
    reflexivity.
Defined.

(** A variant update on the card while a click waits for its page aborts
    the fetch of the click: the click goes on without a page, so the
    dialog opens over the content the modal had, nothing is cached, and
    the page the card has asked for instead will be dropped. *)
Theorem variant_update_aborts_waiting_click {dom : QuickAdd.Dom} (c : t)
    (q : QuickAdd.t) (f : Fetch.Pending) (u href : string)
    (allVariants : list (option string)) :
  quickAdd c = Some q ->
  QuickAdd.inflight q = [f] ->
  QuickAdd.abortController q = Some (Fetch.id f) ->
  QuickAdd.clicks q = [(Fetch.id f, u)] ->
  Js.truthy href = true ->
  let c1 := step c (VariantUpdate allVariants href) in
  exists q1,
    quickAdd c1 = Some q1 /\
    QuickAdd.clicks q1 = [] /\
    QuickAdd.cachedContent q1 = QuickAdd.cachedContent q /\
    QuickAdd.modalContent q1 = QuickAdd.modalContent q /\
    (is_Some (QuickAdd.dialog q) -> QuickAdd.dialog q1 = Some true) /\
    QuickAdd.inflight q1
    = [Fetch.mkPending (QuickAdd.next_fetch q) href false] /\
    QuickAdd.abortController q1 = None.
Proof.
  intros Hq Hi Hc Hcl Hu. cbv zeta. cbn [step].
  unfold handleVariantUpdate, fetchProductPage.
  cbn [quickAdd productPageUrl].
  rewrite (isUnavailableVariantSelected_quickAdd c allVariants), Hq.
  unfold QuickAdd.fetchProductPage. rewrite Hu, Hi, Hc. cbn.
  rewrite decide_False by tauto. rewrite decide_True by reflexivity.
  cbn. unfold QuickAdd.finish. cbn. rewrite Hcl. cbn.
  rewrite (decide_True (P := Fetch.id f = Fetch.id f)) by reflexivity.
  rewrite (decide_False (P := Fetch.id f ≠ Fetch.id f)) by tauto.
  change (QuickAdd.catchBlock Fetch.AbortError)
    with (@Fetch.Return (option string) None).
  cbn. unfold QuickAdd.openQuickAddModal. cbn.
  eexists. split; [reflexivity |].
  destruct (QuickAdd.dialog q) as [d|]; cbn; repeat split;
    try (intros [? [=]]).
Qed.

(** The card of a component whose first click waits for its page. *)
Lemma variant_update_aborts_waiting_click_witness :
  let c := mk (Some QuickAdd.first_click) "/products/a" (Some false) true
              [] [] in
  let c1 := step c (VariantUpdate [Some "true"%string] "/products/a?variant=2")
  in
  exists q1,
    quickAdd c1 = Some q1 /\
    QuickAdd.clicks q1 = [] /\
    QuickAdd.cachedContent q1 = QuickAdd.cachedContent QuickAdd.first_click /\
    QuickAdd.modalContent q1 = QuickAdd.modalContent QuickAdd.first_click /\
    (is_Some (QuickAdd.dialog QuickAdd.first_click) ->
     QuickAdd.dialog q1 = Some true) /\
    QuickAdd.inflight q1
    = [Fetch.mkPending (QuickAdd.next_fetch QuickAdd.first_click)
         "/products/a?variant=2" false] /\
    QuickAdd.abortController q1 = None.
Proof.
  intro c.
  refine (variant_update_aborts_waiting_click c QuickAdd.first_click
            (Fetch.mkPending 0 "/products/a" false) "/products/a"
            "/products/a?variant=2" [Some "true"%string] _ _ _ _ _);
    reflexivity.
Defined.

End CardFacts.

Module DialogFacts.

Import QuickAddDialog.

(** The width patch of [#handleDialogClose] runs exactly when
    [getIOSVersion] gives a version, and one before 16.4; otherwise, also
    off iOS, where it gives [null], the handler changes nothing.  When
    the patch runs, one animation frame writes the inline width of the
    results grid and the next one empties it, so that the inline width
    the markup had is not there afterwards; without a results grid the
    frames change nothing. *)
Theorem width_patch_below_ios_16_4 (st : t) (v : option IOSVersion) :
  frames st = [] ->
  (skipsPatch v = false <-> exists ver, v = Some ver /\ before_16_4 ver) /\
  (skipsPatch v = true -> handleDialogClose st v = st) /\
  (skipsPatch v = false ->
   frame (handleDialogClose st v)
   = match grid st with
     | Some _ => mk (Some OnePixelLess) [Restore]
     | None => mk None []
     end /\
   frame (frame (handleDialogClose st v))
   = match grid st with
     | Some _ => mk (Some Cleared) []
     | None => mk None []
     end).
Proof.
  intros Hf. split; [| split].
  - destruct v as [[M m]|]; cbn.
    + unfold before_16_4. cbn. split.
      * intros H. eexists. split; [reflexivity |].
        destruct M as [M|]; [| exact I]. cbn in H.
        destruct (Z.leb_spec 17 M) as [E1 | E1]; [discriminate |].
        cbn in H.
        destruct (Z.eqb_spec M 16) as [E2 | E2]; [| left; lia]. right.
        split; [exact E2 |]. cbn. destruct m as [m|]; [| exact I].
        cbn in H. destruct (Z.leb_spec 4 m); [discriminate | lia].
      * intros (ver & [= <-] & H). cbn in H.
        destruct M as [M|]; [| reflexivity]. cbn.
        destruct H as [H | [-> H]].
        -- destruct (Z.leb_spec 17 M); [lia |].
           destruct (Z.eqb_spec M 16); [lia | reflexivity].
        -- cbn. destruct m as [m|]; [| reflexivity]. cbn.
           destruct (Z.leb_spec 4 m); [lia | reflexivity].
    + split; [discriminate |]. intros (ver & [=] & _).
  - intros H. unfold handleDialogClose. rewrite H. reflexivity.
  - intros H. unfold handleDialogClose. rewrite H.
    unfold frame. cbn. rewrite Hf. cbn.
    destruct (grid st); split; reflexivity.
Qed.

(** iOS 16.3 on a page with a results grid. *)
Lemma width_patch_below_ios_16_4_witness :
  let st := mk (Some AsRendered) [] in
  let v := Some (mkVersion (Some 16%Z) (Some 3%Z)) in
  (skipsPatch v = false <-> exists ver, v = Some ver /\ before_16_4 ver) /\
  (skipsPatch v = true -> handleDialogClose st v = st) /\
  (skipsPatch v = false ->
   frame (handleDialogClose st v) = mk (Some OnePixelLess) [Restore] /\
   frame (frame (handleDialogClose st v)) = mk (Some Cleared) []).
Proof.
  intros st v.
  refine (width_patch_below_ios_16_4 st v _). reflexivity.
Defined.

End DialogFacts.

(** ** Character counter, editor states and popover timers *)

Module CounterFacts.

Import CharacterCount.

Lemma includes_app (c : ascii) (a b : string) :
  JsString.includes c (a +:+ b)
  = JsString.includes c a || JsString.includes c b.
Proof.
  induction a as [| x a IH]; [reflexivity |].
  change (String x a +:+ b) with (String x (a +:+ b)).
  cbn [JsString.includes].
  destruct (Ascii.eqb x c); [reflexivity | exact IH].
Qed.

Lemma plain_app (a b : string) : plain a -> plain b -> plain (a +:+ b).
Proof. unfold plain. intros Ha Hb. rewrite includes_app, Ha, Hb. reflexivity. Qed.

Lemma prefix_here (pattern s : string) :
  String.prefix pattern (pattern +:+ s) = true.
Proof.
  induction pattern as [| a p IH]; [destruct s; reflexivity |].
  change (String a p +:+ s) with (String a (p +:+ s)).
  cbn [String.prefix].
  destruct (ascii_dec a a); [exact IH | contradiction].
Qed.

Lemma drop_here (pattern s : string) :
  JsString.drop (String.length pattern) (pattern +:+ s) = s.
Proof.
  induction pattern as [| a p IH]; [destruct s; reflexivity |].
  change (String a p +:+ s) with (String a (p +:+ s)). exact IH.
Qed.

(** The first occurrence is the one that is replaced. *)
Lemma replace_here (pattern replacement s : string) :
  JsString.replace pattern replacement (pattern +:+ s) = replacement +:+ s.
Proof.
  assert (E : forall t,
             JsString.replace pattern replacement t
             = if String.prefix pattern t
               then replacement +:+ JsString.drop (String.length pattern) t
               else match t with
                    | String a r =>
                        String a (JsString.replace pattern replacement r)
                    | EmptyString => EmptyString
                    end) by (intros [| a r]; reflexivity).
  rewrite E, prefix_here, drop_here. reflexivity.
Qed.

(** A stretch without a bracket is stepped over by a pattern that starts
    with one. *)
Lemma replace_plain (pattern replacement p s : string) :
  plain p ->
  JsString.replace (String "[" pattern) replacement (p +:+ s)
  = p +:+ JsString.replace (String "[" pattern) replacement s.
Proof.
  unfold plain. induction p as [| a p IH]; [reflexivity |].
  change (String a p +:+ s) with (String a (p +:+ s)).
  cbn [JsString.includes]. destruct (Ascii.eqb a "[") eqn:E; [discriminate |].
  intros Hp. cbn [JsString.replace String.prefix].
  destruct (ascii_dec "[" a) as [<- | _]; [discriminate |].
  rewrite (IH Hp). reflexivity.
Qed.

Lemma plain_digit (x : N) (s : string) :
  plain s -> plain (String (pretty_N_char x) s).
Proof.
  unfold plain, pretty_N_char. intros H.
  repeat case_match; cbn; exact H.
Qed.

Lemma plain_pretty_N_go (x : N) (s : string) :
  plain s -> plain (pretty_N_go x s).
Proof.
  revert s. induction (N.lt_wf_0 x) as [x _ IH]; intros s Hs.
  destruct (decide (x = 0%N)) as [-> | Hx].
  - rewrite pretty_N_go_0. exact Hs.
  - rewrite pretty_N_go_step by lia. apply IH.
    + apply N.div_lt; lia.
    + apply plain_digit, Hs.
Qed.

Lemma plain_pretty_N (x : N) : plain (pretty x).
Proof.
  unfold pretty, pretty_N. case_decide; [reflexivity |].
  apply plain_pretty_N_go. reflexivity.
Qed.

Lemma plain_pretty_nat (n : nat) : plain (pretty n).
Proof. apply plain_pretty_N. Qed.

Lemma plain_pretty_Z (z : Z) : plain (pretty z).
Proof.
  destruct z as [| p | p]; [reflexivity | apply plain_pretty_N |].
  unfold pretty, pretty_Z. apply (plain_app "-"); [reflexivity |].
  apply plain_pretty_N.
Qed.

(** A template with one [[current]] and, after it, one [[max]] is filled
    in with the length of the value, in UTF-16 code units as
    [value.length] counts it, and the maximum length of the field;
    what follows [[max]] is copied as it is, also a further placeholder.
    This is the counter of the custom property field and of the message
    of the gift card form. *)
Theorem character_count_filled (p q r value old : string) (maxLength : Z) :
  plain p -> plain q ->
  updateCharacterCount
    (Some (p +:+ "[current]" +:+ q +:+ "[max]" +:+ r)) value maxLength old
  = p +:+ pretty (Js.length value) +:+ q +:+ pretty maxLength +:+ r.
Proof.
  intros Hp Hq. unfold updateCharacterCount.
  assert (Ht : Js.truthy (p +:+ "[current]" +:+ q +:+ "[max]" +:+ r) = true)
    by (destruct p; reflexivity).
  rewrite Ht.
  rewrite (replace_plain "current]" _ p _ Hp).
  change ("[current]" +:+ q +:+ "[max]" +:+ r)
    with ("[current]" +:+ (q +:+ "[max]" +:+ r)).
  rewrite (replace_here "[current]").
  rewrite (replace_plain "max]" _ p _ Hp).
  rewrite (replace_plain "max]" _ _ _ (plain_pretty_nat (Js.length value))).
  rewrite (replace_plain "max]" _ q _ Hq).
  rewrite (replace_here "[max]"). reflexivity.
Qed.

(** Five letters, one of them with an accent. *)
Lemma character_count_filled_witness :
  updateCharacterCount (Some "[current]/[max] characters"%string) "Héllo"
    200 EmptyString
  = "5/200 characters"%string.
Proof.
  refine (character_count_filled EmptyString "/" " characters" "Héllo"
            EmptyString 200 _ _); reflexivity.
Defined.

End CounterFacts.

Module EditorFacts.

Import EditorState.

Lemma keyOf_inj (a b : string) : keyOf a = keyOf b -> a = b.
Proof. unfold keyOf. cbn. intros [= H]. exact H. Qed.

Lemma keyOf_not_flag (a : string) : keyOf a <> unloadingKey.
Proof. unfold keyOf. cbn. discriminate. Qed.

Lemma keyOf_prefix (a : string) : String.prefix EDITOR_PREFIX (keyOf a) = true.
Proof. reflexivity. Qed.

(** After a navigation (the [beforeunload] listener has run), the page
    load restores nothing and leaves no saved state of the editor: every
    key that starts with the prefix is gone, the flag itself is consumed,
    and every other key of the session storage is kept. *)
Theorem navigation_clears_saved_states {json : Json} (s : Storage)
    (features : list Feature) :
  let '(s', (opened, completed)) := pageLoad (beforeunload s) features in
  opened = [] /\ completed = true /\
  (forall name, getEditorState s' name = Some None) /\
  forall k : string,
    s' !! k
    = if String.prefix EDITOR_PREFIX k || bool_decide (k = unloadingKey)
      then None else s !! k.
Proof.
  unfold pageLoad, wasPageUnloading, beforeunload.
  rewrite lookup_insert_eq, bool_decide_eq_true_2 by reflexivity.
  rewrite delete_insert_eq.
  assert (H : forall k : string,
             clearAllEditorStates (delete unloadingKey s) !! k
             = if String.prefix EDITOR_PREFIX k
                  || bool_decide (k = unloadingKey)
               then None else s !! k).
  { intros k. unfold clearAllEditorStates. rewrite map_lookup_filter.
    destruct (String.prefix EDITOR_PREFIX k) eqn:Ep; cbn.
    - destruct (delete unloadingKey s !! k); cbn; [| reflexivity].
      rewrite option_guard_False; [reflexivity |]. cbn. rewrite Ep.
      discriminate.
    - case_bool_decide as Hk.
      + subst k. rewrite lookup_delete_eq. reflexivity.
      + rewrite lookup_delete_ne by congruence.
        destruct (s !! k); cbn; [| reflexivity].
        rewrite option_guard_True; [reflexivity |]. exact Ep. }
  split; [reflexivity |]. split; [reflexivity |]. split; [| exact H].
  intros name. unfold getEditorState. rewrite H, keyOf_prefix. reflexivity.
Qed.

Section Restoring.

Context {json : Json}.

(** A feature the loop asks to open is on the page and was saved open,
    with the instance id it is opened with. *)
Lemma restore_elem (s : Storage) (fs : list Feature) (n : string)
    (x : option string) :
  (n, x) ∈ (restore s fs).1 ->
  exists f st, f ∈ fs /\ present f = true /\ name f = n /\
    getEditorState s n = Some (Some st) /\
    isOpen st = true /\ instanceId st = x.
Proof.
  induction fs as [| f fs IH]; cbn; [intros H; inversion H |].
  assert (Hrest : (n, x) ∈ (restore s fs).1 ->
            exists f0 st, f0 ∈ f :: fs /\ present f0 = true /\
              name f0 = n /\ getEditorState s n = Some (Some st) /\
              isOpen st = true /\ instanceId st = x).
  { intros H. destruct (IH H) as (f0 & st & Hin & Hrest).
    exists f0, st. split; [right; exact Hin | exact Hrest]. }
  destruct (present f) eqn:Hp; [| exact Hrest].
  destruct (getEditorState s (name f)) as [state|] eqn:Hg;
    [| intros H; inversion H].
  destruct (restore s fs) as [opened completed]. cbn in Hrest |- *.
  destruct state as [st|]; cbn; [| exact Hrest].
  destruct (isOpen st) eqn:Ho; [| exact Hrest].
  intros H. apply elem_of_cons in H as [[= -> ->] | H]; [| exact (Hrest H)].
  exists f, st. split; [left |]. repeat split; assumption.
Qed.

(** Past features that are readable the loop goes on with the rest. *)
Lemma restore_app (s : Storage) (before rest : list Feature) :
  Forall (readable s) before ->
  restore s (before ++ rest)
  = ((restore s before).1 ++ (restore s rest).1, (restore s rest).2).
Proof.
  intros H. induction H as [| f before Hf _ IH]; cbn.
  - destruct (restore s rest); reflexivity.
  - destruct (present f) eqn:Hp; [| exact IH].
    destruct (Hf Hp) as [state ->]. rewrite IH.
    destruct (restore s before) as [o1 c1]. cbn.
    destruct (default false (isOpen <$> state)); reflexivity.
Qed.

End Restoring.

(** A state saved for a feature is the state read back for it, and only
    for it.  On the next load of the page without a navigation in
    between, whatever the table of features is, the storage is left as
    it is; a feature of that name that is on the page, and that the loop
    reaches because the features before it are readable, is opened again
    exactly when it was saved open, and only with the instance id it was
    saved with.  When a feature on the page before it has a stored state
    that does not parse, the loop ends there, and the feature is not
    opened unless one of that name came earlier. *)
Theorem saved_state_restored_on_refresh {json : Json} (s : Storage)
    (name : string) (open : bool) (id : option string) :
  (forall v, parse (stringify v) = Some (Some v) /\
             stringify v <> EmptyString) ->
  s !! unloadingKey <> Some "true"%string ->
  let s1 := saveEditorState s name open id in
  getEditorState s1 name = Some (Some (mkSaved open id)) /\
  (forall other, other <> name ->
                 getEditorState s1 other = getEditorState s other) /\
  (forall features, (pageLoad s1 features).1 = s1) /\
  (forall before after opened completed,
      Forall (readable s1) before ->
      (pageLoad s1 (before ++ mkFeature name true :: after)).2
      = (opened, completed) ->
      ((name, id) ∈ opened <-> open = true) /\
      (forall x, (name, x) ∈ opened -> x = id)) /\
  (forall before f rest opened completed,
      Forall (readable s1) before ->
      present f = true -> getEditorState s1 (EditorState.name f) = None ->
      (forall g, g ∈ before -> EditorState.name g <> name) ->
      (pageLoad s1 (before ++ f :: rest)).2 = (opened, completed) ->
      completed = false /\ forall x, (name, x) ∉ opened).
Proof.
  intros Hjson Hflag. cbv zeta.
  destruct (Hjson (mkSaved open id)) as [Hp Hne].
  assert (Hget : getEditorState (saveEditorState s name open id) name
                 = Some (Some (mkSaved open id))).
  { unfold getEditorState, saveEditorState. rewrite lookup_insert_eq.
    destruct (stringify (mkSaved open id)); [contradiction |]. exact Hp. }
  assert (Hload : forall features,
             pageLoad (saveEditorState s name open id) features
             = (saveEditorState s name open id,
                restore (saveEditorState s name open id) features)).
  { intros features. unfold pageLoad, wasPageUnloading.
    assert (Hf : saveEditorState s name open id !! unloadingKey
                 = s !! unloadingKey).
    { unfold saveEditorState. apply lookup_insert_ne, keyOf_not_flag. }
    rewrite Hf, bool_decide_eq_false_2 by exact Hflag. reflexivity. }
  set (s1 := saveEditorState s name open id) in *.
  split; [exact Hget |]. split; [| split; [| split]].
  - intros other Ho. unfold getEditorState, s1, saveEditorState.
    rewrite lookup_insert_ne; [reflexivity |].
    intros E. apply keyOf_inj in E. congruence.
  - intros features. rewrite Hload. reflexivity.
  - intros before after opened completed Hb E. rewrite Hload in E. cbn in E.
    assert (Hin : forall x, (name, x) ∈ opened -> open = true /\ x = id).
    { intros x Hx.
      assert (Hx' : (name, x) ∈
                (restore s1 (before ++ mkFeature name true :: after)).1)
        by (rewrite E; exact Hx).
      apply restore_elem in Hx' as (f & st & _ & _ & _ & Hst & Ho & Hi).
      rewrite Hget in Hst. injection Hst as <-. cbn in Ho, Hi.
      split; [exact Ho | symmetry; exact Hi]. }
    split; [split |].
    + intros Hx. exact (proj1 (Hin id Hx)).
    + intros ->. rewrite (restore_app s1 before _ Hb) in E.
      injection E as <- _. apply elem_of_app. right.
      cbn [restore present EditorState.name]. rewrite Hget.
      destruct (restore s1 after). cbn. left.
    + intros x Hx. exact (proj2 (Hin x Hx)).
  - intros before f rest opened completed Hb Hpf Hnone Hnames E.
    rewrite Hload in E. cbn in E.
    rewrite (restore_app s1 before _ Hb) in E.
    cbn [restore] in E. rewrite Hpf, Hnone in E. cbn in E.
    injection E as <- <-. split; [reflexivity |].
    intros x Hx. rewrite app_nil_r in Hx.
    apply restore_elem in Hx as (g & st & Hg & _ & Hn & _).
    exact (Hnames g Hg Hn).
Qed.

(** The cart drawer saved open, in a table where the account popover,
    which is not on the page, comes first. *)
Lemma saved_state_restored_on_refresh_witness :
  let s1 := saveEditorState ∅ "cart-drawer" true None in
  getEditorState s1 "cart-drawer" = Some (Some (mkSaved true None)) /\
  (pageLoad s1 [mkFeature "account-popover" false;
                mkFeature "cart-drawer" true]).1 = s1 /\
  (("cart-drawer"%string, None)
   ∈ (pageLoad s1 [mkFeature "account-popover" false;
                   mkFeature "cart-drawer" true]).2.1 <-> true = true).
Proof.
  intros s1.
  destruct (saved_state_restored_on_refresh ∅ "cart-drawer" true None)
    as (Hget & _ & Hs & Hopen & _).
  - intros [o [i|]]; split; destruct o; (reflexivity || discriminate).
  - rewrite lookup_empty. discriminate.
  - split; [exact Hget |]. split; [apply Hs |].
    refine (proj1 (Hopen [mkFeature "account-popover" false] []
                     _ _ _ eq_refl)).
    apply Forall_singleton. intros [=].
Defined.

End EditorFacts.

Module PopoverFacts.

Import AnchoredPopover.

(** Handing the pointer over from the trigger to the open popover clears
    the timer that would hide it: nothing is pending afterwards.  Going
    back to the trigger instead does not clear it, because
    [#onTriggerEnter] clears no timer and starts none for an open
    popover: the timer fires and hides the popover under the pointer. *)
Theorem hide_timer_survives_return_to_trigger (st : t) :
  popoverOpen st = true ->
  timers st = [] ->
  let h := next_timer st in
  timers (run st [TriggerLeave]) = [(h, Hide)] /\
  timers (run st [TriggerLeave; PopoverEnter]) = [] /\
  popoverOpen (run st [TriggerLeave; PopoverEnter]) = true /\
  timers (run st [TriggerLeave; TriggerEnter]) = [(h, Hide)] /\
  hoverActive (run st [TriggerLeave; TriggerEnter; Fire h]) = true /\
  popoverOpen (run st [TriggerLeave; TriggerEnter; Fire h]) = false.
Proof.
  intros Ho Ht. cbv zeta.
  assert (E1 : step st TriggerLeave
               = mk false true (Some (next_timer st))
                    [(next_timer st, Hide)] (S (next_timer st))).
  { cbn. unfold onTriggerLeave, clearTimeout. cbn. rewrite Ht.
    destruct (popoverTrigger st); cbn; rewrite Ho; unfold setTimeout; cbn;
      rewrite ?Ho, ?Ht; reflexivity. }
  unfold run. cbn [foldl]. rewrite E1. cbn.
  rewrite (decide_False (P := next_timer st ≠ next_timer st)) by tauto.
  unfold fire. cbn. rewrite decide_True by reflexivity. cbn.
  repeat split.
Qed.

(** The pointer enters the trigger, the popover opens, the pointer
    leaves and comes back within the delay. *)
Lemma hide_timer_survives_return_to_trigger_witness :
  let st := run init [TriggerEnter; Fire 1] in
  timers (run st [TriggerLeave]) = [(2, Hide)] /\
  timers (run st [TriggerLeave; PopoverEnter]) = [] /\
  popoverOpen (run st [TriggerLeave; PopoverEnter]) = true /\
  timers (run st [TriggerLeave; TriggerEnter]) = [(2, Hide)] /\
  hoverActive (run st [TriggerLeave; TriggerEnter; Fire 2]) = true /\
  popoverOpen (run st [TriggerLeave; TriggerEnter; Fire 2]) = false.
Proof.
  refine (hide_timer_survives_return_to_trigger
            (run init [TriggerEnter; Fire 1]) _ _);
    reflexivity.
Defined.

End PopoverFacts.

(** ** Gift card recipient form *)

Module GiftCardFacts.

Import GiftCard.

Section Form.

Context {dom : Dom}.

Lemma keeps_form_refl st : keeps_form st st.
Proof. repeat split. Qed.

Lemma keeps_form_trans st1 st2 st3 :
  keeps_form st1 st2 -> keeps_form st2 st3 -> keeps_form st1 st3.
Proof.
  intros (H1 & H2 & H3 & H4 & H5 & H6) (G1 & G2 & G3 & G4 & G5 & G6).
  repeat split; try congruence;
    destruct (H6 n) as (? & ? & ?); destruct (G6 n) as (? & ? & ?);
    congruence.
Qed.

Lemma announce_keeps st s : keeps_form st (announce st s).
Proof. unfold announce. destruct (liveRegion st); repeat split. Qed.

Lemma dispatch_keeps st d : keeps_form st (dispatch st d).
Proof. repeat split. Qed.

Lemma updateCharacterCount_keeps st : keeps_form st (updateCharacterCount st).
Proof.
  unfold updateCharacterCount. destruct (characterCount st); repeat split.
Qed.

Lemma clearErrorMessages_keeps st : keeps_form st (clearErrorMessages st).
Proof.
  unfold clearErrorMessages.
  eapply keeps_form_trans; [| apply announce_keeps]. repeat split.
Qed.

Lemma displayFieldError_keeps st entry :
  keeps_form st (displayFieldError st entry).
Proof.
  unfold displayFieldError. destruct (fieldOf entry.1) as [k|];
    [| apply keeps_form_refl].
  repeat split; cbn; unfold update_field; destruct (decide (n = k));
    reflexivity.
Qed.

Lemma foldl_displayFieldError_keeps entries st :
  keeps_form st (foldl displayFieldError st entries).
Proof.
  revert st. induction entries as [| e l IH]; intros st; cbn [foldl].
  - apply keeps_form_refl.
  - eapply keeps_form_trans; [apply displayFieldError_keeps | apply IH].
Qed.

Lemma displayErrorMessage_keeps st title body :
  keeps_form st (displayErrorMessage st title body).
Proof.
  unfold displayErrorMessage.
  eapply keeps_form_trans; [| apply announce_keeps].
  eapply keeps_form_trans; [apply clearErrorMessages_keeps |].
  destruct body as [[entries | s] |];
    [apply foldl_displayFieldError_keeps | apply keeps_form_refl ..].
Qed.

Lemma displayCartError_keeps st data :
  keeps_form st (displayCartError st data).
Proof.
  unfold displayCartError. destruct data as [d|]; [| apply keeps_form_refl].
  destruct (errors d) as [[entries | s] |];
    try apply displayErrorMessage_keeps;
    destruct (Js.truthy_opt (message d));
    (apply displayErrorMessage_keeps || apply keeps_form_refl).
Qed.

Lemma keeps_form_in_step st st' :
  keeps_form st st' -> in_step st -> in_step st'.
Proof.
  intros (H1 & H2 & H3 & H4 & H5 & H6). unfold in_step.
  rewrite H1, H2, H3, H4, H5.
  destruct (currentMode st).
  - intros (? & ? & ? & ? & Hf).
    split; [assumption |]. split; [assumption |]. split; [assumption |].
    split; [assumption |].
    intros n. destruct (H6 n) as (-> & -> & ->). apply Hf.
  - intros (? & ? & ? & ? & He & Hf).
    split; [assumption |]. split; [assumption |]. split; [assumption |].
    split; [assumption |]. split.
    + destruct (H6 Email) as (_ & _ & ->). exact He.
    + intros n. destruct (H6 n) as (_ & -> & _). apply Hf.
Qed.

Lemma clearRecipientFields_leaves st :
  let st' := clearRecipientFields st in
  currentMode st' = currentMode st /\
  myEmailButton st' = myEmailButton st /\
  recipientEmailButton st' = recipientEmailButton st /\
  recipientFieldsHidden st' = recipientFieldsHidden st /\
  controlFlags st' = controlFlags st /\
  forall n, value (fields st' n) = EmptyString /\
            disabled (fields st' n) = disabled (fields st n) /\
            required (fields st' n) = required (fields st n).
Proof.
  cbv zeta. unfold clearRecipientFields.
  set (st1 := with_fields st _).
  destruct (keeps_form_trans _ _ _ (updateCharacterCount_keeps st1)
              (clearErrorMessages_keeps _))
    as (H1 & H2 & H3 & H4 & H5 & H6).
  rewrite H1, H2, H3, H4, H5.
  repeat split; destruct (H6 n) as (E1 & E2 & E3);
    rewrite ?E1, ?E2, ?E3; reflexivity.
Qed.

Lemma disableRecipientFields_leaves st :
  let st' := disableRecipientFields st in
  currentMode st' = currentMode st /\
  myEmailButton st' = myEmailButton st /\
  recipientEmailButton st' = recipientEmailButton st /\
  recipientFieldsHidden st' = recipientFieldsHidden st /\
  controlFlags st' = Nat.pred (controlFlags st) /\
  forall n, value (fields st' n) = value (fields st n) /\
            disabled (fields st' n) = true /\
            required (fields st' n) = false.
Proof.
  cbv zeta. unfold disableRecipientFields.
  match goal with
  | |- context [clearErrorMessages ?s] =>
      set (st2 := s);
      destruct (clearErrorMessages_keeps st2) as (H1 & H2 & H3 & H4 & H5 & H6)
  end.
  rewrite H1, H2, H3, H4, H5.
  repeat split; destruct (H6 n) as (E1 & E2 & E3);
    rewrite ?E1, ?E2, ?E3; reflexivity.
Qed.

(** What [#clearRecipientFields] followed by [#disableRecipientFields]
    leaves. *)
Lemma cleared_and_disabled st :
  let st' := disableRecipientFields (clearRecipientFields st) in
  currentMode st' = currentMode st /\
  myEmailButton st' = myEmailButton st /\
  recipientEmailButton st' = recipientEmailButton st /\
  recipientFieldsHidden st' = recipientFieldsHidden st /\
  controlFlags st' = Nat.pred (controlFlags st) /\
  forall n, value (fields st' n) = EmptyString /\
            disabled (fields st' n) = true /\
            required (fields st' n) = false.
Proof.
  cbv zeta.
  destruct (disableRecipientFields_leaves (clearRecipientFields st))
    as (H1 & H2 & H3 & H4 & H5 & H6).
  destruct (clearRecipientFields_leaves st)
    as (G1 & G2 & G3 & G4 & G5 & G6).
  rewrite H1, H2, H3, H4, H5, G1, G2, G3, G4, G5.
  repeat split; destruct (H6 n) as (E1 & E2 & E3);
    rewrite ?E1, ?E2, ?E3; try reflexivity.
  apply G6.
Qed.

Lemma with_dates_keeps st lo hi : keeps_form st (with_dates st lo hi).
Proof. repeat split. Qed.

Lemma initializeForm_leaves st :
  let st' := initializeForm st in
  currentMode st' = currentMode st /\
  myEmailButton st' = true /\ recipientEmailButton st' = false /\
  recipientFieldsHidden st' = true /\
  controlFlags st' = Nat.pred (controlFlags st) /\
  forall n, value (fields st' n) = EmptyString /\
            disabled (fields st' n) = true /\
            required (fields st' n) = false.
Proof.
  cbv zeta. unfold initializeForm, setDateConstraints.
  match goal with
  | |- context [with_dates ?s ?lo ?hi] =>
      destruct (with_dates_keeps s lo hi) as (E1 & E2 & E3 & E4 & E5 & E6)
  end.
  rewrite E1, E2, E3, E4, E5. clear E1 E2 E3 E4 E5.
  match goal with
  | |- context [disableRecipientFields (clearRecipientFields ?s)] =>
      destruct (cleared_and_disabled s) as (H1 & H2 & H3 & H4 & H5 & H6)
  end.
  rewrite H1, H2, H3, H4, H5. clear H1 H2 H3 H4 H5.
  split; [reflexivity |]. split; [reflexivity |]. split; [reflexivity |].
  split; [reflexivity |]. split; [reflexivity |].
  intros n. destruct (E6 n) as (-> & -> & ->). apply H6.
Qed.

Lemma with_listening_keeps st b : keeps_form st (with_listening st b).
Proof. repeat split. Qed.

Lemma connectedCallback_leaves st :
  let st' := connectedCallback st in
  currentMode st' = currentMode st /\
  myEmailButton st' = true /\ recipientEmailButton st' = false /\
  recipientFieldsHidden st' = true /\
  controlFlags st' = Nat.pred (controlFlags st) /\
  forall n, value (fields st' n) = EmptyString /\
            disabled (fields st' n) = true /\
            required (fields st' n) = false.
Proof.
  cbv zeta. unfold connectedCallback.
  destruct (with_listening_keeps (initializeForm st) true)
    as (E1 & E2 & E3 & E4 & E5 & E6).
  destruct (initializeForm_leaves st) as (H1 & H2 & H3 & H4 & H5 & H6).
  rewrite E1, E2, E3, E4, E5, H1, H2, H3, H4, H5.
  split; [reflexivity |]. split; [reflexivity |]. split; [reflexivity |].
  split; [reflexivity |]. split; [reflexivity |].
  intros n. destruct (E6 n) as (-> & -> & ->). apply H6.
Qed.

Lemma toggle_in_step st mode st' :
  in_step st -> toggleRecipientForm st mode = Fetch.Return st' ->
  in_step st'.
Proof.
  intros H. unfold toggleRecipientForm.
  destruct (modeOf mode) as [m|]; [| discriminate].
  case_bool_decide as Hm; intros [= <-]; [exact H |].
  unfold updateFormState. cbn [currentMode with_form].
  destruct m.
  - (* to oneself *)
    rewrite bool_decide_eq_false_2 by discriminate.
    match goal with
    | |- in_step (dispatch (announce ?s _) _) =>
        assert (Hs : in_step s)
    end.
    { match goal with
      | |- context [disableRecipientFields (clearRecipientFields ?s)] =>
          destruct (cleared_and_disabled s) as (H1 & H2 & H3 & H4 & H5 & H6)
      end.
      unfold in_step. rewrite H1, H2, H3, H4, H5. cbn.
      destruct (currentMode st) eqn:E; [contradiction |].
      unfold in_step in H. rewrite E in H.
      destruct H as (_ & _ & _ & -> & _). repeat split; apply H6. }
    eapply keeps_form_in_step; [apply dispatch_keeps |].
    eapply keeps_form_in_step; [apply announce_keeps | exact Hs].
  - (* to a recipient *)
    rewrite bool_decide_eq_true_2 by reflexivity.
    match goal with
    | |- in_step (dispatch (announce ?s _) _) =>
        assert (Hs : in_step s)
    end.
    { eapply keeps_form_in_step; [apply updateCharacterCount_keeps |].
      unfold in_step, enableRecipientFields, setDateConstraints. cbn.
      destruct (currentMode st) eqn:E; [| contradiction].
      unfold in_step in H. rewrite E in H.
      destruct H as (_ & _ & _ & -> & _). repeat split. }
    eapply keeps_form_in_step; [apply dispatch_keeps |].
    eapply keeps_form_in_step; [apply announce_keeps | exact Hs].
Qed.

Lemma step_in_step st e : stays e -> in_step st -> in_step (step st e).
Proof.
  intros He H. destruct e; cbn in He |- *; try contradiction.
  - destruct (toggleRecipientForm st mode) as [st'|] eqn:E; [| exact H].
    eapply toggle_in_step; [exact H | exact E].
  - unfold typed. destruct (disabled (fields st n)) eqn:Ed; [exact H |].
    match goal with
    | |- in_step (if _ then updateCharacterCount ?s else _) =>
        assert (Hs : in_step s)
    end.
    { unfold in_step in *. cbn. destruct (currentMode st).
      - destruct H as (_ & _ & _ & _ & Hf).
        destruct (Hf n) as (_ & Hd & _). congruence.
      - destruct H as (? & ? & ? & ? & Hr & Hf).
        repeat split; try assumption; unfold update_field.
        + destruct (decide (Email = n)); cbn; exact Hr.
        + intros k. destruct (decide (k = n)); cbn; apply Hf. }
    destruct (_ && _); [| exact Hs].
    eapply keeps_form_in_step; [apply updateCharacterCount_keeps | exact Hs].
  - destruct (listening st); [| exact H].
    eapply keeps_form_in_step; [apply displayCartError_keeps | exact H].
  - destruct (listening st); [| exact H].
    eapply keeps_form_in_step; [apply clearErrorMessages_keeps | exact H].
Qed.

End Form.

(** As long as the element stays in the document, the form agrees with
    its mode whatever the user toggles and types and whatever the cart
    reports: sending to oneself, the recipient fields are hidden, empty,
    disabled and not required and no control input is submitted; sending
    to a recipient, they are shown and enabled, the e-mail is required
    and exactly one control input is there. *)
Theorem form_agrees_with_mode {dom : Dom} (st0 : t) (evs : list Event) :
  currentMode st0 = Self -> (controlFlags st0 <= 1)%nat ->
  Forall stays evs ->
  in_step (run (connectedCallback st0) evs).
Proof.
  intros Hm Hc Hevs.
  induction evs as [| e evs IH] using rev_ind.
  - change (run (connectedCallback st0) []) with (connectedCallback st0).
    destruct (connectedCallback_leaves st0) as (H1 & H2 & H3 & H4 & H5 & H6).
    unfold in_step. rewrite H1, Hm, H2, H3, H4, H5.
    split; [reflexivity |]. split; [reflexivity |]. split; [reflexivity |].
    split; [lia | exact H6].
  - apply Forall_app in Hevs as [Hevs He]. apply Forall_inv in He.
    unfold run. rewrite foldl_snoc. apply step_in_step; [exact He |].
    apply IH, Hevs.
Qed.

(** The user chooses the recipient, types an address, and changes their
    mind. *)
Lemma form_agrees_with_mode_witness :
  in_step
    (run (connectedCallback markup)
       [Toggle "recipient_form"; Typed Email "a@example.com";
        Toggle "self"]).
Proof.
  apply (form_agrees_with_mode markup
           [Toggle "recipient_form"; Typed Email "a@example.com";
            Toggle "self"]).
  - reflexivity.
  - cbn. lia.
  - repeat constructor.
Defined.

(** [#initializeForm] does not write the mode: an element that is taken
    out of the document in recipient mode and put back shows the form of
    the self mode (fields hidden, emptied and disabled, a control input
    removed) while its mode is still the recipient one, so that choosing
    the recipient then does nothing at all. *)
Theorem reconnected_form_ignores_recipient_choice {dom : Dom} (st : t) :
  currentMode st = Recipient ->
  let st1 := connectedCallback (disconnectedCallback st) in
  currentMode st1 = Recipient /\
  myEmailButton st1 = true /\ recipientFieldsHidden st1 = true /\
  controlFlags st1 = Nat.pred (controlFlags st) /\
  (forall n, value (fields st1 n) = EmptyString /\
             disabled (fields st1 n) = true) /\
  toggleRecipientForm st1 "recipient_form" = Fetch.Return st1.
Proof.
  intros Hm. cbv zeta.
  destruct (connectedCallback_leaves (disconnectedCallback st))
    as (H1 & H2 & H3 & H4 & H5 & H6).
  assert (E : currentMode (connectedCallback (disconnectedCallback st))
              = Recipient).
  { rewrite H1. exact Hm. }
  split; [exact E |].
  split; [exact H2 |].
  split; [exact H4 |].
  split; [exact H5 |].
  split.
  - intros n. destruct (H6 n) as (? & ? & _). split; assumption.
  - unfold toggleRecipientForm.
    change (modeOf "recipient_form") with (Some Recipient).
    cbv iota. rewrite E, bool_decide_eq_true_2 by reflexivity. reflexivity.
Qed.

Lemma reconnected_form_ignores_recipient_choice_witness :
  let st := run (connectedCallback markup) [Toggle "recipient_form"] in
  let st1 := connectedCallback (disconnectedCallback st) in
  currentMode st1 = Recipient /\
  myEmailButton st1 = true /\ recipientFieldsHidden st1 = true /\
  controlFlags st1 = Nat.pred (controlFlags st) /\
  (forall n, value (fields st1 n) = EmptyString /\
             disabled (fields st1 n) = true) /\
  toggleRecipientForm st1 "recipient_form" = Fetch.Return st1.
Proof.
  intro st.
  refine (reconnected_form_ignores_recipient_choice st _). reflexivity.
Defined.

End GiftCardFacts.
